(** * ThinxAI web chat: history store, assistant adapter and SSE relay

    A shallow embedding of [web_chat.py] and the properties its design
    document states about it.

    Conventions of the embedding.
    - A Python [str] is a list of characters; characters are 8-bit
      ([ascii]), so texts are restricted to code points below 256.
    - A Python [bytes] value is a list of [byte].
    - A value produced by [json.loads] (and any value the program stores in
      a dynamically typed variable) is a [json] tree.  Floating point
      numbers are not represented.
    - A raised exception is a value of [exn]; fallible expressions return
      [res]; code with side effects is written in the monad [M].

    What is outside the embedding.  The connection to the client stays
    open, the assistant process starts and a file can always be appended
    to: [response.write], [create_subprocess_exec] and [open] do not
    raise.  Logging has no effect on the state.  The assistant process
    does not touch the files of the server.  The keep-alive task is
    modelled on its own, with an explicit time line.  The files an
    upload writes in binary mode are held in a store of their own, and
    the file of an upload can always be created. *)

From Stdlib Require Import ZArith Strings.Ascii Strings.String Strings.Byte List Lia Bool.
From Stdlib Require Import DecimalString QArith Lqa.
From stdpp Require Import base list gmap strings.
From Equations Require Import Equations.
Import ListNotations.

Local Open Scope Z_scope.
Local Open Scope list_scope.

(** ** Python text and bytes *)

Abbreviation str := (list ascii).
Abbreviation bytes := (list byte).

(** The literals of the source are written [lit "..."]; a backslash in
    them is an ordinary character. *)
Definition lit (s : string) : str := list_ascii_of_string s.

Definition LF : ascii := "010"%char.
Definition CR : ascii := "013"%char.
Definition DQUOTE : ascii := "034"%char.
Definition BACKSLASH : ascii := "092"%char.

Definition chr_eqb (a b : ascii) : bool := Ascii.eqb a b.

Fixpoint str_eqb (a b : str) : bool :=
  match a, b with
  | [], [] => true
  | x :: a', y :: b' => chr_eqb x y && str_eqb a' b'
  | _, _ => false
  end.

(** [str.isspace] on the characters below 256. *)
Definition is_space (c : ascii) : bool :=
  match nat_of_ascii c with
  | 9 | 10 | 11 | 12 | 13 | 28 | 29 | 30 | 31 | 32 | 133 | 160 => true
  | _ => false
  end%nat.

(** The whitespace [bytes.strip] removes. *)
Definition is_space_byte (b : byte) : bool :=
  match b with
  | x09 | x0a | x0b | x0c | x0d | x20 => true
  | _ => false
  end.

Section Strip.
Context {A : Type} (sp : A -> bool).

(** Without the leading elements that [sp] holds of. *)
Fixpoint lstrip_with (l : list A) : list A :=
  match l with
  | [] => []
  | c :: l' => if sp c then lstrip_with l' else l
  end.

(** Without the trailing ones. *)
Fixpoint rstrip_with (l : list A) : list A :=
  match l with
  | [] => []
  | c :: l' =>
      match rstrip_with l' with
      | [] => if sp c then [] else [c]
      | r => c :: r
      end
  end.

Definition strip_with (l : list A) : list A := rstrip_with (lstrip_with l).
End Strip.

(** [s.strip()] for a [str] and for a [bytes]. *)
Definition strip (s : str) : str := strip_with is_space s.
Definition bstrip (b : bytes) : bytes := strip_with is_space_byte b.

(** Truth value of a sequence: non-empty. *)
Definition nonempty {A} (l : list A) : bool :=
  match l with [] => false | _ => true end.

(** [s.startswith(p)]. *)
Fixpoint startswith (s p : str) : bool :=
  match p, s with
  | [], _ => true
  | c :: p', d :: s' => chr_eqb c d && startswith s' p'
  | _ :: _, [] => false
  end.

(** [needle in s] for strings. *)
Fixpoint contains (s needle : str) : bool :=
  startswith s needle ||
  match s with
  | [] => false
  | _ :: s' => contains s' needle
  end.

(** [s.replace(c, r)] for a one-character pattern [c]. *)
Fixpoint replace_chr (c : ascii) (r : str) (s : str) : str :=
  match s with
  | [] => []
  | d :: s' => (if chr_eqb d c then r else [d]) ++ replace_chr c r s'
  end.

(** [s.lower()] on ASCII letters. *)
Definition lower_chr (c : ascii) : ascii :=
  let n := nat_of_ascii c in
  if ((65 <=? n)%nat && (n <=? 90)%nat)%bool then ascii_of_nat (n + 32) else c.
Definition lower (s : str) : str := map lower_chr s.

(** [sep.join(parts)]. *)
Fixpoint join (sep : str) (parts : list str) : str :=
  match parts with
  | [] => []
  | [p] => p
  | p :: ps => p ++ sep ++ join sep ps
  end.

(** Slices.  [l[start:]] for an arbitrary integer [start]: a negative
    index counts from the end, and both are clamped to the list. *)
Definition slice_from {A} (start : Z) (l : list A) : list A :=
  let n := Z.of_nat (length l) in
  let s := if start <? 0 then Z.max 0 (start + n) else Z.min start n in
  drop (Z.to_nat s) l.

(** [l[i:j]] for non-negative [i] and [j]. *)
Definition slice {A} (i j : nat) (l : list A) : list A :=
  take (j - i) (drop i l).

(** The lines a text-mode file iterates over: each keeps its newline,
    the last one may lack it. *)
Fixpoint readlines (s : str) : list str :=
  match s with
  | [] => []
  | c :: s' =>
      if chr_eqb c LF then [c] :: readlines s'
      else match readlines s' with
           | [] => [[c]]
           | l :: ls => (c :: l) :: ls
           end
  end.

(** ** Python values *)

Inductive json : Type :=
| JNull
| JBool (b : bool)
| JInt (n : Z)
| JStr (s : str)
| JArr (l : list json)
| JObj (d : list (str * json)).

(** Exceptions the modelled code can meet. *)
Inductive exn : Type :=
| JSONDecodeError
| UnicodeDecodeError
| AttributeError
| TypeError
| KeyError
| ConnectionResetError
| BrokenPipeError
| OSError.

Inductive res (A : Type) : Type :=
| Ok (a : A)
| Raise (e : exn).
Arguments Ok {A} a.
Arguments Raise {A} e.

(** [bool(v)]. *)
Definition truthy (v : json) : bool :=
  match v with
  | JNull => false
  | JBool b => b
  | JInt n => negb (n =? 0)
  | JStr s => nonempty s
  | JArr l => nonempty l
  | JObj d => nonempty d
  end.

(** [v == "literal"]: only a string equals a string. *)
Definition eq_str (v : json) (s : str) : bool :=
  match v with
  | JStr t => str_eqb t s
  | _ => false
  end.

Fixpoint assoc (k : str) (d : list (str * json)) : option json :=
  match d with
  | [] => None
  | (k', v) :: d' => if str_eqb k' k then Some v else assoc k d'
  end.

(** [d[k] = v] on a dictionary: an existing key keeps its position. *)
Fixpoint dict_set (k : str) (v : json) (d : list (str * json))
  : list (str * json) :=
  match d with
  | [] => [(k, v)]
  | (k', v') :: d' =>
      if str_eqb k' k then (k', v) :: d' else (k', v') :: dict_set k v d'
  end.

(** [v.get(k, default)]: defined on dictionaries only. *)
Definition py_get (v : json) (k : str) (default : json) : res json :=
  match v with
  | JObj d => Ok (match assoc k d with Some x => x | None => default end)
  | _ => Raise AttributeError
  end.

(** [v[k]] with a string key. *)
Definition py_index (v : json) (k : str) : res json :=
  match v with
  | JObj d => match assoc k d with Some x => Ok x | None => Raise KeyError end
  | _ => Raise TypeError
  end.

(** The integer a number or a boolean stands for in arithmetic. *)
Definition as_int (v : json) : option Z :=
  match v with
  | JInt n => Some n
  | JBool b => Some (if b then 1 else 0)
  | _ => None
  end.

(** [a += b]. *)
Definition py_iadd (a b : json) : res json :=
  match a, b with
  | JStr x, JStr y => Ok (JStr (x ++ y))
  | JArr x, JArr y => Ok (JArr (x ++ y))
  | JArr x, JStr y => Ok (JArr (x ++ map (fun c => JStr [c]) y))
  | JArr x, JObj d => Ok (JArr (x ++ map (fun kv => JStr (fst kv)) d))
  | _, _ =>
      match as_int a, as_int b with
      | Some m, Some n => Ok (JInt (m + n))
      | _, _ => Raise TypeError
      end
  end.

(** ** The Python runtime

    What the program takes from the interpreter and its standard library:
    the [json] codec, the UTF-8 decoder and the text of values and
    exceptions.  The program is modelled over an arbitrary runtime; a
    reference runtime used to run the model on concrete inputs follows. *)

Class Runtime : Type := {
  (** [json.loads(s)]; a malformed document raises [JSONDecodeError]. *)
  json_loads : str -> res json;
  (** [json.dumps(v)]. *)
  json_dumps : json -> str;
  (** [b.decode()]; invalid UTF-8 raises [UnicodeDecodeError]. *)
  utf8_decode : bytes -> res str;
  (** [str(v)] for a value that is not a string. *)
  py_str : json -> str;
  (** [str(e)] for an exception. *)
  exn_str : exn -> str
}.

(** A value interpolated in an f-string. *)
Definition fmt `{Runtime} (v : json) : str :=
  match v with
  | JStr s => s
  | _ => py_str v
  end.

(** *** Reference codec *)

Definition dec (n : Z) : str := lit (NilEmpty.string_of_int (Z.to_int n)).

Definition hex_digit (n : nat) : ascii := nth n (lit "0123456789abcdef") "0"%char.

(** One character of a string as [json.dumps] writes it (with its default
    [ensure_ascii]); in the literals below a backslash is an ordinary
    character. *)
Definition escape_chr (c : ascii) : str :=
  let n := nat_of_ascii c in
  if chr_eqb c DQUOTE then lit "\" ++ [DQUOTE]
  else if chr_eqb c BACKSLASH then lit "\\"
  else if (n =? 10)%nat then lit "\n"
  else if (n =? 13)%nat then lit "\r"
  else if (n =? 9)%nat then lit "\t"
  else if (n =? 8)%nat then lit "\b"
  else if (n =? 12)%nat then lit "\f"
  else if ((32 <=? n)%nat && (n <=? 126)%nat)%bool then [c]
  else lit "\u00" ++ [hex_digit (n / 16); hex_digit (n mod 16)].

Definition quote (s : str) : str :=
  [DQUOTE] ++ concat (map escape_chr s) ++ [DQUOTE].

Fixpoint ref_dumps (v : json) : str :=
  match v with
  | JNull => lit "null"
  | JBool true => lit "true"
  | JBool false => lit "false"
  | JInt n => dec n
  | JStr s => quote s
  | JArr l => lit "[" ++ join (lit ", ") (map ref_dumps l) ++ lit "]"
  | JObj d =>
      lit "{" ++
      join (lit ", ")
        (map (fun kv => quote (fst kv) ++ lit ": " ++ ref_dumps (snd kv)) d) ++
      lit "}"
  end.

Definition is_json_ws (c : ascii) : bool :=
  match nat_of_ascii c with
  | 9 | 10 | 13 | 32 => true
  | _ => false
  end%nat.

Definition skip_ws (s : str) : str := lstrip_with is_json_ws s.

Definition hex_val (c : ascii) : option nat :=
  let n := nat_of_ascii c in
  if ((48 <=? n) && (n <=? 57))%nat then Some (n - 48)%nat
  else if ((97 <=? n) && (n <=? 102))%nat then Some (n - 87)%nat
  else if ((65 <=? n) && (n <=? 70))%nat then Some (n - 55)%nat
  else None.

(** The character an escape letter stands for. *)
Definition unescape (e : ascii) : option ascii :=
  if chr_eqb e DQUOTE then Some DQUOTE
  else if chr_eqb e BACKSLASH then Some BACKSLASH
  else if chr_eqb e "/" then Some "/"%char
  else if chr_eqb e "n" then Some LF
  else if chr_eqb e "r" then Some CR
  else if chr_eqb e "t" then Some "009"%char
  else if chr_eqb e "b" then Some "008"%char
  else if chr_eqb e "f" then Some "012"%char
  else None.

(** The body of a string after its opening quote, up to the closing one.
    Raw control characters are refused; a [\u] escape is accepted when it
    names a character below 256. *)
Fixpoint parse_chars (s : str) : option (str * str) :=
  match s with
  | [] => None
  | c :: s1 =>
      if chr_eqb c DQUOTE then Some ([], s1)
      else if chr_eqb c BACKSLASH then
        match s1 with
        | [] => None
        | e :: s2 =>
            if chr_eqb e "u" then
              match s2 with
              | h1 :: h2 :: h3 :: h4 :: s3 =>
                  match hex_val h1, hex_val h2, hex_val h3, hex_val h4 with
                  | Some 0%nat, Some 0%nat, Some a, Some b =>
                      match parse_chars s3 with
                      | Some (t, r) => Some (ascii_of_nat (16 * a + b) :: t, r)
                      | None => None
                      end
                  | _, _, _, _ => None
                  end
              | _ => None
              end
            else
              match unescape e, parse_chars s2 with
              | Some ch, Some (t, r) => Some (ch :: t, r)
              | _, _ => None
              end
        end
      else if (nat_of_ascii c <? 32)%nat then None
      else
        match parse_chars s1 with
        | Some (t, r) => Some (c :: t, r)
        | None => None
        end
  end.

Definition is_digit (c : ascii) : bool :=
  ((48 <=? nat_of_ascii c) && (nat_of_ascii c <=? 57))%nat.

(** Decimal digits at the head of [s], most significant first. *)
Fixpoint parse_digits (acc : Z) (s : str) : Z * str :=
  match s with
  | c :: s' =>
      if is_digit c then parse_digits (10 * acc + Z.of_nat (nat_of_ascii c - 48)) s'
      else (acc, s)
  | [] => (acc, s)
  end.

(** An integer literal: no leading zero, no fraction and no exponent. *)
Definition parse_int (s : str) : option (Z * str) :=
  let '(neg, s1) :=
    match s with
    | c :: s' => if chr_eqb c "-" then (true, s') else (false, s)
    | [] => (false, s)
    end in
  match s1 with
  | c :: s2 =>
      if is_digit c then
        let '(n, r) := if chr_eqb c "0" then (0, s2) else parse_digits 0 s1 in
        match r with
        | d :: _ =>
            if chr_eqb d "." || chr_eqb d "e" || chr_eqb d "E" then None
            else Some (if neg then - n else n, r)
        | [] => Some (if neg then - n else n, r)
        end
      else None
  | [] => None
  end.

Fixpoint parse_value (fuel : nat) (s : str) : option (json * str) :=
  match fuel with
  | O => None
  | S f =>
      match s with
      | [] => None
      | c :: s1 =>
          if chr_eqb c DQUOTE then
            match parse_chars s1 with
            | Some (t, r) => Some (JStr t, r)
            | None => None
            end
          else if chr_eqb c "{" then
            match skip_ws s1 with
            | d :: s2 =>
                if chr_eqb d "}" then Some (JObj [], s2)
                else parse_members f [] (d :: s2)
            | [] => None
            end
          else if chr_eqb c "[" then
            match skip_ws s1 with
            | d :: s2 =>
                if chr_eqb d "]" then Some (JArr [], s2)
                else parse_elems f [] (d :: s2)
            | [] => None
            end
          else if startswith s (lit "null") then Some (JNull, drop 4 s)
          else if startswith s (lit "true") then Some (JBool true, drop 4 s)
          else if startswith s (lit "false") then Some (JBool false, drop 5 s)
          else
            match parse_int s with
            | Some (n, r) => Some (JInt n, r)
            | None => None
            end
      end
  end
with parse_members (fuel : nat) (acc : list (str * json)) (s : str)
  : option (json * str) :=
  match fuel with
  | O => None
  | S f =>
      match s with
      | c :: s1 =>
          if chr_eqb c DQUOTE then
            match parse_chars s1 with
            | Some (k, s2) =>
                match skip_ws s2 with
                | colon :: s3 =>
                    if chr_eqb colon ":" then
                      match parse_value f (skip_ws s3) with
                      | Some (v, s4) =>
                          match skip_ws s4 with
                          | d :: s5 =>
                              if chr_eqb d "," then
                                parse_members f (dict_set k v acc) (skip_ws s5)
                              else if chr_eqb d "}" then
                                Some (JObj (dict_set k v acc), s5)
                              else None
                          | [] => None
                          end
                      | None => None
                      end
                    else None
                | [] => None
                end
            | None => None
            end
          else None
      | [] => None
      end
  end
with parse_elems (fuel : nat) (acc : list json) (s : str)
  : option (json * str) :=
  match fuel with
  | O => None
  | S f =>
      match parse_value f s with
      | Some (v, s1) =>
          match skip_ws s1 with
          | d :: s2 =>
              if chr_eqb d "," then parse_elems f (acc ++ [v]) (skip_ws s2)
              else if chr_eqb d "]" then Some (JArr (acc ++ [v]), s2)
              else None
          | [] => None
          end
      | None => None
      end
  end.

Definition ref_loads (s : str) : res json :=
  match parse_value (S (length s)) (skip_ws s) with
  | Some (v, r) =>
      match skip_ws r with
      | [] => Ok v
      | _ => Raise JSONDecodeError
      end
  | None => Raise JSONDecodeError
  end.

Definition byte_is_ascii (b : byte) : bool := (Byte.to_nat b <? 128)%nat.

(** UTF-8 decoding of ASCII input; the reference runtime is only run on
    such input and refuses anything else. *)
Definition ascii_decode (b : bytes) : res str :=
  if forallb byte_is_ascii b then Ok (map ascii_of_byte b)
  else Raise UnicodeDecodeError.

Definition ref_py_str (v : json) : str :=
  match v with
  | JNull => lit "None"
  | JBool true => lit "True"
  | JBool false => lit "False"
  | JInt n => dec n
  | _ => ref_dumps v
  end.

Definition ref_exn_str (e : exn) : str :=
  match e with
  | JSONDecodeError => lit "Expecting value"
  | UnicodeDecodeError => lit "invalid start byte"
  | AttributeError => lit "object has no attribute"
  | TypeError => lit "unsupported operand"
  | KeyError => lit "key"
  | ConnectionResetError => lit "Connection reset by peer"
  | BrokenPipeError => lit "Broken pipe"
  | OSError => lit "No such file or directory"
  end.

Definition ref_runtime : Runtime := {|
  json_loads := ref_loads;
  json_dumps := ref_dumps;
  utf8_decode := ascii_decode;
  py_str := ref_py_str;
  exn_str := ref_exn_str
|}.

(** ** The environment of the server

    Configuration read at start-up, and the two sources of input that are
    not files: the clock and the assistant process. *)

(** What one run of the assistant process delivers: the successive results
    of [process.stdout.read(64 * 1024)] up to end of file, the exit code,
    and the standard error. *)
Record process : Type := {
  stdout_chunks : list bytes;
  returncode : Z;
  stderr : bytes
}.

Class Env : Type := {
  HISTORY_DIR : str;
  DOWNLOADS_DIR : str;
  MEMORY_PATH : str;
  SCRIPT_DIR : str;
  (** [SCRIPT_DIR.parent]. *)
  REPO_ROOT : str;
  (** [datetime.now().isoformat()] at the n-th reading of the clock. *)
  clock : nat -> str;
  (** The n-th assistant process started, for its command line. *)
  assistant : nat -> list str -> process;
  (** [Path(p).resolve()], as a string. *)
  resolve : str -> str
}.

(** The state the handlers act on.  A file holds the text a text-mode
    [open] reads from it. *)
Record world : Type := {
  files : gmap str str;
  (** What has been written on the open response, oldest first. *)
  wire : list str;
  (** The command lines of the assistant processes started, oldest first. *)
  spawned : list (list str);
  (** How many times the clock has been read. *)
  tick : nat
}.

Definition set_wire (f : list str -> list str) (w : world) : world :=
  {| files := files w; wire := f (wire w);
     spawned := spawned w; tick := tick w |}.

(** ** Effects *)

Definition M (S A : Type) : Type := S -> res A * S.

Definition ret {S A} (a : A) : M S A := fun s => (Ok a, s).

Definition raise {S A} (e : exn) : M S A := fun s => (Raise e, s).

Definition bind {S A B} (m : M S A) (k : A -> M S B) : M S B :=
  fun s =>
    match m s with
    | (Ok a, s') => k a s'
    | (Raise e, s') => (Raise e, s')
    end.

(** A fallible expression used as a statement. *)
Definition lift {S A} (r : res A) : M S A := fun s => (r, s).

(** [try: m  except <handles>: h]. *)
Definition try_except {S A} (m : M S A) (handles : exn -> bool)
    (h : exn -> M S A) : M S A :=
  fun s =>
    match m s with
    | (Ok a, s') => (Ok a, s')
    | (Raise e, s') => if handles e then h e s' else (Raise e, s')
    end.

Definition any_exception (e : exn) : bool := true.

Notation "'let*' x ':=' m 'in' k" := (bind m (fun x => k))
  (at level 10, x name, m at level 100, k at level 200).
Notation "m ';;' k" := (bind m (fun _ => k))
  (at level 100, k at level 200, right associativity).

(** [if c: m] with no [else]. *)
Definition when {S} (c : bool) (m : M S unit) : M S unit :=
  if c then m else ret tt.

(** [for x in l: body x]. *)
Fixpoint for_each {S A} (l : list A) (body : A -> M S unit) : M S unit :=
  match l with
  | [] => ret tt
  | x :: l' => body x ;; for_each l' body
  end.

(** The same for expressions without side effects. *)
Definition rbind {A B} (r : res A) (k : A -> res B) : res B :=
  match r with
  | Ok a => k a
  | Raise e => Raise e
  end.

(** ** History store *)

Section HistoryStore.
Context `{RT : Runtime} `{EV : Env}.

(** [dir / name] for a relative [name]; an absolute [name] replaces
    [dir]. *)
Definition path_join (dir name : str) : str :=
  if startswith name (lit "/") then name else dir ++ lit "/" ++ name.

Definition get_history_path (user_id : str) : str :=
  path_join HISTORY_DIR (user_id ++ lit ".jsonl").

(** The loop of [load_history]: blank lines are passed over, every other
    line is decoded, and an exception leaves the loop. *)
Fixpoint read_messages (lines : list str) (messages : list json)
  : res (list json) :=
  match lines with
  | [] => Ok messages
  | line :: rest =>
      if nonempty (strip line) then
        rbind (json_loads line) (fun v => read_messages rest (messages ++ [v]))
      else read_messages rest messages
  end.

Definition load_history (fs : gmap str str) (user_id : str) (limit : Z)
  : list json :=
  let history_path := get_history_path user_id in
  match fs !! history_path with
  | None => []
  | Some content =>
      match rbind (read_messages (readlines content) [])
                  (fun messages => Ok (slice_from (- limit) messages)) with
      | Ok r => r
      | Raise _ => []
      end
  end.

(** The entry [save_message] builds. *)
Definition history_entry (role content timestamp : str) : json :=
  JObj [(lit "role", JStr role);
        (lit "content", JStr content);
        (lit "timestamp", JStr timestamp);
        (lit "source", JStr (lit "web"))].

(** [open(path, 'a').write(text)]: the file is created when absent. *)
Definition append_file (path text : str) (fs : gmap str str) : gmap str str :=
  <[path := default [] (fs !! path) ++ text]> fs.

Definition save_message (user_id role content : str) : M world unit :=
  fun w =>
    let history_path := get_history_path user_id in
    let entry := history_entry role content (clock (tick w)) in
    (Ok tt,
     {| files := append_file history_path (json_dumps entry ++ [LF]) (files w);
        wire := wire w; spawned := spawned w; tick := S (tick w) |}).
End HistoryStore.

(** ** Assistant process adapter *)

(** [buffer.split(b'\n', 1)] when the buffer holds a newline, [None] when
    [b'\n' in buffer] is false. *)
Fixpoint split_nl (buffer : bytes) : option (bytes * bytes) :=
  match buffer with
  | [] => None
  | c :: b' =>
      if Byte.eqb c x0a then Some ([], b')
      else match split_nl b' with
           | Some (line, rest) => Some (c :: line, rest)
           | None => None
           end
  end.

Lemma split_nl_shorter (buffer line rest : bytes) :
  split_nl buffer = Some (line, rest) -> (length rest < length buffer)%nat.
Proof.
  revert line rest; induction buffer as [|c b IH]; intros line rest; simpl.
  - discriminate.
  - destruct (Byte.eqb c x0a).
    + intros [= <- <-]. lia.
    + destruct (split_nl b) as [[l r]|]; [|discriminate].
      intros [= <- <-]. specialize (IH l r eq_refl). lia.
Qed.

(** A value together with the equation that names it, for the
    termination argument of a loop that tests it. *)
Definition inspect {A} (a : A) : {b : A | a = b} := exist _ a eq_refl.

(** The local variable [result_text] of [call_claude_streaming], next to
    the state [St] the callback acts on. *)
Record adapter (St : Type) : Type := {
  result_text : json;
  cb : St
}.
Arguments result_text {St} _.
Arguments cb {St} _.

Definition is_json_decode_error (e : exn) : bool :=
  match e with JSONDecodeError => true | _ => false end.

Section Adapter.
Context `{RT : Runtime} {St : Type}.
Variable on_event : option (json -> M St unit).

Definition set_result_text (v : json) : M (adapter St) unit :=
  fun a => (Ok tt, {| result_text := v; cb := cb a |}).

(** [if on_event: await on_event(event)]. *)
Definition forward (event : json) : M (adapter St) unit :=
  match on_event with
  | Some f =>
      fun a =>
        let '(r, s') := f event (cb a) in
        (r, {| result_text := result_text a; cb := s' |})
  | None => ret tt
  end.

(** Text from [content_block_delta] events. *)
Definition extract_delta (event : json) : M (adapter St) unit :=
  let* ty := lift (py_get event (lit "type") JNull) in
  when (eq_str ty (lit "content_block_delta"))
    (let* delta := lift (py_get event (lit "delta") (JObj [])) in
     let* dty := lift (py_get delta (lit "type") JNull) in
     when (eq_str dty (lit "text_delta"))
       (let* text := lift (py_get delta (lit "text") (JStr [])) in
        fun a =>
          match py_iadd (result_text a) text with
          | Ok v => set_result_text v a
          | Raise e => (Raise e, a)
          end)).

(** The result of the final message. *)
Definition extract_result (event : json) : M (adapter St) unit :=
  let* ty := lift (py_get event (lit "type") JNull) in
  when (eq_str ty (lit "result"))
    (let* result := lift (py_get event (lit "result") (JStr [])) in
     fun a =>
       if truthy result && negb (truthy (result_text a))
       then set_result_text result a
       else (Ok tt, a)).

(** The body of the inner loop for one complete line. *)
Definition process_line (line : bytes) : M (adapter St) unit :=
  if negb (nonempty (bstrip line)) then ret tt
  else
    try_except
      (let* text := lift (utf8_decode line) in
       let* event := lift (json_loads (strip text)) in
       extract_delta event ;;
       extract_result event ;;
       forward event)
      is_json_decode_error (fun _ => ret tt).

(** [while b'\n' in buffer: ...]; returns the buffer left over. *)
Equations? drain (buffer : bytes) : M (adapter St) bytes
  by wf (length buffer) lt :=
  drain buffer with inspect (split_nl buffer) := {
    | exist _ (Some (line, rest)) E => process_line line ;; drain rest
    | exist _ None E => ret buffer }.
Proof. eapply split_nl_shorter; eassumption. Qed.

(** [while True: chunk = read(); if not chunk: break; ...]. *)
Fixpoint read_loop (chunks : list bytes) (buffer : bytes)
  : M (adapter St) bytes :=
  match chunks with
  | [] => ret buffer
  | chunk :: chunks' =>
      if negb (nonempty chunk) then ret buffer
      else
        let* buffer' := drain (buffer ++ chunk) in
        read_loop chunks' buffer'
  end.

(** What is left in the buffer at end of file. *)
Definition process_residual (buffer : bytes) : M (adapter St) unit :=
  when (nonempty (bstrip buffer))
    (try_except
       (let* text := lift (utf8_decode buffer) in
        let* event := lift (json_loads (strip text)) in
        extract_result event ;;
        forward event)
       is_json_decode_error (fun _ => ret tt)).

(** The [try] block of [call_claude_streaming] with its
    [except Exception], which only logs: the text accumulated so far is
    what the function goes on with. *)
Definition stream_events (chunks : list bytes) : M St json :=
  fun s =>
    let body :=
      try_except
        (let* buffer := read_loop chunks [] in process_residual buffer)
        any_exception (fun _ => ret tt) in
    let '(_, a) := body {| result_text := JStr []; cb := s |} in
    (Ok (result_text a), cb a).
End Adapter.

(** ** Prompt assembler *)

(** [for x in v] over a value: the elements of a list, the characters of a
    string, the keys of a dictionary. *)
Definition py_iter (v : json) : res (list json) :=
  match v with
  | JArr l => Ok l
  | JStr s => Ok (map (fun c => JStr [c]) s)
  | JObj d => Ok (map (fun kv => JStr (fst kv)) d)
  | _ => Raise TypeError
  end.

(** A list comprehension whose element expression can raise. *)
Fixpoint map_res {A B} (f : A -> res B) (l : list A) : res (list B) :=
  match l with
  | [] => Ok []
  | x :: l' => rbind (f x) (fun y => rbind (map_res f l') (fun ys => Ok (y :: ys)))
  end.

Definition WEB_USER_ID : str := lit "web_user".

Definition chat_system_instructions : str := lit
"<system_instructions>
When you create or reference an image file, output it using this format so it displays in the chat:
[ACTION:show_image|/full/path/to/image.png]

For example, after generating a diagram at /tmp/diagram.png, include:
[ACTION:show_image|/tmp/diagram.png]

The image will be rendered inline in the chat interface.
</system_instructions>".

Definition draw_bot_system_instructions : str := lit
"<system_instructions>
You are Draw Bot, a specialized diagramming assistant. Your job is to create professional-quality diagrams.

When you create or reference an image file, output it using this format so it displays in the chat:
[ACTION:show_image|/full/path/to/image.png]

For example, after generating a diagram at /tmp/diagram.png, include:
[ACTION:show_image|/tmp/diagram.png]

The image will be rendered inline in the chat interface.
</system_instructions>".

Definition diagram_instructions : str := lit
"<behavior>
## Your Workflow

1. **Diagnostic Intake**: When the user first describes what they need, ask the diagnostic questions from your profile to clarify:
   - Purpose & audience
   - Diagram type
   - Style preference
   - Output format
   - Key elements to include

2. **Tool Selection**: Based on their answers, choose the appropriate tool:
   - D2 for clean architecture diagrams
   - Mermaid for sequences and flowcharts
   - nomnoml for hand-drawn/sketchy style
   - Structurizr for formal C4 architecture
   - PlantUML for UML diagrams

3. **Create the Diagram**: Generate the diagram code and render it using the appropriate skill (/d2, /mermaid, /kroki, etc.)

4. **Quality Check**: Verify against your checklist before delivering

5. **Iterate**: Ask if they want any adjustments

## Important Rules
- Always ask clarifying questions before creating the diagram (unless they've provided all needed info)
- Save diagrams to the diagrams/ directory with proper naming
- Use the ThinxAI color palette unless they request something different
- **ALWAYS use white (#FFFFFF) background by default for ALL diagrams** - this is mandatory unless user explicitly requests otherwise
- Show the rendered image using the [ACTION:show_image|path] format
</behavior>".

Section PromptAssembler.
Context `{RT : Runtime} `{EV : Env}.

(** [f"{msg['role']}: {msg['content']}"]. *)
Definition render_turn (msg : json) : res str :=
  rbind (py_index msg (lit "role")) (fun role =>
  rbind (py_index msg (lit "content")) (fun content =>
  Ok (fmt role ++ lit ": " ++ fmt content))).

(** The transcript block for the last [window] entries of [history]. *)
Definition history_block (history : list json) (window : Z) : res (list str) :=
  if nonempty history then
    rbind (map_res render_turn (slice_from (- window) history)) (fun turns =>
    Ok [lit "<conversation_history>" ++ [LF] ++ join [LF] turns ++ [LF] ++
        lit "</conversation_history>"])
  else Ok [].

Definition build_prompt (fs : gmap str str) (user_id message : str) : res str :=
  let history := load_history fs user_id 20 in
  let parts := [chat_system_instructions] in
  let parts :=
    match fs !! MEMORY_PATH with
    | Some memory_content =>
        parts ++ [lit "<memory>" ++ [LF] ++ memory_content ++ [LF] ++ lit "</memory>"]
    | None => parts
    end in
  rbind (history_block history 10) (fun block =>
  let parts := parts ++ block in
  let parts := parts ++ [lit "User message: " ++ message] in
  Ok (join [LF; LF] parts)).

Definition DRAW_BOT_PROFILE : str :=
  path_join (path_join SCRIPT_DIR (lit "profiles")) (lit "draw_bot.md").

Definition build_draw_bot_prompt (fs : gmap str str) (user_id message : str)
  : res str :=
  let parts := [draw_bot_system_instructions] in
  let parts :=
    match fs !! DRAW_BOT_PROFILE with
    | Some profile_content =>
        parts ++ [lit "<draw_bot_profile>" ++ [LF] ++ profile_content ++ [LF] ++
                  lit "</draw_bot_profile>"]
    | None => parts
    end in
  let parts := parts ++ [diagram_instructions] in
  let history := load_history fs (user_id ++ lit "_draw_bot") 10 in
  rbind (history_block history 6) (fun block =>
  let parts := parts ++ block in
  let parts := parts ++ [lit "User message: " ++ message] in
  Ok (join [LF; LF] parts)).
End PromptAssembler.

(** ** SSE relay *)

Definition len {A} (l : list A) : Z := Z.of_nat (length l).

Definition MAX_SSE_EVENT_SIZE : Z := 16 * 1024.
Definition MAX_SSE_CHUNK : Z := 16 * 1024.

(** A text between double quotes, as the source writes it inside its
    frame literals. *)
Definition dq (s : str) : str := [DQUOTE] ++ s ++ [DQUOTE].

(** [f'data: {payload}\n\n']. *)
Definition sse (payload : str) : str := lit "data: " ++ payload ++ [LF; LF].

(** [await response.write(frame.encode())]: the connection is taken to be
    open, and the frame is recorded as the text that is encoded. *)
Definition write (frame : str) : M world unit :=
  fun w => (Ok tt, set_wire (fun l => l ++ [frame]) w).

(** [b'data: {"type":"error","message":"No message provided"}\n\n']. *)
Definition no_message_frame : str :=
  sse (lit "{" ++ dq (lit "type") ++ lit ":" ++ dq (lit "error") ++ lit "," ++
       dq (lit "message") ++ lit ":" ++ dq (lit "No message provided") ++ lit "}").

(** [f'data: {{"type":"error","message":"{error_msg}"}}\n\n']. *)
Definition error_frame (error_msg : str) : str :=
  sse (lit "{" ++ dq (lit "type") ++ lit ":" ++ dq (lit "error") ++ lit "," ++
       dq (lit "message") ++ lit ":" ++ dq error_msg ++ lit "}").

(** [b'data: {"type":"done"}\n\n']. *)
Definition done_frame : str :=
  sse (lit "{" ++ dq (lit "type") ++ lit ":" ++ dq (lit "done") ++ lit "}").

(** [text[:500].replace('"', '\\"').replace('\n', '\\n')]. *)
Definition bounded_escaped (text : str) : str :=
  replace_chr LF (lit "\n") (replace_chr DQUOTE [BACKSLASH; DQUOTE] (take 500 text)).

(** [v[:n]]. *)
Definition py_prefix (n : nat) (v : json) : res json :=
  match v with
  | JStr s => Ok (JStr (take n s))
  | JArr l => Ok (JArr (take n l))
  | _ => Raise TypeError
  end.

(** [a + b]. *)
Definition py_add (a b : json) : res json :=
  match a, b with
  | JStr x, JStr y => Ok (JStr (x ++ y))
  | JArr x, JArr y => Ok (JArr (x ++ y))
  | _, _ =>
      match as_int a, as_int b with
      | Some m, Some n => Ok (JInt (m + n))
      | _, _ => Raise TypeError
      end
  end.

(** [v.strip()]. *)
Definition py_strip (v : json) : res str :=
  match v with
  | JStr s => Ok (strip s)
  | _ => Raise AttributeError
  end.

(** [range(start, stop, step)] for a positive [step]. *)
Fixpoint range_from (n : nat) (i stop step : Z) : list Z :=
  match n with
  | O => []
  | S n' => if i <? stop then i :: range_from n' (i + step) stop step else []
  end.

Definition py_range (start stop step : Z) : list Z :=
  range_from (Z.to_nat (stop - start)) start stop step.

(** *** The two substitutions that clean the answer *)

(** [re.sub(pattern, '', s)] for a pattern that matches no empty text:
    [match_len s] is the length of the match of the pattern at the head of
    [s], if there is one; [skip] counts the characters of the current match
    still to be dropped. *)
Fixpoint re_sub_go (match_len : str -> option nat) (skip : nat) (s : str) : str :=
  match s with
  | [] => []
  | c :: s' =>
      match skip with
      | S k => re_sub_go match_len k s'
      | O =>
          match match_len s with
          | Some (S k) => re_sub_go match_len k s'
          | _ => c :: re_sub_go match_len 0 s'
          end
      end
  end.

Definition re_sub (match_len : str -> option nat) (s : str) : str :=
  re_sub_go match_len 0 s.

(** The longest run of decimal digits at the head of [s]. *)
Fixpoint digits_len (s : str) : nat :=
  match s with
  | c :: s' => if is_digit c then S (digits_len s') else O
  | [] => O
  end.

(** The longest run of characters other than "]" at the head of [s]. *)
Fixpoint not_bracket_len (s : str) : nat :=
  match s with
  | c :: s' => if chr_eqb c "]" then O else S (not_bracket_len s')
  | [] => O
  end.

(** A closing "]" and an optional newline at the head of [s]. *)
Definition close_len (s : str) : option nat :=
  match s with
  | c :: s' =>
      if chr_eqb c "]" then
        match s' with
        | d :: _ => if chr_eqb d LF then Some 2%nat else Some 1%nat
        | [] => Some 1%nat
        end
      else None
  | [] => None
  end.

(** [r'\[ACTION:check_inbox(?::\d+)?\]\n?']. *)
Definition match_check_inbox (s : str) : option nat :=
  let head := lit "[ACTION:check_inbox" in
  if startswith s head then
    let r := drop (length head) s in
    let group :=
      match r with
      | c :: r' =>
          if chr_eqb c ":" && (0 <? digits_len r')%nat
          then S (digits_len r') else O
      | [] => O
      end in
    match close_len (drop group r) with
    | Some k => Some (length head + group + k)%nat
    | None => None
    end
  else None.

(** [r'\[ACTION:send_email\|[^\]]+\]\n?']. *)
Definition match_send_email (s : str) : option nat :=
  let head := lit "[ACTION:send_email|" in
  if startswith s head then
    let r := drop (length head) s in
    let body := not_bracket_len r in
    if (0 <? body)%nat then
      match close_len (drop body r) with
      | Some k => Some (length head + body + k)%nat
      | None => None
      end
    else None
  else None.

(** The three statements under [# Clean response], on a string. *)
Definition cleaned (result : str) : str :=
  strip (re_sub match_send_email (re_sub match_check_inbox result)).

(** [re.sub] refuses a value that is not a string. *)
Definition clean_response (result : json) : res str :=
  match result with
  | JStr s => Ok (cleaned s)
  | _ => Raise TypeError
  end.

Section Relay.
Context `{RT : Runtime} `{EV : Env}.

(** [send_sse_data]: a payload over the ceiling is replaced by its
    summary.  (The clock update that ends the function belongs to the
    keep-alive model further down.) *)
Definition send_sse_data (data_dict : list (str * json)) : M world unit :=
  let event_data := json_dumps (JObj data_dict) in
  if len event_data <=? MAX_SSE_EVENT_SIZE then write (sse event_data)
  else
    let* type := lift (py_get (JObj data_dict) (lit "type") (JStr (lit "status"))) in
    let* message :=
      lift (rbind (py_get (JObj data_dict) (lit "message")
                          (JStr (lit "Processing...")))
                  (fun m => rbind (py_prefix 500 m)
                  (fun m500 => py_add m500 (JStr (lit "..."))))) in
    let summary :=
      [(lit "type", type); (lit "message", message); (lit "truncated", JBool true)] in
    write (sse (json_dumps (JObj summary))).

(** [for block in msg.get("content", [])], with [body] applied to each
    block. *)
Definition for_blocks (event : json) (body : json -> M world unit)
  : M world unit :=
  let* msg := lift (py_get event (lit "message") (JObj [])) in
  let* content := lift (py_get msg (lit "content") (JArr [])) in
  let* blocks := lift (py_iter content) in
  for_each blocks body.

(** The preview of a tool result. *)
Definition brief_of (result_content : json) : str :=
  match result_content with
  | JStr t =>
      if 100 <? len t then replace_chr LF (lit " ") (take 100 t) ++ lit "..."
      else replace_chr LF (lit " ") t
  | _ => lit "Got result"
  end.

(** [send_event] of [handle_message_stream]. *)
Definition send_event (event : json) : M world unit :=
  let* event_type := lift (py_get event (lit "type") (JStr [])) in
  let* is_init :=
    if eq_str event_type (lit "system") then
      let* subtype := lift (py_get event (lit "subtype") JNull) in
      ret (eq_str subtype (lit "init"))
    else ret false in
  if is_init then
    send_sse_data [(lit "type", JStr (lit "status"));
                   (lit "message", JStr (lit "Initializing..."))]
  else if eq_str event_type (lit "assistant") then
    for_blocks event (fun block =>
      let* ty := lift (py_get block (lit "type") JNull) in
      when (eq_str ty (lit "tool_use"))
        (let* tool_name := lift (py_get block (lit "name") (JStr (lit "tool"))) in
         send_sse_data
           [(lit "type", JStr (lit "tool"));
            (lit "name", tool_name);
            (lit "message", JStr (lit "Using " ++ fmt tool_name ++ lit "..."))]))
  else if eq_str event_type (lit "user") then
    for_blocks event (fun block =>
      let* ty := lift (py_get block (lit "type") JNull) in
      when (eq_str ty (lit "tool_result"))
        (let* result_content := lift (py_get block (lit "content") (JStr [])) in
         send_sse_data
           [(lit "type", JStr (lit "tool_result"));
            (lit "message", JStr (take 150 (brief_of result_content)))]))
  else ret tt.

(** [send_event] of [handle_draw_bot_stream]. *)
Definition draw_bot_send_event (event : json) : M world unit :=
  let* event_type := lift (py_get event (lit "type") (JStr [])) in
  let* is_init :=
    if eq_str event_type (lit "system") then
      let* subtype := lift (py_get event (lit "subtype") JNull) in
      ret (eq_str subtype (lit "init"))
    else ret false in
  if is_init then
    send_sse_data [(lit "type", JStr (lit "status"));
                   (lit "message", JStr (lit "Initializing Draw Bot..."))]
  else if eq_str event_type (lit "assistant") then
    for_blocks event (fun block =>
      let* ty := lift (py_get block (lit "type") JNull) in
      when (eq_str ty (lit "tool_use"))
        (let* tool_name := lift (py_get block (lit "name") (JStr (lit "tool"))) in
         send_sse_data
           [(lit "type", JStr (lit "tool"));
            (lit "name", tool_name);
            (lit "message", JStr (fmt tool_name))]))
  else if eq_str event_type (lit "user") then
    for_blocks event (fun block =>
      let* ty := lift (py_get block (lit "type") JNull) in
      when (eq_str ty (lit "tool_result"))
        (send_sse_data
           [(lit "type", JStr (lit "tool_result"));
            (lit "message", JStr (lit "Got result"))]))
  else ret tt.

(** The command line of the assistant. *)
Definition claude_cmd (prompt : str) (skip_permissions : bool) : list str :=
  [lit "claude"; lit "--output-format"; lit "stream-json"; lit "--verbose";
   lit "-p"; prompt] ++
  (if skip_permissions then [lit "--dangerously-skip-permissions"] else []).

(** [asyncio.create_subprocess_exec] on the command line: the process is
    taken to start, and the command line is recorded. *)
Definition spawn (cmd : list str) : M world process :=
  fun w =>
    (Ok (assistant (length (spawned w)) cmd),
     {| files := files w; wire := wire w;
        spawned := spawned w ++ [cmd]; tick := tick w |}).

(** [stderr.decode() if stderr else ""]. *)
Definition decode_stderr (err : bytes) : res str :=
  if nonempty err then utf8_decode err else Ok [].

Definition call_claude_streaming (prompt : str) (skip_permissions : bool)
    (on_event : option (json -> M world unit))
  : M world (json * Z * str) :=
  let* proc := spawn (claude_cmd prompt skip_permissions) in
  let* result_text := stream_events on_event (stdout_chunks proc) in
  let* err := lift (decode_stderr (stderr proc)) in
  ret (result_text, returncode proc, err).

(** [# Send final response (chunked if large)]. *)
Definition send_final (result : str) : M world unit :=
  if MAX_SSE_CHUNK <? len result then
    for_each (py_range 0 (len result) MAX_SSE_CHUNK) (fun i =>
      let chunk := slice (Z.to_nat i) (Z.to_nat (i + MAX_SSE_CHUNK)) result in
      let is_last := len result <=? i + MAX_SSE_CHUNK in
      let chunk_event :=
        [(lit "type",
          JStr (if negb is_last then lit "response_chunk" else lit "response"));
         (lit "content", JStr chunk);
         (lit "partial", JBool (negb is_last))] in
      write (sse (json_dumps (JObj chunk_event))))
  else
    let final := [(lit "type", JStr (lit "response")); (lit "content", JStr result)] in
    write (sse (json_dumps (JObj final))).

(** What the two streaming handlers differ in. *)
Record variant : Type := {
  history_id : str;
  prompt_builder : gmap str str -> str -> str -> res str;
  event_sender : json -> M world unit;
  sends_done : bool
}.

(** What follows the adapter run. *)
Definition complete (v : variant) (user_message : str)
    (result : json) (rc : Z) (err : str) : M world unit :=
  if negb (rc =? 0) || negb (truthy result) then
    let error_msg := if nonempty err then err else lit "No response" in
    write (error_frame (bounded_escaped error_msg))
  else
    let* result := lift (clean_response result) in
    save_message (history_id v) (lit "user") user_message ;;
    save_message (history_id v) (lit "assistant") result ;;
    send_final result ;;
    when (sends_done v) (write done_frame).

(** The [try] block of a streaming handler; [request_json] is the
    outcome of [await request.json()]. *)
Definition stream_body (v : variant) (request_json : res json) : M world unit :=
  let* data := lift request_json in
  let* user_message :=
    lift (rbind (py_get data (lit "message") (JStr [])) py_strip) in
  if negb (nonempty user_message) then write no_message_frame
  else
    let* full_prompt :=
      (fun w => (prompt_builder v (files w) WEB_USER_ID user_message, w)) in
    let* out := call_claude_streaming full_prompt true (Some (event_sender v)) in
    let '(result, rc, err) := out in
    complete v user_message result rc err.

Definition is_disconnect (e : exn) : bool :=
  match e with
  | ConnectionResetError | BrokenPipeError => true
  | _ => false
  end.

(** The [except] clauses of a streaming handler. *)
Definition with_handlers (body : M world unit) : M world unit :=
  try_except
    (try_except body is_disconnect (fun _ => ret tt))
    any_exception
    (fun e =>
       let error_str := exn_str e in
       if contains (lower error_str) (lit "closing transport")
          || contains (lower error_str) (lit "connection reset")
       then ret tt
       else
         try_except (write (error_frame (bounded_escaped error_str)))
           any_exception (fun _ => ret tt)).

Definition chat : variant := {|
  history_id := WEB_USER_ID;
  prompt_builder := build_prompt;
  event_sender := send_event;
  sends_done := true
|}.

Definition draw_bot : variant := {|
  history_id := WEB_USER_ID ++ lit "_draw_bot";
  prompt_builder := build_draw_bot_prompt;
  event_sender := draw_bot_send_event;
  sends_done := false
|}.

(** The handlers: the world after the request has been served. *)
Definition handle_message_stream (request_json : res json) (w : world) : world :=
  snd (with_handlers (stream_body chat request_json) w).

Definition handle_draw_bot_stream (request_json : res json) (w : world) : world :=
  snd (with_handlers (stream_body draw_bot request_json) w).
End Relay.

(** ** A reference deployment

    A concrete environment on which the model runs: fixed directories, a
    clock that numbers its readings, paths that are already resolved, and
    an assistant whose processes are given. *)

Definition ref_clock (n : nat) : str :=
  lit "2025-01-01T00:00:0" ++ dec (Z.of_nat n).

Definition ref_env (procs : nat -> process) : Env := {|
  HISTORY_DIR := lit "/srv/thinx/thinxai-web/history";
  DOWNLOADS_DIR := lit "/srv/thinx/thinxai-web/downloads";
  MEMORY_PATH := lit "/srv/thinx/MEMORY.md";
  SCRIPT_DIR := lit "/srv/thinx/thinxai-web";
  REPO_ROOT := lit "/srv/thinx";
  clock := ref_clock;
  assistant := fun n _ => procs n;
  resolve := fun p => p
|}.

Definition to_bytes (s : str) : bytes := map byte_of_ascii s.

Definition no_process : process :=
  {| stdout_chunks := []; returncode := 0; stderr := [] |}.

Definition empty_world : world :=
  {| files := ∅; wire := []; spawned := []; tick := 0 |}.


(** ** Image serving *)

Inductive response : Type :=
| Response (status : Z) (text : str)
| FileResponse (path : str).

Definition path_exists (fs : gmap str str) (path : str) : bool :=
  match fs !! path with
  | Some _ => true
  | None => false
  end.

Section Image.
Context `{EV : Env}.

(** [handle_image]; [query_path] is the [path] parameter of the query,
    if it has one. *)
Definition handle_image (fs : gmap str str) (query_path : option str) : response :=
  let path := default [] query_path in
  if negb (nonempty path) then Response 400 (lit "No path specified")
  else
    let path := resolve path in
    let allowed_roots := [resolve DOWNLOADS_DIR; resolve REPO_ROOT] in
    let allowed := existsb (fun root => startswith path root) allowed_roots in
    if negb allowed || negb (path_exists fs path)
    then Response 404 (lit "File not found or not allowed")
    else FileResponse path.
End Image.

(** The parts of [s] between occurrences of [sep]. *)
Fixpoint split_on (sep : ascii) (s : str) : list str :=
  match s with
  | [] => [[]]
  | c :: s' =>
      if chr_eqb c sep then [] :: split_on sep s'
      else match split_on sep s' with
           | [] => [[c]]
           | x :: xs => (c :: x) :: xs
           end
  end.

(** The components of a resolved path. *)
Definition path_parts (path : str) : list str :=
  List.filter nonempty (split_on "/" path).

Fixpoint parts_prefix (a b : list str) : bool :=
  match a, b with
  | [], _ => true
  | x :: a', y :: b' => str_eqb x y && parts_prefix a' b'
  | _ :: _, [] => false
  end.

(** [path] is [root] or lies under it. *)
Definition is_relative_to (path root : str) : bool :=
  parts_prefix (path_parts root) (path_parts path).

(** ** Keep-alive ticker

    Time is rational.  The ticker is taken to wake exactly every 5 units
    from the start of the stream, and a write to take no time.  The run
    is followed while [keep_alive_active[0]] holds, that is until the
    handler is done. *)

Record session : Type := {
  (** [last_event_time[0]]. *)
  last_event_time : Q;
  (** The times of the writes on the response, the latest first. *)
  writes : list Q
}.

(** The session of a handler that starts at [start]. *)
Definition new_session (start : Q) : session :=
  {| last_event_time := start; writes := [] |}.

(** [send_sse_data] at time [now]: a frame is written and the clock of
    the last write is set. *)
Definition send_frame (now : Q) (s : session) : session :=
  {| last_event_time := now; writes := now :: writes s |}.

(** The body of the loop of [keep_alive_task] after its sleep, at time
    [now]. *)
Definition keep_alive_wake (now : Q) (s : session) : session :=
  let elapsed := (now - last_event_time s)%Q in
  if Qle_bool 4 elapsed
  then {| last_event_time := now; writes := now :: writes s |}
  else s.

(** The ticker next to the main task: [periods] lists, for each sleep of
    the ticker, the times at which the main task sends a frame during it;
    the ticker wakes at [wake], then every 5 units. *)
Fixpoint keep_alive_run (wake : Q) (periods : list (list Q)) (s : session)
  : session :=
  match periods with
  | [] => s
  | frames :: rest =>
      let s1 := fold_left (fun s t => send_frame t s) frames s in
      keep_alive_run (wake + 5)%Q rest (keep_alive_wake wake s1)
  end.

(** ** File upload and history endpoint *)

(** A response with a JSON body. *)
Record reply : Type := {
  reply_status : Z;
  reply_body : json
}.

(** [web.json_response(body, status=status)]. *)
Definition json_response (body : json) (status : Z) : reply :=
  {| reply_status := status; reply_body := body |}.

(** The first part of a multipart request. *)
Record upload_field : Type := {
  (** [field.name]. *)
  field_name : option str;
  (** [field.filename]. *)
  field_filename : option str;
  (** The successive outcomes of [await field.read_chunk()]; after the
      last one the field is at its end and the read returns [b'']. *)
  field_chunks : list (res bytes)
}.

(** [\w] on an ASCII character. *)
Definition is_word (c : ascii) : bool :=
  let n := nat_of_ascii c in
  ((48 <=? n) && (n <=? 57) || (65 <=? n) && (n <=? 90) ||
   (97 <=? n) && (n <=? 122) || (n =? 95))%nat.

(** [s.encode('ascii', 'ignore').decode()]. *)
Definition ascii_ignore (s : str) : str :=
  List.filter (fun c => (nat_of_ascii c <? 128)%nat) s.

(** What [re.sub(r'[^\w\s\-\.]', '', s)] keeps of an ASCII text. *)
Definition kept (c : ascii) : bool :=
  is_word c || is_space c || chr_eqb c "-" || chr_eqb c ".".

(** [# Sanitize filename]. *)
Definition safe_filename (filename : str) : str :=
  let safe := strip (List.filter kept (ascii_ignore filename)) in
  if nonempty safe then safe else lit "upload".

Definition MAX_UPLOAD_SIZE : Z := 20 * 1024 * 1024.

(** How the loop that receives the file ends. *)
Inductive received : Type :=
| Stored (size : Z)
| TooLarge
| Broken (e : exn).

Section Upload.
Context `{RT : Runtime} `{EV : Env}.

(** The loop of [handle_upload] on the open file [file_path]; the files
    written in binary mode are held in [blobs]. *)
Fixpoint receive (file_path : str) (chunks : list (res bytes)) (size : Z)
    (blobs : gmap str bytes) : received * gmap str bytes :=
  match chunks with
  | [] => (Stored size, blobs)
  | Raise e :: _ => (Broken e, blobs)
  | Ok chunk :: rest =>
      if negb (nonempty chunk) then (Stored size, blobs)
      else
        let size := size + len chunk in
        if MAX_UPLOAD_SIZE <? size then (TooLarge, delete file_path blobs)
        else
          receive file_path rest size
            (<[file_path := default [] (blobs !! file_path) ++ chunk]> blobs)
  end.

(** [handle_upload]; [timestamp] is
    [datetime.now().strftime('%Y%m%d_%H%M%S')], and [request] the outcome
    of [await request.multipart()] followed by [await reader.next()]. *)
Definition handle_upload (timestamp : str) (request : res (option upload_field))
    (blobs : gmap str bytes) : reply * gmap str bytes :=
  let no_file :=
    (json_response (JObj [(lit "error", JStr (lit "No file provided"))]) 400,
     blobs) in
  let failed e :=
    json_response (JObj [(lit "error", JStr (exn_str e))]) 500 in
  match request with
  | Raise e => (failed e, blobs)
  | Ok None => no_file
  | Ok (Some field) =>
      if negb (match field_name field with
               | Some name => str_eqb name (lit "file")
               | None => false
               end)
      then no_file
      else
        match field_filename field with
        | None => (failed AttributeError, blobs)
        | Some filename =>
            let final_filename := timestamp ++ lit "_" ++ safe_filename filename in
            let file_path := path_join DOWNLOADS_DIR final_filename in
            match receive file_path (field_chunks field) 0
                    (<[file_path := []]> blobs) with
            | (Stored size, blobs') =>
                (json_response
                   (JObj [(lit "success", JBool true);
                          (lit "filename", JStr final_filename);
                          (lit "path", JStr file_path);
                          (lit "size", JInt size)]) 200,
                 blobs')
            | (TooLarge, blobs') =>
                (json_response
                   (JObj [(lit "error", JStr (lit "File too large (max 20MB)"))]) 413,
                 blobs')
            | (Broken e, blobs') => (failed e, blobs')
            end
        end
  end.

(** [handle_history]. *)
Definition handle_history (fs : gmap str str) : reply :=
  json_response (JArr (load_history fs WEB_USER_ID 100)) 200.

End Upload.

(** * Vocabulary of the properties

    What the statements below are written with, and the concrete inputs
    on which the model is run. *)

(** ** History store *)

Section HistoryTerms.
Context `{RT : Runtime} `{EV : Env}.

(** The text [save_message] appends for an entry. *)
Definition log_line (entry : json) : str := json_dumps entry ++ [LF].

Definition log_text (entries : list json) : str := concat (map log_line entries).

(** What the codec has to do for an entry to be read back: the line
    written holds no newline of its own, is not blank, and decodes to the
    entry. *)
Definition reads_back (entry : json) : Prop :=
  (LF ∉ json_dumps entry) /\
  nonempty (strip (log_line entry)) = true /\
  json_loads (log_line entry) = Ok entry.

(** A sequence of [save_message] calls on one identity. *)
Definition save_all (user_id : str) (turns : list (str * str)) : M world unit :=
  for_each turns (fun turn => save_message user_id (fst turn) (snd turn)).

(** The entries those calls build, the clock having been read [t] times
    before. *)
Fixpoint entries_of (t : nat) (turns : list (str * str)) : list json :=
  match turns with
  | [] => []
  | turn :: rest =>
      history_entry (fst turn) (snd turn) (clock t) :: entries_of (S t) rest
  end.

(** The text of an identity's log; an absent log reads like an empty
    one. *)
Definition log_of (fs : gmap str str) (user_id : str) : str :=
  default [] (fs !! get_history_path user_id).

End HistoryTerms.

Definition ref_deployment : Env := ref_env (fun _ => no_process).

Definition sample_user_entry : json :=
  history_entry (lit "user") (lit "hello") (ref_clock 0).

Definition sample_assistant_entry : json :=
  history_entry (lit "assistant") (lit "hi there") (ref_clock 1).

Definition corrupt_line : str := lit "{oops" ++ [LF].

(** Two valid lines with a malformed one between them. *)
Definition corrupt_log : str :=
  ref_dumps sample_user_entry ++ [LF] ++ corrupt_line ++
  ref_dumps sample_assistant_entry ++ [LF].

Definition corrupt_store : gmap str str :=
  {[ get_history_path (EV := ref_deployment) WEB_USER_ID := corrupt_log ]}.

Definition two_turns : list (str * str) :=
  [(lit "user", lit "hello"); (lit "assistant", lit "hi there")].

(** ** Assistant process adapter *)

(** The stream cut after each newline: one complete line per chunk, and
    what follows the last newline, if anything, as a last chunk. *)
Fixpoint line_chunks (stream : bytes) : list bytes :=
  match stream with
  | [] => []
  | c :: s' =>
      if Byte.eqb c x0a then [c] :: line_chunks s'
      else match line_chunks s' with
           | [] => [[c]]
           | l :: ls => (c :: l) :: ls
           end
  end.

(** The callback that records the events it is given, and the sequence of
    events the adapter decodes from a run. *)
Definition record_event (event : json) : M (list json) unit :=
  fun seen => (Ok tt, seen ++ [event]).

Definition decoded_events `{RT : Runtime} (chunks : list bytes) : list json :=
  snd (stream_events (Some record_event) chunks []).

Definition delta_event (text : str) : json :=
  JObj [(lit "type", JStr (lit "content_block_delta"));
        (lit "delta", JObj [(lit "type", JStr (lit "text_delta"));
                            (lit "text", JStr text)])].

Definition result_event (result : str) : json :=
  JObj [(lit "type", JStr (lit "result")); (lit "result", JStr result)].

(** The line of output that carries an event, without its newline. *)
Definition event_line (event : json) : bytes := to_bytes (ref_dumps event).

(** A delta and a result, cut in the middle of both lines. *)
Definition sample_stream : bytes :=
  event_line (delta_event (lit "Hello")) ++ [x0a] ++
  event_line (result_event (lit "R")) ++ [x0a].

Definition sample_chunks : list bytes :=
  [take 20 sample_stream; take 70 (drop 20 sample_stream); drop 90 sample_stream].

(** A delta, a result and a second delta; in the output the first two
    lines end with a newline and the third does not. *)
Definition residual_delta_events : list json :=
  [delta_event (lit "a"); result_event (lit "R"); delta_event (lit "b")].

Definition residual_delta_output : bytes :=
  event_line (delta_event (lit "a")) ++ [x0a] ++
  event_line (result_event (lit "R")) ++ [x0a] ++
  event_line (delta_event (lit "b")).

(** *** Events *)

(** What an event is for text extraction. *)
Inductive kind : Type :=
| Delta (text : str)
| Result (result : str)
| Other.

Definition field (d : list (str * json)) (k : str) (default : json) : json :=
  match assoc k d with
  | Some v => v
  | None => default
  end.

(** The kind of a well-typed event; [None] for a value that is not a
    dictionary or whose delta, text or result has another type than the
    protocol gives it. *)
Definition kind_of (event : json) : option kind :=
  match event with
  | JObj d =>
      let ty := field d (lit "type") JNull in
      if eq_str ty (lit "content_block_delta") then
        match field d (lit "delta") (JObj []) with
        | JObj dd =>
            if eq_str (field dd (lit "type") JNull) (lit "text_delta") then
              match field dd (lit "text") (JStr []) with
              | JStr t => Some (Delta t)
              | _ => None
              end
            else Some Other
        | _ => None
        end
      else if eq_str ty (lit "result") then
        match field d (lit "result") (JStr []) with
        | JStr r => Some (Result r)
        | _ => None
        end
      else Some Other
  | _ => None
  end.

(** The texts of the deltas, in order. *)
Definition deltas (ks : list kind) : str :=
  concat (map (fun k => match k with Delta t => t | _ => [] end) ks).

(** The accumulated text after an event of kind [k]. *)
Definition advance (k : kind) (x : str) : str :=
  match k with
  | Delta t => x ++ t
  | Result r => if nonempty r && negb (nonempty x) then r else x
  | Other => x
  end.

(** A line of output that is decoded to [event]. *)
Definition carries `{RT : Runtime} (line : bytes) (event : json) : Prop :=
  (x0a ∉ line) /\
  nonempty (bstrip line) = true /\
  exists text, utf8_decode line = Ok text /\ json_loads (strip text) = Ok event.

(** The callback returns normally on [event]. *)
Definition accepts {St} (on_event : option (json -> M St unit)) (event : json)
  : Prop :=
  match on_event with
  | Some f => forall s, fst (f event s) = Ok tt
  | None => True
  end.

(** The state of the callback once it has been given [event]. *)
Definition pushed {St} (on_event : option (json -> M St unit)) (event : json)
    (s : St) : St :=
  match on_event with
  | Some f => snd (f event s)
  | None => s
  end.

(** The complete lines of a stream. *)
Definition terminated_lines (lines : list bytes) : bytes :=
  concat (map (fun l => l ++ [x0a]) lines).

(** The stream made of [lines], each closed by a newline but, when
    [terminated] is false, the last one. *)
Fixpoint stream_of (lines : list bytes) (terminated : bool) : bytes :=
  match lines with
  | [] => []
  | [l] => l ++ (if terminated then [x0a] else [])
  | l :: ls => l ++ [x0a] ++ stream_of ls terminated
  end.

(** The accumulated text after events of the kinds [ks], from the text
    [x]. *)
Definition advance_all (ks : list kind) (x : str) : str :=
  fold_left (fun x k => advance k x) ks x.

(** ** Invariants *)

(** [m] keeps [P]: it holds of the state [m] ends in when it holds of the
    state [m] starts from, whether [m] returns or raises. *)
Definition preserves {S A} (P : S -> Prop) (m : M S A) : Prop :=
  forall s, P s -> P (snd (m s)).

(** An invariant of the callback's state, seen from inside the adapter. *)
Definition on_cb {St} (P : St -> Prop) (a : adapter St) : Prop := P (cb a).

(** ** SSE relay *)

Section RelayTerms.
Context `{RT : Runtime} `{EV : Env}.


End RelayTerms.

(** The name of a tool, 9000 characters long, the event that announces
    its use, and the payload [send_event] builds for it. *)
Definition long_name : str := repeat "a"%char (90 * 100).

Definition long_tool_event : json :=
  JObj [(lit "type", JStr (lit "assistant"));
        (lit "message",
         JObj [(lit "content",
                JArr [JObj [(lit "type", JStr (lit "tool_use"));
                            (lit "name", JStr long_name)]])])].



Section FinalAnswerTerms.
Context `{RT : Runtime} `{EV : Env}.

(** The single frame of an answer within the limit: it has no [partial]
    field. *)
Definition response_frame (content : str) : str :=
  sse (json_dumps (JObj [(lit "type", JStr (lit "response"));
                         (lit "content", JStr content)])).

(** A slice that is not the last one. *)
Definition chunk_frame (content : str) : str :=
  sse (json_dumps (JObj [(lit "type", JStr (lit "response_chunk"));
                         (lit "content", JStr content);
                         (lit "partial", JBool true)])).

(** The last slice. *)
Definition last_chunk_frame (content : str) : str :=
  sse (json_dumps (JObj [(lit "type", JStr (lit "response"));
                         (lit "content", JStr content);
                         (lit "partial", JBool false)])).


End FinalAnswerTerms.

(** An answer one character over the limit. *)
Definition over_limit_answer : str := "a"%char :: repeat "a"%char (128 * 128).



Definition ref_chat : variant := chat (RT := ref_runtime) (EV := ref_deployment).

(** What [bounded_escaped] makes of one character. *)
Definition escaped_chr (c : ascii) : str :=
  if chr_eqb c DQUOTE then [BACKSLASH; DQUOTE]
  else if chr_eqb c LF then lit "\n"
  else [c].

(** No double quote of [s] comes without a backslash before it; [prev]
    tells whether the character before [s] is a backslash. *)
Fixpoint quotes_escaped (prev : bool) (s : str) : bool :=
  match s with
  | [] => true
  | c :: s' =>
      (negb (chr_eqb c DQUOTE) || prev) && quotes_escaped (chr_eqb c BACKSLASH) s'
  end.

Section HandlerTerms.
Context `{RT : Runtime} `{EV : Env}.

(** The callbacks of the handlers write frames and do nothing else. *)
Definition same_files (F : gmap str str) (w : world) : Prop := files w = F.

End HandlerTerms.

(** The assistant exits with code 1 and "boom" on its standard error. *)
Definition boom : process :=
  {| stdout_chunks := []; returncode := 1; stderr := to_bytes (lit "boom") |}.

Definition failing_deployment : Env := ref_env (fun _ => boom).

Definition hello_request : list (str * json) := [(lit "message", JStr (lit "hello"))].

Definition hello_prompt : str :=
  chat_system_instructions ++ [LF; LF] ++ lit "User message: hello".

(** The assistant answers "hi there" in its result event and exits with
    code 0. *)
Definition greeter : process :=
  {| stdout_chunks := [event_line (result_event (lit "hi there")) ++ [x0a]];
     returncode := 0; stderr := [] |}.

Definition greeting_deployment : Env := ref_env (fun _ => greeter).


(** A file in a directory next to the repository root, whose name begins
    with the name of the root. *)
Definition stray_path : str := lit "/srv/thinx-private/id.png".

Definition stray_files : gmap str str := {[ stray_path := lit "secret" ]}.

(** ** Keep-alive ticker *)

Section KeepAliveTerms.
Local Open Scope Q_scope.

(** The frames of one sleep of the ticker that ends at [wake]: sent
    during it. *)
Definition during (wake : Q) (frames : list Q) : Prop :=
  Forall (fun t => wake - 5 <= t /\ t <= wake) frames.

Fixpoint well_timed (wake : Q) (periods : list (list Q)) : Prop :=
  match periods with
  | [] => True
  | frames :: rest => during wake frames /\ well_timed (wake + 5) rest
  end.

(** Every write comes less than [bound] after the write before it, the
    first one less than [bound] after [start]. *)
Fixpoint gaps_below (bound start : Q) (ws : list Q) : Prop :=
  match ws with
  | [] => True
  | t :: older => t - hd start older < bound /\ gaps_below bound start older
  end.

(** What holds when the ticker has just run at [now]. *)
Definition ticked (start now : Q) (s : session) : Prop :=
  last_event_time s = hd start (writes s) /\
  gaps_below 9 start (writes s) /\
  now - 4 < last_event_time s /\ last_event_time s <= now.

(** A frame is sent 2 units after the start, and nothing after it: the
    ticker finds it 3 units old at its first wake and stays silent, and
    pings at its second wake, 8 units after the frame. *)
Definition one_early_frame : list (list Q) := [[2]; []].

End KeepAliveTerms.

(** ** Reference codec *)

(** No newline in [s]. *)
Definition no_lf (s : str) : bool := forallb (fun c => negb (chr_eqb c LF)) s.

(** ** History store, further *)

(** A log to which a line can be appended: empty, or closed by a
    newline. *)
Definition closed_log (text : str) : Prop :=
  text = [] \/ exists t, text = t ++ [LF].

(** A line that [load_history] decodes. *)
Definition nonblank (line : str) : bool := nonempty (strip line).

(** ** Assistant process adapter, further *)

Definition is_object (v : json) : bool :=
  match v with JObj _ => true | _ => false end.

(** A line the adapter passes over: blank, or not a JSON document. *)
Definition skipped `{RT : Runtime} (line : bytes) : Prop :=
  (x0a ∉ line) /\
  (nonempty (bstrip line) = false \/
   exists text, utf8_decode line = Ok text /\
                json_loads (strip text) = Raise JSONDecodeError).

(** A line on which the adapter gives up: it cannot be decoded as text,
    or it holds a JSON document that is not an object. *)
Definition fatal `{RT : Runtime} (line : bytes) : Prop :=
  (x0a ∉ line) /\
  nonempty (bstrip line) = true /\
  ((exists e, utf8_decode line = Raise e /\ is_json_decode_error e = false) \/
   (exists text v, utf8_decode line = Ok text /\
                   json_loads (strip text) = Ok v /\ is_object v = false)).

(** The callback state after the events [events]. *)
Definition pushed_all {St} (on_event : option (json -> M St unit))
    (events : list json) (s : St) : St :=
  fold_left (fun s e => pushed on_event e s) events s.

(** ** What the handlers leave unchanged *)

(** [w] is [w0] with more frames on the wire, and nothing else changed. *)
Definition extends_wire (w0 w : world) : Prop :=
  exists frames, w = set_wire (fun l => l ++ frames) w0.

(** A computation that does nothing but write frames. *)
Definition writes_only {A} (m : M world A) : Prop :=
  forall w0, preserves (extends_wire w0) m.

(** The files other than [path] are those of [F]. *)
Definition files_but (F : gmap str str) (path : str) (w : world) : Prop :=
  forall p, p <> path -> files w !! p = F !! p.


(** ** Outcomes of a request *)

(** An entry of the history that [render_turn] can print: an object with
    a role and a content. *)
Definition has_turn_fields (msg : json) : bool :=
  match msg with
  | JObj d =>
      match assoc (lit "role") d, assoc (lit "content") d with
      | Some _, Some _ => true
      | _, _ => false
      end
  | _ => false
  end.



(** ** Prompt assembler *)

Section PromptTerms.
Context `{EV : Env}.

(** The part of the prompt that shows the memory file. *)
Definition memory_block (fs : gmap str str) : list str :=
  match fs !! MEMORY_PATH with
  | Some memory_content =>
      [lit "<memory>" ++ [LF] ++ memory_content ++ [LF] ++ lit "</memory>"]
  | None => []
  end.

(** The part that shows the profile of the Draw Bot. *)
Definition profile_block (fs : gmap str str) : list str :=
  match fs !! DRAW_BOT_PROFILE with
  | Some profile_content =>
      [lit "<draw_bot_profile>" ++ [LF] ++ profile_content ++ [LF] ++
       lit "</draw_bot_profile>"]
  | None => []
  end.

End PromptTerms.

(** The part that shows the turns [turns], given as role and content. *)
Definition transcript (turns : list (str * str)) : str :=
  lit "<conversation_history>" ++ [LF] ++
  join [LF] (map (fun turn => fst turn ++ lit ": " ++ snd turn) turns) ++ [LF] ++
  lit "</conversation_history>".

(** The last [n] elements. *)
Definition last_n {A} (n : nat) (l : list A) : list A := drop (length l - n) l.

(** ** Cleaning of the answer *)

(** The two tags the answer is cleaned of: [count] is the optional
    number of messages, [args] what follows the bar. *)
Definition check_inbox_tag (count : option str) : str :=
  lit "[ACTION:check_inbox" ++
  match count with Some digits => lit ":" ++ digits | None => [] end ++
  lit "]".

Definition send_email_tag (args : str) : str :=
  lit "[ACTION:send_email|" ++ args ++ lit "]".

(** [post] without the newline it begins with, if it does. *)
Definition past_newline (post : str) : str :=
  match post with
  | c :: r => if chr_eqb c LF then r else post
  | [] => []
  end.

Definition OPEN : ascii := "["%char.

(** ** Image serving, further *)

(** A path as [Path.resolve] returns it: absolute, its components
    separated by single slashes, without a slash at its end. *)
Definition resolved (path : str) : Prop :=
  path = lit "/" ++ join (lit "/") (path_parts path).

(** ** File upload *)

(** The part named "file" of an upload whose reads all succeed. *)
Definition file_part (filename : str) (chunks : list bytes) : upload_field :=
  {| field_name := Some (lit "file");
     field_filename := Some filename;
     field_chunks := map Ok chunks |}.

Definition SLASH : ascii := "/"%char.

(** ** Status frames *)

(** Every frame on the wire is at most [n] characters long. *)
Definition frames_within (n : Z) (w : world) : Prop :=
  Forall (fun frame => len frame <= n) (wire w).

(** The longest status frame: the ceiling on the payload, and the eight
    characters of the frame around it. *)
Definition MAX_STATUS_FRAME : Z := MAX_SSE_EVENT_SIZE + 8.

(** ** Keep-alive ticker on a busy stream *)

Section BusyStream.
Local Open Scope Q_scope.

(** In each sleep of the ticker that ends at [wake] a frame is sent less
    than 4 units before the wake. *)
Fixpoint busy (wake : Q) (periods : list (list Q)) : Prop :=
  match periods with
  | [] => True
  | frames :: rest =>
      (exists t, last frames = Some t /\ wake - 4 < t) /\ busy (wake + 5) rest
  end.

Definition steady_frames : list (list Q) := [[2; 4]; [7; 9]].

End BusyStream.

(** *** Sample inputs *)

(** The world after the first of the two turns has been saved. *)
Definition one_turn_world : world :=
  snd (save_message (RT := ref_runtime) (EV := ref_deployment)
         WEB_USER_ID (lit "user") (lit "hello") empty_world).

(** A log of one entry, and the same log with blank lines before it. *)
Definition plain_store : gmap str str :=
  {[ get_history_path (EV := ref_deployment) WEB_USER_ID :=
       ref_dumps sample_user_entry ++ [LF] ]}.

Definition padded_store : gmap str str :=
  {[ get_history_path (EV := ref_deployment) WEB_USER_ID :=
       [LF] ++ lit "  " ++ [LF] ++ ref_dumps sample_user_entry ++ [LF] ]}.


(** A line that is no JSON document, and one that holds a number. *)
Definition junk_line : bytes := to_bytes (lit "not json").
Definition number_line : bytes := to_bytes (lit "42").

(** The sample stream with a line between its two events. *)
Definition stream_with (line : bytes) : bytes :=
  event_line (delta_event (lit "Hello")) ++ [x0a] ++ line ++ [x0a] ++
  event_line (result_event (lit "R")) ++ [x0a].

(** A callback that finds the connection closed. *)
Definition refuse (event : json) : M (list json) unit :=
  fun seen => (Raise BrokenPipeError, seen).

Definition image_path : str := lit "/srv/thinx/thinxai-web/downloads/a.png".
Definition image_files : gmap str str := {[ image_path := lit "png" ]}.

Definition upload_stamp : str := lit "20250101_000000".
Definition upload_name : str := lit "../etc/pass wd.txt".

(** * Properties *)

(** ** Text utilities *)

Lemma str_eqb_eq (a b : str) : str_eqb a b = true <-> a = b.
Proof.
  revert b; induction a as [|x a IH]; intros [|y b]; simpl; try easy.
  rewrite andb_true_iff, IH. unfold chr_eqb. rewrite Ascii.eqb_eq.
  split; [intros [-> ->]; reflexivity | intros [= -> ->]; auto].
Qed.

Lemma str_eqb_refl (a : str) : str_eqb a a = true.
Proof. apply str_eqb_eq; reflexivity. Qed.

Lemma chr_eqb_neq (a b : ascii) : a <> b -> chr_eqb a b = false.
Proof. intros H. unfold chr_eqb. apply Ascii.eqb_neq. exact H. Qed.

Lemma chr_eqb_refl (a : ascii) : chr_eqb a a = true.
Proof. unfold chr_eqb. apply Ascii.eqb_refl. Qed.

(** A text without newline, closed by one, is the first line read. *)
Lemma readlines_line (l rest : str) :
  LF ∉ l -> readlines (l ++ LF :: rest) = (l ++ [LF]) :: readlines rest.
Proof.
  induction l as [|c l IH]; intros Hl.
  - reflexivity.
  - apply not_elem_of_cons in Hl as [Hc Hl].
    cbn [readlines app]. rewrite chr_eqb_neq by congruence.
    rewrite IH by exact Hl. reflexivity.
Qed.

Lemma slice_from_neg_last {A} (k : Z) (l : list A) :
  0 < k -> slice_from (- k) l = drop (length l - Z.to_nat (Z.min k (len l))) l.
Proof.
  intros Hk. unfold slice_from, len.
  destruct (Z.ltb_spec (- k) 0) as [_|H]; [|lia].
  f_equal. lia.
Qed.

Lemma slice_from_zero {A} (l : list A) : slice_from (- 0) l = l.
Proof.
  unfold slice_from. change (- 0 <? 0) with false. cbv iota.
  rewrite Z.min_l by lia. reflexivity.
Qed.

(** ** History store *)

Section HistoryFacts.
Context `{RT : Runtime} `{EV : Env}.

(** Once a line that is not blank fails to decode, the loop is left with
    that exception, whatever precedes and follows. *)
Lemma read_messages_raises (pre post : list str) (bad : str) (acc : list json) :
  nonempty (strip bad) = true ->
  (exists e, json_loads bad = Raise e) ->
  exists e, read_messages (pre ++ bad :: post) acc = Raise e.
Proof.
  intros Hnb [e He]. revert acc.
  induction pre as [|l pre IH]; intros acc; simpl.
  - rewrite Hnb, He. simpl. eauto.
  - destruct (nonempty (strip l)); [|apply IH].
    destruct (json_loads l) as [v|e']; simpl; [apply IH | eauto].
Qed.

Lemma readlines_log_text (entries : list json) :
  Forall reads_back entries ->
  readlines (log_text entries) = map log_line entries.
Proof.
  induction 1 as [|e es [Hnl _] _ IH]; [reflexivity|].
  unfold log_text, log_line in *. simpl. rewrite <- app_assoc. simpl.
  rewrite readlines_line by exact Hnl. rewrite IH. reflexivity.
Qed.

Lemma read_messages_log (entries acc : list json) :
  Forall reads_back entries ->
  read_messages (map log_line entries) acc = Ok (acc ++ entries).
Proof.
  intros H. revert acc.
  induction H as [|e es (_ & Hnb & Hrt) _ IH]; intros acc; simpl.
  - rewrite app_nil_r. reflexivity.
  - rewrite Hnb, Hrt. simpl. rewrite IH, <- app_assoc. reflexivity.
Qed.

Lemma length_entries_of (t : nat) (turns : list (str * str)) :
  length (entries_of t turns) = length turns.
Proof. revert t; induction turns; intros t; simpl; auto. Qed.

Lemma load_history_log_of (fs : gmap str str) (user_id : str) (limit : Z) :
  load_history fs user_id limit =
  match read_messages (readlines (log_of fs user_id)) [] with
  | Ok messages => slice_from (- limit) messages
  | Raise _ => []
  end.
Proof.
  unfold load_history, log_of.
  destruct (fs !! get_history_path user_id) as [content|]; simpl.
  - destruct (read_messages (readlines content) []); reflexivity.
  - unfold slice_from. rewrite drop_nil. reflexivity.
Qed.

Lemma save_all_log (user_id : str) (turns : list (str * str)) (w : world) :
  log_of (files (snd (save_all user_id turns w))) user_id =
  log_of (files w) user_id ++ log_text (entries_of (tick w) turns).
Proof.
  revert w. induction turns as [|turn turns IH]; intros w.
  - simpl. unfold log_text. simpl. rewrite app_nil_r. reflexivity.
  - unfold save_all in *. cbn [for_each]. unfold bind at 1.
    unfold save_message at 1. cbn [fst snd].
    rewrite IH. cbn [files tick entries_of].
    unfold log_of at 1, append_file. rewrite lookup_insert_eq. cbn [default].
    unfold log_text, log_of. cbn [map concat]. unfold log_line at 2, id.
    rewrite <- !app_assoc. reflexivity.
Qed.

(** The appended entries are read back, the most recent [limit] of them,
    in the order of the calls, when the limit is positive. *)
Lemma load_history_after_saves (user_id : str) (turns : list (str * str))
    (w : world) (limit : Z) :
  files w !! get_history_path user_id = None ->
  Forall reads_back (entries_of (tick w) turns) ->
  0 < limit ->
  load_history (files (snd (save_all user_id turns w))) user_id limit =
  drop (length turns - Z.to_nat (Z.min limit (len turns)))
       (entries_of (tick w) turns).
Proof.
  intros Hnew Hrb Hpos.
  rewrite load_history_log_of, save_all_log.
  unfold log_of at 1. rewrite Hnew. cbn [default app].
  rewrite readlines_log_text by exact Hrb.
  rewrite read_messages_log by exact Hrb. cbn [app].
  rewrite slice_from_neg_last by exact Hpos.
  unfold len. rewrite length_entries_of. reflexivity.
Qed.

(** With the limit 0 every entry comes back. *)
Lemma load_history_limit_zero (user_id : str) (turns : list (str * str))
    (w : world) :
  files w !! get_history_path user_id = None ->
  Forall reads_back (entries_of (tick w) turns) ->
  load_history (files (snd (save_all user_id turns w))) user_id 0 =
  entries_of (tick w) turns.
Proof.
  intros Hnew Hrb.
  rewrite load_history_log_of, save_all_log.
  unfold log_of at 1. rewrite Hnew. cbn [default app].
  rewrite readlines_log_text by exact Hrb.
  rewrite read_messages_log by exact Hrb. cbn [app].
  apply slice_from_zero.
Qed.

End HistoryFacts.

(** *** A log with a corrupt line *)

(** C1 (as amended).  When a line of the log that is not blank fails to
    decode, [load_history] returns the empty list, wherever the line sits,
    whatever the other lines hold and whatever the limit: the exception
    leaves the loop and is caught around the whole read, so nothing is
    raised and no entry of the read is kept. *)
Theorem load_history_malformed_line `{RT : Runtime} `{EV : Env}
    (fs : gmap str str) (user_id : str) (limit : Z)
    (content : str) (pre post : list str) (bad : str) :
  fs !! get_history_path user_id = Some content ->
  readlines content = pre ++ bad :: post ->
  nonempty (strip bad) = true ->
  (exists e, json_loads bad = Raise e) ->
  load_history fs user_id limit = [].
Proof.
  intros Hfile Hlines Hnb Hbad. unfold load_history. rewrite Hfile, Hlines.
  destruct (read_messages_raises pre post bad [] Hnb Hbad) as [e ->].
  reflexivity.
Qed.

Lemma load_history_malformed_line_witness :
  load_history (RT := ref_runtime) (EV := ref_deployment)
    corrupt_store WEB_USER_ID 50 = [].
Proof.
  apply (load_history_malformed_line (RT := ref_runtime) (EV := ref_deployment)
           corrupt_store WEB_USER_ID 50 corrupt_log
           [ref_dumps sample_user_entry ++ [LF]]
           [ref_dumps sample_assistant_entry ++ [LF]]
           corrupt_line).
  - vm_compute. reflexivity.
  - vm_compute. reflexivity.
  - vm_compute. reflexivity.
  - exists JSONDecodeError. vm_compute. reflexivity.
Defined.

(** The log above holds K = 2 lines that decode and one that does not, and
    the read yields no entry at all. *)
Lemma load_history_skips_nothing_counterexample :
  readlines corrupt_log =
    [ref_dumps sample_user_entry ++ [LF]; corrupt_line;
     ref_dumps sample_assistant_entry ++ [LF]] /\
  ref_loads (ref_dumps sample_user_entry ++ [LF]) = Ok sample_user_entry /\
  ref_loads corrupt_line = Raise JSONDecodeError /\
  ref_loads (ref_dumps sample_assistant_entry ++ [LF]) = Ok sample_assistant_entry /\
  load_history (RT := ref_runtime) (EV := ref_deployment)
    corrupt_store WEB_USER_ID 50 = [] /\
  load_history (RT := ref_runtime) (EV := ref_deployment)
    corrupt_store WEB_USER_ID 50 <> [sample_user_entry; sample_assistant_entry].
Proof.
  repeat split; try (vm_compute; reflexivity).
  vm_compute. discriminate.
Qed.

(** *** Appending and reading back *)

(** C7 (at the limit 0).  After two [save_message] calls on a fresh
    identity, [load_history] with the limit 0 returns both entries, where
    the last min(0, 2) entries are none: [messages[-0:]] is the whole
    list. *)
Theorem load_history_limit_zero_returns_all :
  load_history (RT := ref_runtime) (EV := ref_deployment)
    (files (snd (save_all (RT := ref_runtime) (EV := ref_deployment)
                   WEB_USER_ID two_turns empty_world)))
    WEB_USER_ID 0
  = [sample_user_entry; sample_assistant_entry].
Proof. vm_compute. reflexivity. Qed.

(** For a positive limit the same two calls are read back as the claim
    says. *)
Example load_history_limit_one :
  load_history (RT := ref_runtime) (EV := ref_deployment)
    (files (snd (save_all (RT := ref_runtime) (EV := ref_deployment)
                   WEB_USER_ID two_turns empty_world)))
    WEB_USER_ID 1
  = [sample_assistant_entry].
Proof. vm_compute. reflexivity. Qed.

(** ** Assistant process adapter *)

Lemma split_nl_none (b : bytes) : split_nl b = None <-> x0a ∉ b.
Proof.
  induction b as [|c b IH]; simpl.
  - split; [intros _; apply not_elem_of_nil | reflexivity].
  - rewrite not_elem_of_cons. destruct (Byte.eqb c x0a) eqn:E.
    + apply Byte.byte_dec_bl in E. subst c. split; [discriminate|]. intros [H _]. congruence.
    + destruct (split_nl b) as [[l r]|].
      * split; [discriminate|]. intros [_ H]. apply IH in H. discriminate.
      * split; [|reflexivity]. intros _. split; [|apply IH; reflexivity].
        intros <-. rewrite Byte.byte_dec_lb in E by reflexivity. discriminate.
Qed.

Lemma split_nl_app_some (x y line rest : bytes) :
  split_nl x = Some (line, rest) -> split_nl (x ++ y) = Some (line, rest ++ y).
Proof.
  revert line rest. induction x as [|c x IH]; intros line rest; simpl; [discriminate|].
  destruct (Byte.eqb c x0a).
  - intros [= <- <-]. reflexivity.
  - destruct (split_nl x) as [[l r]|]; [|discriminate].
    intros [= <- <-]. rewrite (IH l r eq_refl). reflexivity.
Qed.

Lemma split_nl_app_none (x y : bytes) :
  split_nl x = None ->
  split_nl (x ++ y) =
  match split_nl y with
  | Some (line, rest) => Some (x ++ line, rest)
  | None => None
  end.
Proof.
  induction x as [|c x IH]; simpl.
  - intros _. destruct (split_nl y) as [[l r]|]; reflexivity.
  - destruct (Byte.eqb c x0a); [discriminate|].
    destruct (split_nl x) as [[l r]|]; [discriminate|].
    intros _. rewrite IH by reflexivity.
    destruct (split_nl y) as [[l r]|]; reflexivity.
Qed.

Section AdapterFacts.
Context `{RT : Runtime} {St : Type}.
Variable on_event : option (json -> M St unit).

(** One turn of the inner loop. *)
Lemma drain_step (buffer : bytes) :
  drain on_event buffer =
  match split_nl buffer with
  | Some (line, rest) => process_line on_event line ;; drain on_event rest
  | None => ret buffer
  end.
Proof.
  funelim (drain on_event buffer).
  - rewrite E. reflexivity.
  - rewrite E. reflexivity.
Qed.

(** The buffer the inner loop leaves holds no newline. *)
Lemma drain_leaves_no_newline (buffer rem : bytes) (a a' : adapter St) :
  drain on_event buffer a = (Ok rem, a') -> split_nl rem = None.
Proof.
  remember (length buffer) as n eqn:Hn. revert buffer Hn a.
  induction n as [n IH] using lt_wf_ind. intros buffer Hn a.
  rewrite drain_step. destruct (split_nl buffer) as [[line rest]|] eqn:E.
  - unfold bind. destruct (process_line on_event line a) as [[[]|e] a1]; [|discriminate].
    apply (IH (length rest)); [|reflexivity].
    subst n. eapply split_nl_shorter; eassumption.
  - unfold ret. intros [= <- <-]. exact E.
Qed.

(** Appending input to the buffer before the inner loop runs, or after it
    has run on what was there, comes to the same. *)
Lemma drain_app (x y : bytes) (a : adapter St) :
  drain on_event (x ++ y) a =
  match drain on_event x a with
  | (Ok rem, a') => drain on_event (rem ++ y) a'
  | (Raise e, a') => (Raise e, a')
  end.
Proof.
  remember (length x) as n eqn:Hn. revert x Hn a.
  induction n as [n IH] using lt_wf_ind. intros x Hn a.
  rewrite (drain_step x). destruct (split_nl x) as [[line rest]|] eqn:E.
  - rewrite (drain_step (x ++ y)), (split_nl_app_some x y line rest E).
    unfold bind. destruct (process_line on_event line a) as [[[]|e] a1]; [|reflexivity].
    apply (IH (length rest)); [|reflexivity].
    subst n. eapply split_nl_shorter; eassumption.
  - reflexivity.
Qed.

(** The outer loop run on chunks is the inner loop run once on all the
    input. *)
Lemma read_loop_concat (chunks : list bytes) (buffer : bytes) (a : adapter St) :
  Forall (fun c => c <> []) chunks ->
  split_nl buffer = None ->
  read_loop on_event chunks buffer a = drain on_event (buffer ++ concat chunks) a.
Proof.
  intros Hne. revert buffer a.
  induction Hne as [|chunk chunks Hc _ IH]; intros buffer a Hbuf.
  - simpl. rewrite app_nil_r, drain_step, Hbuf. reflexivity.
  - cbn [read_loop concat]. destruct chunk as [|c chunk]; [congruence|].
    cbn [nonempty negb]. rewrite app_assoc, drain_app. unfold bind.
    destruct (drain on_event (buffer ++ c :: chunk) a) as [[rem|e] a1] eqn:E;
      [|reflexivity].
    apply IH. eapply drain_leaves_no_newline; eassumption.
Qed.

(** Chunks with the same concatenation are processed alike. *)
Lemma stream_events_concat (cs1 cs2 : list bytes) (s : St) :
  Forall (fun c => c <> []) cs1 ->
  Forall (fun c => c <> []) cs2 ->
  concat cs1 = concat cs2 ->
  stream_events on_event cs1 s = stream_events on_event cs2 s.
Proof.
  intros H1 H2 Heq. unfold stream_events, try_except, bind.
  rewrite !read_loop_concat by (auto; reflexivity). rewrite Heq. reflexivity.
Qed.

End AdapterFacts.

Lemma concat_line_chunks (stream : bytes) : concat (line_chunks stream) = stream.
Proof.
  induction stream as [|c s IH]; [reflexivity|]. simpl.
  destruct (Byte.eqb c x0a).
  - simpl. rewrite IH. reflexivity.
  - destruct (line_chunks s) as [|l ls]; simpl in *; rewrite <- IH; reflexivity.
Qed.

Lemma line_chunks_nonempty (stream : bytes) :
  Forall (fun c => c <> []) (line_chunks stream).
Proof.
  induction stream as [|c s IH]; [constructor|]. simpl.
  destruct (Byte.eqb c x0a).
  - constructor; [discriminate | exact IH].
  - destruct (line_chunks s) as [|l ls].
    + constructor; [discriminate | constructor].
    + inversion IH; subst. constructor; [discriminate | assumption].
Qed.

(** C2.  However the output of the assistant is cut into chunks, in the
    middle of lines or not, the adapter does what it does when it is fed
    one complete line at a time: the same events are decoded and forwarded
    in the same order, whatever the callback, and the same final text
    comes out. *)
Theorem chunking_is_transparent `{RT : Runtime} {St : Type}
    (on_event : option (json -> M St unit)) (chunks : list bytes) (s : St) :
  Forall (fun c => c <> []) chunks ->
  stream_events on_event chunks s =
    stream_events on_event (line_chunks (concat chunks)) s /\
  decoded_events chunks = decoded_events (line_chunks (concat chunks)).
Proof.
  intros Hne. split; [|unfold decoded_events; f_equal];
    apply stream_events_concat; auto using line_chunks_nonempty;
    symmetry; apply concat_line_chunks.
Qed.

Lemma chunking_is_transparent_witness :
  Forall (fun c : bytes => c <> []) sample_chunks /\
  stream_events (RT := ref_runtime) (Some record_event) sample_chunks [] =
    stream_events (RT := ref_runtime) (Some record_event)
      (line_chunks (concat sample_chunks)) [] /\
  decoded_events (RT := ref_runtime) sample_chunks =
    decoded_events (RT := ref_runtime) (line_chunks (concat sample_chunks)).
Proof.
  assert (H : Forall (fun c : bytes => c <> []) sample_chunks)
    by (repeat constructor; vm_compute; discriminate).
  split; [exact H|].
  apply (chunking_is_transparent (RT := ref_runtime) (Some record_event)
           sample_chunks [] H).
Defined.

(** The three chunks above are decoded to the two events of the stream. *)
Example decoded_events_sample :
  decoded_events (RT := ref_runtime) sample_chunks =
    [delta_event (lit "Hello"); result_event (lit "R")] /\
  line_chunks (concat sample_chunks) =
    [event_line (delta_event (lit "Hello")) ++ [x0a];
     event_line (result_event (lit "R")) ++ [x0a]].
Proof. split; vm_compute; reflexivity. Qed.

(** *** Final text extraction *)

Lemma advance_deltas (ks : list kind) (x : str) :
  (forall r, Result r ∈ ks -> r = []) ->
  fold_left (fun x k => advance k x) ks x = x ++ deltas ks.
Proof.
  revert x. induction ks as [|k ks IH]; intros x Hres.
  - simpl. rewrite app_nil_r. reflexivity.
  - cbn [fold_left]. rewrite IH by (intros r Hr; apply Hres; right; exact Hr).
    unfold deltas. cbn [map concat]. destruct k as [t|r|]; cbn [advance].
    + rewrite app_assoc. reflexivity.
    + rewrite (Hres r) by left. reflexivity.
    + reflexivity.
Qed.

Section Extraction.
Context `{RT : Runtime} {St : Type}.
Variable on_event : option (json -> M St unit).

Lemma forward_accepted (event : json) (a : adapter St) :
  accepts on_event event ->
  forward on_event event a =
  (Ok tt, {| result_text := result_text a; cb := pushed on_event event (cb a) |}).
Proof.
  unfold accepts, forward, pushed. destruct on_event as [f|].
  - intros H. specialize (H (cb a)). destruct (f event (cb a)) as [r s'].
    simpl in H. subst r. reflexivity.
  - intros _. destruct a; reflexivity.
Qed.

Lemma eq_str_other (v : json) (a b : str) :
  a <> b -> eq_str v a = true -> eq_str v b = false.
Proof.
  destruct v; simpl; try discriminate. intros Hab Ha.
  apply str_eqb_eq in Ha. subst. destruct (str_eqb a b) eqn:E; [|reflexivity].
  apply str_eqb_eq in E. contradiction.
Qed.

Lemma delta_type_not_result : lit "content_block_delta" <> lit "result".
Proof. intros H. vm_compute in H. discriminate H. Qed.

(** The body of the loop on a well-typed event. *)
Lemma event_body (event : json) (k : kind) (x : str) (s : St) :
  kind_of event = Some k ->
  accepts on_event event ->
  (extract_delta event ;; extract_result event ;; forward on_event event)
    {| result_text := JStr x; cb := s |} =
  (Ok tt, {| result_text := JStr (advance k x); cb := pushed on_event event s |}).
Proof.
  intros Hk Hacc. destruct event as [| | | |l|d]; try discriminate.
  unfold kind_of in Hk. unfold extract_delta, extract_result, bind, lift, when.
  cbn [py_get]. fold (field d (lit "type") JNull).
  fold (field d (lit "delta") (JObj [])). fold (field d (lit "result") (JStr [])).
  destruct (eq_str (field d (lit "type") JNull) (lit "content_block_delta")) eqn:Ety.
  - rewrite (eq_str_other _ _ (lit "result") delta_type_not_result Ety).
    destruct (field d (lit "delta") (JObj [])) as [| | | | |dd]; try discriminate.
    cbn [py_get]. fold (field dd (lit "type") JNull).
    fold (field dd (lit "text") (JStr [])).
    destruct (eq_str (field dd (lit "type") JNull) (lit "text_delta")).
    + destruct (field dd (lit "text") (JStr [])) as [| | |t| |]; try discriminate.
      injection Hk as <-. cbn [result_text py_iadd set_result_text ret cb].
      rewrite forward_accepted by exact Hacc. reflexivity.
    + injection Hk as <-. cbn [ret]. rewrite forward_accepted by exact Hacc.
      reflexivity.
  - cbn [ret].
    destruct (eq_str (field d (lit "type") JNull) (lit "result")).
    + destruct (field d (lit "result") (JStr [])) as [| | |r| |]; try discriminate.
      injection Hk as <-. cbn [result_text truthy advance].
      destruct (nonempty r && negb (nonempty x));
        cbn [set_result_text cb]; rewrite forward_accepted by exact Hacc;
        reflexivity.
    + injection Hk as <-. cbn [ret]. rewrite forward_accepted by exact Hacc.
      reflexivity.
Qed.

Lemma process_line_carried (line : bytes) (event : json) (k : kind)
    (x : str) (s : St) :
  carries line event -> kind_of event = Some k -> accepts on_event event ->
  process_line on_event line {| result_text := JStr x; cb := s |} =
  (Ok tt, {| result_text := JStr (advance k x); cb := pushed on_event event s |}).
Proof.
  intros (_ & Hnb & text & Hdec & Hload) Hk Hacc.
  unfold process_line. rewrite Hnb. cbn [negb]. unfold try_except.
  unfold bind at 1. unfold lift at 1. rewrite Hdec.
  unfold bind at 1. unfold lift at 1. rewrite Hload.
  rewrite (event_body event k x s Hk Hacc). reflexivity.
Qed.

(** A blank line and a line that is not a JSON document are passed
    over. *)
Lemma process_line_skipped (line : bytes) (a : adapter St) :
  nonempty (bstrip line) = false \/
  (exists text, utf8_decode line = Ok text /\
                json_loads (strip text) = Raise JSONDecodeError) ->
  process_line on_event line a = (Ok tt, a).
Proof.
  unfold process_line. intros [H | (text & Hdec & Hload)].
  - rewrite H. reflexivity.
  - destruct (nonempty (bstrip line)); [|reflexivity]. cbn [negb].
    unfold try_except, bind, lift. rewrite Hdec, Hload. reflexivity.
Qed.

(** The residual buffer on a well-typed event: a delta is not added. *)
Lemma process_residual_carried (line : bytes) (event : json) (k : kind)
    (x : str) (s : St) :
  carries line event -> kind_of event = Some k -> accepts on_event event ->
  process_residual on_event line {| result_text := JStr x; cb := s |} =
  (Ok tt,
   {| result_text := JStr (match k with Delta _ => x | _ => advance k x end);
      cb := pushed on_event event s |}).
Proof.
  intros (_ & Hnb & text & Hdec & Hload) Hk Hacc.
  unfold process_residual, when. rewrite Hnb. unfold try_except.
  unfold bind at 1. unfold lift at 1. rewrite Hdec.
  unfold bind at 1. unfold lift at 1. rewrite Hload.
  destruct event as [| | | |l|d]; try discriminate.
  unfold kind_of in Hk. unfold extract_result, bind, lift, when.
  cbn [py_get]. fold (field d (lit "type") JNull).
  fold (field d (lit "result") (JStr [])).
  destruct (eq_str (field d (lit "type") JNull) (lit "content_block_delta")) eqn:Ety.
  - rewrite (eq_str_other _ _ (lit "result") delta_type_not_result Ety).
    cbn [ret]. rewrite forward_accepted by exact Hacc. cbn [result_text cb].
    destruct (field d (lit "delta") (JObj [])) as [| | | | |dd]; try discriminate.
    destruct (eq_str (field dd (lit "type") JNull) (lit "text_delta")).
    + destruct (field dd (lit "text") (JStr [])); try discriminate.
      injection Hk as <-. reflexivity.
    + injection Hk as <-. reflexivity.
  - destruct (eq_str (field d (lit "type") JNull) (lit "result")).
    + destruct (field d (lit "result") (JStr [])) as [| | |r| |]; try discriminate.
      injection Hk as <-. cbn [result_text truthy advance].
      destruct (nonempty r && negb (nonempty x));
        cbn [set_result_text cb]; rewrite forward_accepted by exact Hacc;
        reflexivity.
    + injection Hk as <-. cbn [ret]. rewrite forward_accepted by exact Hacc.
      reflexivity.
Qed.

Lemma split_nl_line (line rest : bytes) :
  x0a ∉ line -> split_nl (line ++ x0a :: rest) = Some (line, rest).
Proof.
  intros H. apply split_nl_none in H.
  rewrite (split_nl_app_none line (x0a :: rest) H). simpl.
  rewrite app_nil_r. reflexivity.
Qed.

(** The inner loop over complete lines that carry well-typed, accepted
    events. *)
Lemma drain_carried (lines : list bytes) (events : list json)
    (ks : list kind) (tail : bytes) (x : str) (s : St) :
  Forall2 carries lines events ->
  map kind_of events = map Some ks ->
  Forall (accepts on_event) events ->
  drain on_event (terminated_lines lines ++ tail)
    {| result_text := JStr x; cb := s |} =
  drain on_event tail
    {| result_text := JStr (fold_left (fun x k => advance k x) ks x);
       cb := fold_left (fun s e => pushed on_event e s) events s |}.
Proof.
  intros Hc. revert ks x s.
  induction Hc as [|line event lines events Hle _ IH]; intros ks x s Hk Hacc.
  - destruct ks; [reflexivity | discriminate].
  - destruct ks as [|k ks]; [discriminate|]. cbn [map] in Hk.
    injection Hk as Hk Hks. inversion Hacc as [|? ? Ha Has]; subst.
    unfold terminated_lines. cbn [map concat]. rewrite <- !app_assoc.
    cbn [app]. rewrite drain_step.
    rewrite split_nl_line by (destruct Hle as [H _]; exact H).
    unfold bind. rewrite (process_line_carried line event k x s Hle Hk Ha).
    apply (IH ks _ _ Hks Has).
Qed.

End Extraction.

(** Once some text has been accumulated, no event makes [extract_result]
    change it. *)
Lemma extract_result_keeps_text `{RT : Runtime} {St : Type} (event : json)
    (a : adapter St) :
  truthy (result_text a) = true ->
  result_text (snd (extract_result event a)) = result_text a.
Proof.
  intros H. unfold extract_result, bind, lift, when.
  destruct (py_get event (lit "type") JNull) as [ty|e]; [|reflexivity].
  destruct (eq_str ty (lit "result")); [|reflexivity].
  destruct (py_get event (lit "result") (JStr [])) as [result|e]; [|reflexivity].
  rewrite H, andb_false_r. reflexivity.
Qed.

Lemma deltas_none (ks : list kind) :
  (forall t, Delta t ∉ ks) -> deltas ks = [].
Proof.
  induction ks as [|k ks IH]; intros H; [reflexivity|].
  unfold deltas in *. cbn [map concat].
  rewrite IH by (intros t Ht; apply (H t); right; exact Ht).
  destruct k as [t| |]; try reflexivity.
  exfalso. apply (H t). left.
Qed.

Lemma deltas_some (ks : list kind) (t : str) :
  Delta t ∈ ks -> t <> [] -> nonempty (deltas ks) = true.
Proof.
  intros Hin Ht. induction ks as [|k ks IH]; [inversion Hin|].
  unfold deltas in *. cbn [map concat].
  apply elem_of_cons in Hin as [<-|Hin].
  - destruct t; [congruence | reflexivity].
  - specialize (IH Hin).
    destruct (match k with Delta t0 => t0 | _ => [] end); [exact IH | reflexivity].
Qed.

Lemma stream_of_terminated (lines : list bytes) :
  stream_of lines true = terminated_lines lines.
Proof.
  induction lines as [|l [|l' ls] IH]; [reflexivity | |].
  - unfold terminated_lines. cbn. rewrite app_nil_r. reflexivity.
  - change (stream_of (l :: l' :: ls) true)
      with (l ++ [x0a] ++ stream_of (l' :: ls) true).
    rewrite IH. unfold terminated_lines. cbn [map concat].
    rewrite <- !app_assoc. reflexivity.
Qed.

Lemma stream_of_unterminated (lines : list bytes) (last : bytes) :
  stream_of (lines ++ [last]) false = terminated_lines lines ++ last.
Proof.
  induction lines as [|l ls IH].
  - cbn. rewrite app_nil_r. reflexivity.
  - assert (Hne : exists l' ls', ls ++ [last] = l' :: ls')
      by (destruct ls; cbn; eauto).
    destruct Hne as (l' & ls' & Hne).
    change ((l :: ls) ++ [last]) with (l :: (ls ++ [last])).
    rewrite Hne.
    change (stream_of (l :: l' :: ls') false)
      with (l ++ [x0a] ++ stream_of (l' :: ls') false).
    rewrite <- Hne, IH. unfold terminated_lines. cbn [map concat].
    rewrite <- !app_assoc. reflexivity.
Qed.

(** Once the text is not empty, result events leave it alone and deltas
    are added to it. *)
Lemma advance_all_nonempty (ks : list kind) (x : str) :
  nonempty x = true -> advance_all ks x = x ++ deltas ks.
Proof.
  unfold advance_all. revert x. induction ks as [|k ks IH]; intros x Hx.
  - cbn. rewrite app_nil_r. reflexivity.
  - cbn [fold_left]. unfold deltas. cbn [map concat]. fold (deltas ks).
    destruct k as [t|r|]; cbn [advance].
    + rewrite IH by (destruct x; [discriminate | reflexivity]).
      rewrite app_assoc. reflexivity.
    + rewrite Hx, andb_false_r. apply IH, Hx.
    + apply IH, Hx.
Qed.

Lemma deltas_app (ks1 ks2 : list kind) : deltas (ks1 ++ ks2) = deltas ks1 ++ deltas ks2.
Proof. unfold deltas. rewrite map_app, concat_app. reflexivity. Qed.

(** The text after a sequence of events in which the first result event
    to carry a text carries [R]. *)
Lemma advance_all_result (pre post : list kind) (R : str) :
  R <> [] ->
  (forall r, Result r ∈ pre -> r = []) ->
  advance_all (pre ++ [Result R] ++ post) [] =
  if nonempty (deltas pre) then deltas (pre ++ [Result R] ++ post)
  else R ++ deltas post.
Proof.
  intros HR Hpre. unfold advance_all. rewrite !fold_left_app.
  rewrite (advance_deltas pre [] Hpre). cbn [app fold_left advance].
  assert (HRne : nonempty R = true) by (destruct R; [congruence | reflexivity]).
  rewrite HRne. cbn [andb].
  pose proof (advance_all_nonempty post) as Hpost. unfold advance_all in Hpost.
  destruct (nonempty (deltas pre)) eqn:E; cbn [negb].
  - rewrite (Hpost _ E), !deltas_app. reflexivity.
  - apply Hpost, HRne.
Qed.

Section FinalText.
Context `{RT : Runtime} {St : Type}.
Variable on_event : option (json -> M St unit).

(** The final text of a run whose lines carry well-typed events that the
    callback accepts: the text accumulated over the events, provided the
    last line, when it is not closed by a newline, carries no delta. *)
Lemma stream_events_text (chunks : list bytes) (s : St)
    (lines : list bytes) (events : list json) (ks : list kind)
    (terminated : bool) :
  Forall (fun c => c <> []) chunks ->
  lines <> [] ->
  concat chunks = stream_of lines terminated ->
  Forall2 carries lines events ->
  map kind_of events = map Some ks ->
  Forall (accepts on_event) events ->
  (terminated = false -> forall t, last ks <> Some (Delta t)) ->
  fst (stream_events on_event chunks s) = Ok (JStr (advance_all ks [])).
Proof.
  intros Hne Hlines Hcat Hcar Hks Hacc Hlast.
  unfold stream_events, try_except. unfold bind at 1.
  rewrite read_loop_concat by (auto; reflexivity). cbn [app]. rewrite Hcat.
  destruct terminated.
  - rewrite stream_of_terminated, <- (app_nil_r (terminated_lines lines)).
    rewrite (drain_carried on_event lines events ks [] [] s Hcar Hks Hacc).
    rewrite drain_step. cbn [split_nl ret]. reflexivity.
  - destruct (exists_last Hlines) as (init & l & ->).
    apply Forall2_app_inv_l in Hcar as (ev & ev1 & Hcar & Hcar1 & ->).
    inversion Hcar1 as [|? e ? ? Hl Hnil]; subst. inversion Hnil; subst.
    rewrite map_app in Hks. cbn [map] in Hks.
    assert (Hsplit : exists ks0 k, ks = ks0 ++ [k] /\
                       map kind_of ev = map Some ks0 /\ kind_of e = Some k).
    { destruct (exists_last (l := ks)) as (ks0 & k & ->).
      - intros ->. destruct ev; discriminate Hks.
      - rewrite map_app in Hks. cbn [map] in Hks.
        apply app_inj_tail in Hks as [H1 H2]. eauto. }
    destruct Hsplit as (ks0 & k & -> & Hks0 & Hk).
    apply Forall_app in Hacc as [Hacc Hacc1].
    inversion Hacc1 as [|? ? Ha _]; subst.
    rewrite stream_of_unterminated.
    rewrite (drain_carried on_event init ev ks0 l [] s Hcar Hks0 Hacc).
    rewrite drain_step.
    assert (Hnl : split_nl l = None)
      by (apply split_nl_none; destruct Hl as [H _]; exact H).
    rewrite Hnl. cbn [ret].
    rewrite (process_residual_carried on_event l e k _ _ Hl Hk Ha).
    cbn [fst result_text]. unfold advance_all. rewrite fold_left_app.
    cbn [fold_left]. destruct k as [t| |]; try reflexivity.
    exfalso. apply (Hlast eq_refl t). apply last_snoc.
Qed.
End FinalText.

(** The policy of the final text, on the runs where the code keeps it.
    Take a run whose lines carry well-typed events that the callback
    accepts, among them a result event with the non-empty text [R], no
    result event before it carrying a text; the last line may lack its
    newline when it carries no delta.  If no text delta arrives, the
    final text is [R].  If a non-empty text delta arrives before the
    result event, the text of the result event is ignored and the final
    text is the concatenation of the deltas: the result never overwrites
    a text built from deltas. *)
Theorem final_text_policy `{RT : Runtime} {St : Type}
    (on_event : option (json -> M St unit)) (chunks : list bytes) (s : St)
    (lines : list bytes) (events : list json) (pre post : list kind)
    (R : str) (terminated : bool) :
  Forall (fun c => c <> []) chunks ->
  concat chunks = stream_of lines terminated ->
  Forall2 carries lines events ->
  map kind_of events = map Some (pre ++ [Result R] ++ post) ->
  Forall (accepts on_event) events ->
  R <> [] ->
  (forall r, Result r ∈ pre -> r = []) ->
  (terminated = false ->
   forall t, last (pre ++ [Result R] ++ post) <> Some (Delta t)) ->
  ((forall t, Delta t ∉ pre ++ [Result R] ++ post) ->
   fst (stream_events on_event chunks s) = Ok (JStr R)) /\
  ((exists t, Delta t ∈ pre /\ t <> []) ->
   fst (stream_events on_event chunks s) =
   Ok (JStr (deltas (pre ++ [Result R] ++ post)))).
Proof.
  intros Hne Hcat Hcar Hks Hacc HR Hpre Hlast.
  assert (Hlines : lines <> []).
  { intros ->. inversion Hcar; subst. destruct pre; discriminate Hks. }
  rewrite (stream_events_text on_event chunks s lines events _ terminated
             Hne Hlines Hcat Hcar Hks Hacc Hlast).
  rewrite (advance_all_result pre post R HR Hpre). split.
  - intros Hno.
    assert (Hd : deltas (pre ++ [Result R] ++ post) = []) by (apply deltas_none, Hno).
    rewrite !deltas_app in Hd. apply app_eq_nil in Hd as [Hd1 Hd2].
    apply app_eq_nil in Hd2 as [_ Hd2]. rewrite Hd1, Hd2, app_nil_r. reflexivity.
  - intros (t & Hin & Ht). rewrite (deltas_some pre t Hin Ht). reflexivity.
Qed.

Lemma final_text_policy_witness :
  fst (stream_events (RT := ref_runtime) (Some record_event) sample_chunks []) =
  Ok (JStr (deltas ([Delta (lit "Hello")] ++ [Result (lit "R")] ++ []))).
Proof.
  refine (proj2 (final_text_policy (RT := ref_runtime) (Some record_event)
                   sample_chunks []
                   [event_line (delta_event (lit "Hello"));
                    event_line (result_event (lit "R"))]
                   [delta_event (lit "Hello"); result_event (lit "R")]
                   [Delta (lit "Hello")] [] (lit "R") true
                   _ _ _ _ _ _ _ _) _).
  - repeat constructor; vm_compute; discriminate.
  - vm_compute. reflexivity.
  - repeat constructor.
    + apply split_nl_none. vm_compute. reflexivity.
    + exists (ref_dumps (delta_event (lit "Hello"))).
      split; vm_compute; reflexivity.
    + apply split_nl_none. vm_compute. reflexivity.
    + exists (ref_dumps (result_event (lit "R"))).
      split; vm_compute; reflexivity.
  - vm_compute. reflexivity.
  - repeat constructor.
  - vm_compute. discriminate.
  - intros r H. apply list_elem_of_singleton in H. discriminate H.
  - discriminate.
  - exists (lit "Hello"). split; [left | vm_compute; discriminate].
Defined.

(** Without any delta the text of the result event is the final text,
    also when its line is not closed by a newline. *)
Example final_text_from_result :
  fst (stream_events (RT := ref_runtime) (Some record_event)
         [event_line (result_event (lit "hi there"))] []) =
  Ok (JStr (lit "hi there")).
Proof. vm_compute. reflexivity. Qed.

(** A delta that comes in the residual buffer is forwarded but not added
    to the text. *)
Example residual_delta_is_not_added :
  stream_events (RT := ref_runtime) (Some record_event)
    [event_line (delta_event (lit "a")) ++ [x0a] ++
     event_line (delta_event (lit "b"))] [] =
  (Ok (JStr (lit "a")), [delta_event (lit "a"); delta_event (lit "b")]).
Proof. vm_compute. reflexivity. Qed.

(** C3.  A run on which the final text is not the concatenation of the
    deltas.  The output carries a delta [a] and a result event [R], each
    on a line closed by a newline, then a delta [b] on a last line that no
    newline closes.  The three events are a delta, a result and a delta,
    whose deltas concatenate to [ab], and all three are forwarded to the
    callback in that order; yet the final text is [a]: the loop over the
    complete lines adds the text of a delta, the code that processes what
    is left in the buffer handles result events only, and the last delta
    is lost.  The same output with the last line closed gives [ab]. *)
Theorem final_text_misses_residual_delta :
  map kind_of residual_delta_events =
    [Some (Delta (lit "a")); Some (Result (lit "R")); Some (Delta (lit "b"))] /\
  deltas [Delta (lit "a"); Result (lit "R"); Delta (lit "b")] = lit "ab" /\
  stream_events (RT := ref_runtime) (Some record_event) [residual_delta_output] [] =
    (Ok (JStr (lit "a")), residual_delta_events) /\
  stream_events (RT := ref_runtime) (Some record_event)
    [residual_delta_output ++ [x0a]] [] =
    (Ok (JStr (lit "ab")), residual_delta_events).
Proof. repeat split; vm_compute; reflexivity. Qed.

(** ** What a computation leaves unchanged *)

Create HintDb preserves.

Lemma preserves_ret {S A} (P : S -> Prop) (a : A) : preserves P (ret a).
Proof. intros s H. exact H. Qed.

Lemma preserves_raise {S A} (P : S -> Prop) (e : exn) : preserves P (@raise S A e).
Proof. intros s H. exact H. Qed.

Lemma preserves_lift {S A} (P : S -> Prop) (r : res A) : preserves P (lift r).
Proof. intros s H. exact H. Qed.

Lemma preserves_bind {S A B} (P : S -> Prop) (m : M S A) (k : A -> M S B) :
  preserves P m -> (forall a, preserves P (k a)) -> preserves P (bind m k).
Proof.
  intros Hm Hk s H. unfold bind. specialize (Hm s H).
  destruct (m s) as [[a|e] s']; [apply Hk|]; exact Hm.
Qed.

Lemma preserves_when {S} (P : S -> Prop) (c : bool) (m : M S unit) :
  preserves P m -> preserves P (when c m).
Proof. intros Hm. destruct c; [exact Hm | apply preserves_ret]. Qed.

Lemma preserves_try_except {S A} (P : S -> Prop) (m : M S A)
    (handles : exn -> bool) (h : exn -> M S A) :
  preserves P m -> (forall e, preserves P (h e)) ->
  preserves P (try_except m handles h).
Proof.
  intros Hm Hh s H. unfold try_except. specialize (Hm s H).
  destruct (m s) as [[a|e] s']; [exact Hm|].
  destruct (handles e); [apply Hh|]; exact Hm.
Qed.

Lemma preserves_for_each {S A} (P : S -> Prop) (l : list A) (body : A -> M S unit) :
  (forall x, preserves P (body x)) -> preserves P (for_each l body).
Proof.
  intros Hb. induction l as [|x l IH]; cbn [for_each].
  - apply preserves_ret.
  - apply preserves_bind; [apply Hb | intros _; exact IH].
Qed.

Lemma preserves_if {S A} (P : S -> Prop) (c : bool) (m1 m2 : M S A) :
  preserves P m1 -> preserves P m2 -> preserves P (if c then m1 else m2).
Proof. destruct c; auto. Qed.

#[export] Hint Resolve preserves_ret preserves_raise preserves_lift preserves_bind
  preserves_when preserves_try_except preserves_for_each preserves_if : preserves.

Section AdapterInvariant.
Context `{RT : Runtime} {St : Type}.
Variable on_event : option (json -> M St unit).
Variable P : St -> Prop.
Hypothesis callback_preserves :
  forall f, on_event = Some f -> forall event, preserves P (f event).

Lemma preserves_set_result_text (v : json) : preserves (on_cb P) (set_result_text v).
Proof. intros a H. exact H. Qed.

Lemma preserves_forward (event : json) : preserves (on_cb P) (forward on_event event).
Proof.
  unfold forward. destruct on_event as [f|] eqn:E; [|apply preserves_ret].
  intros a H. unfold on_cb in *.
  pose proof (callback_preserves f eq_refl event (cb a) H) as Hf.
  destruct (f event (cb a)) as [r s']. exact Hf.
Qed.

Lemma preserves_extract_delta (event : json) : preserves (on_cb P) (extract_delta event).
Proof.
  unfold extract_delta. repeat (apply preserves_bind || apply preserves_when
    || apply preserves_lift || intros ?).
  destruct (py_iadd _ _); [apply preserves_set_result_text|]; assumption.
Qed.

Lemma preserves_extract_result (event : json) : preserves (on_cb P) (extract_result event).
Proof.
  unfold extract_result. repeat (apply preserves_bind || apply preserves_when
    || apply preserves_lift || intros ?).
  destruct (_ && _); [apply preserves_set_result_text|]; assumption.
Qed.

Lemma preserves_process_line (line : bytes) : preserves (on_cb P) (process_line on_event line).
Proof.
  unfold process_line.
  auto 10 using preserves_extract_delta, preserves_extract_result,
    preserves_forward with preserves.
Qed.

Lemma preserves_process_residual (buffer : bytes) :
  preserves (on_cb P) (process_residual on_event buffer).
Proof.
  unfold process_residual.
  auto 10 using preserves_extract_result, preserves_forward with preserves.
Qed.

Lemma preserves_drain (buffer : bytes) : preserves (on_cb P) (drain on_event buffer).
Proof.
  remember (length buffer) as n eqn:Hn. revert buffer Hn.
  induction n as [n IH] using lt_wf_ind. intros buffer Hn.
  rewrite drain_step. destruct (split_nl buffer) as [[line rest]|] eqn:E.
  - apply preserves_bind; [apply preserves_process_line|]. intros _.
    apply (IH (length rest)); [|reflexivity].
    subst n. eapply split_nl_shorter; eassumption.
  - apply preserves_ret.
Qed.

Lemma preserves_read_loop (chunks : list bytes) (buffer : bytes) :
  preserves (on_cb P) (read_loop on_event chunks buffer).
Proof.
  revert buffer. induction chunks as [|chunk chunks IH]; intros buffer;
    cbn [read_loop]; auto using preserves_drain with preserves.
Qed.

(** What the callback preserves, the adapter run preserves. *)
Lemma preserves_stream_events (chunks : list bytes) :
  preserves P (stream_events on_event chunks).
Proof.
  intros s H. unfold stream_events.
  assert (Hp : preserves (on_cb P)
                 (try_except
                    (let* buffer := read_loop on_event chunks [] in
                     process_residual on_event buffer)
                    any_exception (fun _ => ret tt))).
  { apply preserves_try_except.
    - apply preserves_bind; [apply preserves_read_loop|].
      intros buffer. apply preserves_process_residual.
    - intros e. apply preserves_ret. }
  specialize (Hp {| result_text := JStr []; cb := s |} H).
  destruct (try_except _ _ _ _) as [r a]. exact Hp.
Qed.

End AdapterInvariant.

(** ** SSE relay *)

Lemma set_wire_app (w : world) (xs ys : list str) :
  set_wire (fun l => l ++ ys) (set_wire (fun l => l ++ xs) w) =
  set_wire (fun l => l ++ xs ++ ys) w.
Proof. unfold set_wire. cbn. rewrite <- app_assoc. reflexivity. Qed.

Lemma set_wire_nil (w : world) : set_wire (fun l => l ++ []) w = w.
Proof. destruct w. unfold set_wire. cbn. rewrite app_nil_r. reflexivity. Qed.


Lemma py_get_field (d : list (str * json)) (k : str) (default : json) :
  py_get (JObj d) k default = Ok (field d k default).
Proof. reflexivity. Qed.

Section RelayFacts.
Context `{RT : Runtime} `{EV : Env}.


(** A payload under the ceiling is written as it is. *)
Lemma send_sse_data_small (data_dict : list (str * json)) (w : world) :
  len (json_dumps (JObj data_dict)) <= MAX_SSE_EVENT_SIZE ->
  send_sse_data data_dict w =
    (Ok tt, set_wire (fun l => l ++ [sse (json_dumps (JObj data_dict))]) w).
Proof.
  intros H. unfold send_sse_data.
  destruct (Z.leb_spec (len (json_dumps (JObj data_dict))) MAX_SSE_EVENT_SIZE);
    [reflexivity | lia].
Qed.

End RelayFacts.



(** *** The final answer *)

Section FinalAnswer.
Context `{RT : Runtime} `{EV : Env}.




(** *** The frames, character by character

    Code 34 is the double quote, code 10 the newline. *)

Lemma sse_text (payload : str) :
  sse payload = list_ascii_of_string "data: " ++ payload ++ ["010"; "010"]%char.
Proof. reflexivity. Qed.

Lemma done_frame_text :
  done_frame =
  list_ascii_of_string "data: {" ++ ["034"%char] ++ list_ascii_of_string "type" ++
  ["034"%char] ++ list_ascii_of_string ":" ++ ["034"%char] ++
  list_ascii_of_string "done" ++ ["034"%char] ++ list_ascii_of_string "}" ++
  ["010"; "010"]%char.
Proof. reflexivity. Qed.

Lemma no_message_frame_text :
  no_message_frame =
  list_ascii_of_string "data: {" ++ ["034"%char] ++ list_ascii_of_string "type" ++
  ["034"%char] ++ list_ascii_of_string ":" ++ ["034"%char] ++
  list_ascii_of_string "error" ++ ["034"%char] ++ list_ascii_of_string "," ++
  ["034"%char] ++ list_ascii_of_string "message" ++ ["034"%char] ++
  list_ascii_of_string ":" ++ ["034"%char] ++
  list_ascii_of_string "No message provided" ++ ["034"%char] ++
  list_ascii_of_string "}" ++ ["010"; "010"]%char.
Proof. reflexivity. Qed.

Lemma error_frame_text (error_msg : str) :
  error_frame error_msg =
  list_ascii_of_string "data: {" ++ ["034"%char] ++ list_ascii_of_string "type" ++
  ["034"%char] ++ list_ascii_of_string ":" ++ ["034"%char] ++
  list_ascii_of_string "error" ++ ["034"%char] ++ list_ascii_of_string "," ++
  ["034"%char] ++ list_ascii_of_string "message" ++ ["034"%char] ++
  list_ascii_of_string ":" ++ ["034"%char] ++ error_msg ++ ["034"%char] ++
  list_ascii_of_string "}" ++ ["010"; "010"]%char.
Proof.
  unfold error_frame, sse, dq, lit. rewrite <- !app_assoc. reflexivity.
Qed.



(** The frames of an answer, as the text [data: ], the dictionary that is
    serialized and two newlines. *)
Lemma response_frame_text (content : str) :
  response_frame content =
  list_ascii_of_string "data: " ++
  json_dumps (JObj [(list_ascii_of_string "type",
                     JStr (list_ascii_of_string "response"));
                    (list_ascii_of_string "content", JStr content)]) ++
  ["010"; "010"]%char.
Proof. reflexivity. Qed.

Lemma chunk_frame_text (content : str) :
  chunk_frame content =
  list_ascii_of_string "data: " ++
  json_dumps (JObj [(list_ascii_of_string "type",
                     JStr (list_ascii_of_string "response_chunk"));
                    (list_ascii_of_string "content", JStr content);
                    (list_ascii_of_string "partial", JBool true)]) ++
  ["010"; "010"]%char.
Proof. reflexivity. Qed.

Lemma last_chunk_frame_text (content : str) :
  last_chunk_frame content =
  list_ascii_of_string "data: " ++
  json_dumps (JObj [(list_ascii_of_string "type",
                     JStr (list_ascii_of_string "response"));
                    (list_ascii_of_string "content", JStr content);
                    (list_ascii_of_string "partial", JBool false)]) ++
  ["010"; "010"]%char.
Proof. reflexivity. Qed.



End FinalAnswer.



(** The frames written for an answer of exactly the limit and for one a
    character longer: one frame, and two of which the first is partial;
    the done frame closes both. *)
Example frames_at_and_over_the_limit :
  match wire (snd (complete (RT := ref_runtime) (EV := ref_deployment)
                     ref_chat (lit "hello") (JStr (repeat "a"%char (128 * 128))) 0 []
                     empty_world)) with
  | [f; d] =>
      str_eqb f (response_frame (RT := ref_runtime) (repeat "a"%char (128 * 128)))
      && str_eqb d done_frame
  | _ => false
  end = true /\
  match wire (snd (complete (RT := ref_runtime) (EV := ref_deployment)
                     ref_chat (lit "hello") (JStr over_limit_answer) 0 []
                     empty_world)) with
  | [f1; f2; d] =>
      str_eqb f1 (chunk_frame (RT := ref_runtime) (repeat "a"%char (128 * 128)))
      && str_eqb f2 (last_chunk_frame (RT := ref_runtime) (lit "a"))
      && str_eqb d done_frame
  | _ => false
  end = true.
Proof. split; vm_compute; reflexivity. Qed.

(** *** Escaping *)

Lemma replace_chr_app (c : ascii) (r a b : str) :
  replace_chr c r (a ++ b) = replace_chr c r a ++ replace_chr c r b.
Proof.
  induction a as [|d a IH]; [reflexivity|].
  cbn [replace_chr app]. rewrite IH, app_assoc. reflexivity.
Qed.

Lemma bounded_escaped_chars (text : str) :
  bounded_escaped text = concat (map escaped_chr (take 500 text)).
Proof.
  unfold bounded_escaped. induction (take 500 text) as [|c s IH]; [reflexivity|].
  cbn [replace_chr map concat]. rewrite replace_chr_app, IH. f_equal.
  unfold escaped_chr. destruct (chr_eqb c DQUOTE) eqn:Eq.
  - reflexivity.
  - cbn [replace_chr app]. destruct (chr_eqb c LF); reflexivity.
Qed.

Lemma escaped_chars_quotes (s : str) (prev : bool) :
  quotes_escaped prev (concat (map escaped_chr s)) = true.
Proof.
  revert prev. induction s as [|c s IH]; intros prev; [reflexivity|].
  cbn [map concat]. unfold escaped_chr at 1.
  destruct (chr_eqb c DQUOTE) eqn:Eq.
  - cbn [app quotes_escaped]. rewrite IH. reflexivity.
  - destruct (chr_eqb c LF) eqn:El.
    + cbn [app quotes_escaped lit list_ascii_of_string]. rewrite IH. reflexivity.
    + cbn [app quotes_escaped]. rewrite Eq, IH. reflexivity.
Qed.

Lemma escaped_chars_no_newline (s : str) : LF ∉ concat (map escaped_chr s).
Proof.
  induction s as [|c s IH]; [apply not_elem_of_nil|].
  cbn [map concat]. rewrite elem_of_app. intros [H|H]; [|exact (IH H)].
  unfold escaped_chr in H. destruct (chr_eqb c DQUOTE).
  - apply elem_of_cons in H as [H|H]; [discriminate H|].
    apply list_elem_of_singleton in H. discriminate H.
  - destruct (chr_eqb c LF) eqn:El.
    + cbn in H. apply elem_of_cons in H as [H|H]; [discriminate H|].
      apply list_elem_of_singleton in H. discriminate H.
    + apply list_elem_of_singleton in H. subst c.
      rewrite chr_eqb_refl in El. discriminate El.
Qed.

Lemma escaped_chars_length (s : str) :
  (length (concat (map escaped_chr s)) <= 2 * length s)%nat.
Proof.
  induction s as [|c s IH]; [reflexivity|].
  cbn [map concat length]. rewrite length_app.
  assert (length (escaped_chr c) <= 2)%nat.
  { unfold escaped_chr. destruct (chr_eqb c DQUOTE); [cbn; lia|].
    destruct (chr_eqb c LF); cbn; lia. }
  lia.
Qed.

(** The message of an error frame: the escaping of the first 500
    characters of the text, hence without a raw newline, without a bare
    double quote, and of at most 1000 characters. *)
Lemma bounded_escaped_spec (text : str) :
  bounded_escaped text = concat (map escaped_chr (take 500 text)) /\
  (length (take 500 text) <= 500)%nat /\
  (LF ∉ bounded_escaped text) /\
  quotes_escaped false (bounded_escaped text) = true /\
  (length (bounded_escaped text) <= 1000)%nat.
Proof.
  rewrite bounded_escaped_chars. split; [reflexivity|].
  assert (H500 : (length (take 500 text) <= 500)%nat) by (rewrite length_take; lia).
  split; [exact H500|]. split; [apply escaped_chars_no_newline|].
  split; [apply escaped_chars_quotes|].
  pose proof (escaped_chars_length (take 500 text)). lia.
Qed.

(** *** The streaming handlers *)


Section HandlerFacts.
Context `{RT : Runtime} `{EV : Env}.

Lemma with_handlers_ok (body : M world unit) (w w' : world) :
  body w = (Ok tt, w') -> with_handlers body w = (Ok tt, w').
Proof. intros H. unfold with_handlers, try_except. rewrite H. reflexivity. Qed.



Lemma write_same_files (F : gmap str str) (frame : str) :
  preserves (same_files F) (write frame).
Proof. intros w H. exact H. Qed.

Lemma send_sse_data_same_files (F : gmap str str) (data_dict : list (str * json)) :
  preserves (same_files F) (send_sse_data data_dict).
Proof.
  unfold send_sse_data. auto 10 using write_same_files with preserves.
Qed.

Lemma for_blocks_same_files (F : gmap str str) (event : json)
    (body : json -> M world unit) :
  (forall block, preserves (same_files F) (body block)) ->
  preserves (same_files F) (for_blocks event body).
Proof. intros Hb. unfold for_blocks. auto 10 with preserves. Qed.

Lemma send_event_same_files (F : gmap str str) (event : json) :
  preserves (same_files F) (send_event event).
Proof.
  unfold send_event.
  repeat (apply preserves_bind; [solve [auto with preserves] | intros ?]).
  auto 12 using send_sse_data_same_files, for_blocks_same_files with preserves.
Qed.

Lemma draw_bot_send_event_same_files (F : gmap str str) (event : json) :
  preserves (same_files F) (draw_bot_send_event event).
Proof.
  unfold draw_bot_send_event.
  repeat (apply preserves_bind; [solve [auto with preserves] | intros ?]).
  auto 12 using send_sse_data_same_files, for_blocks_same_files with preserves.
Qed.

Lemma spawn_same_files (F : gmap str str) (cmd : list str) :
  preserves (same_files F) (spawn cmd).
Proof. intros w H. exact H. Qed.

(** An adapter run whose callback leaves the files alone leaves them
    alone. *)
Lemma call_claude_streaming_same_files (F : gmap str str) (prompt : str)
    (skip : bool) (f : json -> M world unit) :
  (forall event, preserves (same_files F) (f event)) ->
  preserves (same_files F) (call_claude_streaming prompt skip (Some f)).
Proof.
  intros Hf. unfold call_claude_streaming.
  apply preserves_bind; [apply spawn_same_files | intros proc].
  apply preserves_bind; [|auto with preserves].
  apply preserves_stream_events. intros g [= <-]. exact Hf.
Qed.

End HandlerFacts.

Section FailurePath.
Context `{RT : Runtime} `{EV : Env}.

(** What follows a failed run, for either handler. *)
Lemma complete_failure (v : variant) (user_message : str) (result : json)
    (rc : Z) (err : str) (w : world) :
  rc <> 0 \/ truthy result = false ->
  complete v user_message result rc err w =
  (Ok tt,
   set_wire
     (fun l => l ++ [error_frame
                       (bounded_escaped (if nonempty err then err
                                         else lit "No response"))]) w).
Proof.
  intros H. unfold complete.
  assert (Hc : negb (rc =? 0) || negb (truthy result) = true).
  { destruct H as [H|H].
    - destruct (Z.eqb_spec rc 0); [contradiction | reflexivity].
    - rewrite H. apply orb_true_r. }
  rewrite Hc. reflexivity.
Qed.

(** C4.  When the run of the adapter for a request ends with an exit code
    other than zero, or with an empty result, [handle_message_stream]
    leaves the world as the run left it but for one more frame on the
    wire, given here character by character (code 34 is the double quote,
    10 the newline, 92 the backslash): the text
    [data: {"type":"error","message":"M"}] and two newlines.  The message
    [M] is made from the first 500 characters of the standard error (of
    the text "No response" when the standard error is empty) by writing
    each double quote as a backslash and a double quote and each newline
    as a backslash and the letter n; any other character, a backslash or
    a carriage return too, is copied as it is, so that [M] has at most
    1000 characters.  The files, hence the history, are those of before
    the request. *)
Theorem failed_run_error_frame (d : list (str * json)) (m prompt : str)
    (w w1 : world) (result : json) (rc : Z) (err : str) :
  assoc (lit "message") d = Some (JStr m) ->
  strip m <> [] ->
  build_prompt (files w) WEB_USER_ID (strip m) = Ok prompt ->
  call_claude_streaming prompt true (Some send_event) w = (Ok (result, rc, err), w1) ->
  rc <> 0 \/ truthy result = false ->
  let text :=
    match err with
    | [] => list_ascii_of_string "No response"
    | _ :: _ => err
    end in
  let message :=
    concat (map (fun c : ascii =>
                   if Ascii.eqb c "034" then ["092"; "034"]%char
                   else if Ascii.eqb c "010" then ["092"; "n"]%char
                   else [c])
                (take 500 text)) in
  let frame :=
    list_ascii_of_string "data: {" ++ ["034"%char] ++ list_ascii_of_string "type" ++
    ["034"%char] ++ list_ascii_of_string ":" ++ ["034"%char] ++
    list_ascii_of_string "error" ++ ["034"%char] ++ list_ascii_of_string "," ++
    ["034"%char] ++ list_ascii_of_string "message" ++ ["034"%char] ++
    list_ascii_of_string ":" ++ ["034"%char] ++ message ++ ["034"%char] ++
    list_ascii_of_string "}" ++ ["010"; "010"]%char in
  handle_message_stream (Ok (JObj d)) w =
    {| files := files w; wire := wire w1 ++ [frame];
       spawned := spawned w1; tick := tick w1 |} /\
  (length message <= 1000)%nat.
Proof.
  intros Hm Hnb Hprompt Hrun Hfail text message frame.
  set (error_msg := if nonempty err then err else lit "No response").
  assert (Hbody : stream_body chat (Ok (JObj d)) w =
                  (Ok tt, set_wire (fun l => l ++ [error_frame (bounded_escaped error_msg)]) w1)).
  { unfold stream_body. unfold bind at 1. unfold lift at 1.
    unfold bind at 1. unfold lift at 1. cbn [py_get rbind]. rewrite Hm.
    cbn [py_strip]. destruct (strip m) as [|c um] eqn:Hs; [congruence|].
    cbn [nonempty negb]. unfold bind at 1. cbn [chat prompt_builder event_sender].
    rewrite Hprompt. unfold bind at 1. rewrite Hrun.
    apply complete_failure. exact Hfail. }
  assert (Hfiles : files w1 = files w).
  { pose proof (call_claude_streaming_same_files (files w) prompt true send_event
                  (send_event_same_files (files w)) w eq_refl) as H.
    rewrite Hrun in H. exact H. }
  assert (Htext : error_msg = text) by (unfold error_msg, text; destruct err; reflexivity).
  assert (Hmessage : bounded_escaped error_msg = message).
  { rewrite bounded_escaped_chars, Htext. reflexivity. }
  unfold handle_message_stream. rewrite (with_handlers_ok _ _ _ Hbody). cbn [snd].
  split.
  - rewrite error_frame_text, Hmessage. unfold set_wire. rewrite Hfiles. reflexivity.
  - rewrite <- Hmessage.
    destruct (bounded_escaped_spec error_msg) as (_ & _ & _ & _ & H). exact H.
Qed.

End FailurePath.

Lemma failed_run_error_frame_witness :
  wire (handle_message_stream (RT := ref_runtime) (EV := failing_deployment)
          (Ok (JObj hello_request)) empty_world) =
  [list_ascii_of_string "data: {" ++ ["034"%char] ++ list_ascii_of_string "type" ++
   ["034"%char] ++ list_ascii_of_string ":" ++ ["034"%char] ++
   list_ascii_of_string "error" ++ ["034"%char] ++ list_ascii_of_string "," ++
   ["034"%char] ++ list_ascii_of_string "message" ++ ["034"%char] ++
   list_ascii_of_string ":" ++ ["034"%char] ++ list_ascii_of_string "boom" ++
   ["034"%char] ++ list_ascii_of_string "}" ++ ["010"; "010"]%char] /\
  files (handle_message_stream (RT := ref_runtime) (EV := failing_deployment)
           (Ok (JObj hello_request)) empty_world) = files empty_world.
Proof.
  destruct (failed_run_error_frame (RT := ref_runtime) (EV := failing_deployment)
              hello_request (lit "hello") hello_prompt empty_world
              (snd (call_claude_streaming (RT := ref_runtime)
                      (EV := failing_deployment) hello_prompt true
                      (Some (send_event (RT := ref_runtime))) empty_world))
              (JStr []) 1 (lit "boom"))
    as (H & _).
  - reflexivity.
  - vm_compute. discriminate.
  - vm_compute. reflexivity.
  - vm_compute. reflexivity.
  - left. discriminate.
  - rewrite H. cbn [wire files]. split; [|reflexivity].
    vm_compute. reflexivity.
Defined.

(** A standard error that holds a double quote, a newline, a backslash and
    a carriage return: the first two are escaped, the last two go out as
    they are. *)
Example bounded_escaped_sample :
  bounded_escaped ["a"; "034"; "010"; "092"; "013"; "b"]%char =
  ["a"; "092"; "034"; "092"; "n"; "092"; "013"; "b"]%char.
Proof. reflexivity. Qed.

(** The scenario as the client sees it: one frame, the error frame. *)
Example failed_run_wire :
  wire (handle_message_stream (RT := ref_runtime) (EV := failing_deployment)
          (Ok (JObj hello_request)) empty_world) =
  [error_frame (lit "boom")].
Proof. vm_compute. reflexivity. Qed.


(** ** Image serving *)

Section ImageFacts.
Context `{EV : Env}.

(** A path that starts with neither root string, or that names no file, is
    answered 404. *)
Lemma handle_image_rejects (fs : gmap str str) (path : str) :
  path <> [] ->
  (startswith (resolve path) (resolve DOWNLOADS_DIR) = false /\
   startswith (resolve path) (resolve REPO_ROOT) = false) \/
  path_exists fs (resolve path) = false ->
  handle_image fs (Some path) = Response 404 (lit "File not found or not allowed").
Proof.
  intros Hne H. unfold handle_image.
  change (default [] (Some path)) with path.
  assert (Hp : negb (nonempty path) = false)
    by (destruct path; [congruence | reflexivity]).
  rewrite Hp. cbn [existsb].
  destruct H as [[H1 H2] | H].
  - rewrite H1, H2. reflexivity.
  - rewrite H, orb_true_r. reflexivity.
Qed.

End ImageFacts.

(** C9 (at a path next to the root).  The file lies under neither
    allow-listed root, and [handle_image] serves it: the test compares the
    strings of the paths, and "/srv/thinx-private/id.png" starts with
    "/srv/thinx". *)
Theorem handle_image_serves_outside_roots :
  is_relative_to (resolve (Env := ref_deployment) stray_path)
                 (resolve (Env := ref_deployment) (DOWNLOADS_DIR (Env := ref_deployment)))
    = false /\
  is_relative_to (resolve (Env := ref_deployment) stray_path)
                 (resolve (Env := ref_deployment) (REPO_ROOT (Env := ref_deployment)))
    = false /\
  handle_image (EV := ref_deployment) stray_files (Some stray_path) =
    FileResponse stray_path.
Proof. repeat split; vm_compute; reflexivity. Qed.

(** A path under a root is recognised as such by [is_relative_to]. *)
Example is_relative_to_sample :
  is_relative_to (lit "/srv/thinx/thinxai-web/downloads/a.png") (lit "/srv/thinx") = true /\
  is_relative_to (lit "/srv/thinx") (lit "/srv/thinx") = true /\
  is_relative_to (lit "/srv/thinx-private") (lit "/srv/thinx") = false.
Proof. repeat split; vm_compute; reflexivity. Qed.

(** ** Keep-alive ticker *)

Section KeepAlive.
Local Open Scope Q_scope.

Lemma frames_keep (start now : Q) (frames : list Q) (s : session) :
  during (now + 5) frames ->
  last_event_time s = hd start (writes s) ->
  gaps_below 9 start (writes s) ->
  now - 4 < last_event_time s -> last_event_time s <= now + 5 ->
  let s1 := fold_left (fun s t => send_frame t s) frames s in
  last_event_time s1 = hd start (writes s1) /\
  gaps_below 9 start (writes s1) /\
  now - 4 < last_event_time s1 /\ last_event_time s1 <= now + 5.
Proof.
  intros Hd. revert s. induction Hd as [|t frames [Hlo Hhi] _ IH];
    intros s Hhd Hg Hl Hu.
  - cbn. auto.
  - cbn [fold_left]. apply IH; cbn [send_frame last_event_time writes hd].
    + reflexivity.
    + cbn [gaps_below]. split; [|exact Hg]. rewrite <- Hhd. lra.
    + lra.
    + lra.
Qed.

Lemma wake_keeps (start now : Q) (s : session) :
  last_event_time s = hd start (writes s) ->
  gaps_below 9 start (writes s) ->
  now - 4 < last_event_time s -> last_event_time s <= now + 5 ->
  ticked start (now + 5) (keep_alive_wake (now + 5) s).
Proof.
  intros Hhd Hg Hl Hu. unfold keep_alive_wake, ticked.
  destruct (Qle_bool 4 (now + 5 - last_event_time s)) eqn:E.
  - cbn [last_event_time writes hd gaps_below]. rewrite <- Hhd.
    repeat split; try lra; exact Hg.
  - assert (~ 4 <= now + 5 - last_event_time s)
      by (rewrite <- Qle_bool_iff, E; discriminate).
    repeat split; try assumption; lra.
Qed.

Lemma keep_alive_run_ticked (start now : Q) (periods : list (list Q)) (s : session) :
  well_timed (now + 5) periods ->
  ticked start now s ->
  ticked start (now + 5 * inject_Z (Z.of_nat (length periods)))
    (keep_alive_run (now + 5) periods s).
Proof.
  revert now s. induction periods as [|frames rest IH]; intros now s Hw Ht.
  - cbn [keep_alive_run]. change (inject_Z (Z.of_nat (length (@nil (list Q))))) with 0.
    destruct Ht as (H1 & H2 & H3 & H4).
    repeat split; try assumption; lra.
  - destruct Hw as [Hd Hrest]. destruct Ht as (H1 & H2 & H3 & H4).
    cbn [keep_alive_run].
    destruct (frames_keep start now frames s Hd H1 H2 H3 ltac:(lra))
      as (F1 & F2 & F3 & F4).
    pose proof (wake_keeps start now _ F1 F2 F3 F4) as Hk.
    specialize (IH (now + 5) _ Hrest Hk).
    destruct IH as (I1 & I2 & I3 & I4).
    assert (Heq : now + 5 + 5 * inject_Z (Z.of_nat (length rest)) ==
                  now + 5 * inject_Z (Z.of_nat (length (frames :: rest)))).
    { cbn [length]. rewrite Nat2Z.inj_succ, <- Z.add_1_r, inject_Z_plus.
      change (inject_Z 1) with 1. ring. }
    repeat split; try assumption.
    + rewrite <- Heq. exact I3.
    + rewrite <- Heq. exact I4.
Qed.

(** C8 (as amended).  With a ticker that wakes every 5 time units and
    pings when at least 4 units have passed since the last frame, every
    write on the stream comes less than 9 units (the interval plus the
    threshold) after the write before it, the first one less than 9 units
    after the start, whenever the assistant makes the relay send its
    frames; and when the ticker has just run, the last write is less than
    4 units old. *)
Theorem keep_alive_gap_bound (start : Q) (periods : list (list Q)) :
  well_timed (start + 5) periods ->
  let s := keep_alive_run (start + 5) periods (new_session start) in
  gaps_below 9 start (writes s) /\
  start + 5 * inject_Z (Z.of_nat (length periods)) - hd start (writes s) < 4.
Proof.
  intros Hw s.
  destruct (keep_alive_run_ticked start start periods (new_session start) Hw)
    as (H1 & H2 & H3 & H4).
  - unfold ticked, new_session. cbn. repeat split; lra.
  - fold s in H1, H2, H3, H4. split; [exact H2|]. rewrite <- H1. lra.
Qed.

Lemma keep_alive_gap_bound_witness :
  gaps_below 9 0 (writes (keep_alive_run (0 + 5) one_early_frame (new_session 0))) /\
  0 + 5 * inject_Z (Z.of_nat (length one_early_frame)) -
    hd 0 (writes (keep_alive_run (0 + 5) one_early_frame (new_session 0))) < 4.
Proof.
  apply (keep_alive_gap_bound 0 one_early_frame).
  cbn. repeat split; try constructor; try lra. constructor.
Defined.

Lemma keep_alive_gap_exceeds_interval_counterexample :
  well_timed (0 + 5) one_early_frame /\
  writes (keep_alive_run (0 + 5) one_early_frame (new_session 0)) = [0 + 5 + 5; 2] /\
  ~ gaps_below 5 0 (writes (keep_alive_run (0 + 5) one_early_frame (new_session 0))).
Proof.
  split; [|split].
  - cbn. repeat split; try constructor; try lra. constructor.
  - reflexivity.
  - change (writes (keep_alive_run (0 + 5) one_early_frame (new_session 0)))
      with [0 + 5 + 5; 2].
    cbn [gaps_below hd]. intros [H _]. lra.
Qed.

End KeepAlive.

(** ** The reference codec reads back what it writes

    The entries of the history store go through [ref_dumps] and
    [ref_loads] unchanged, whatever their texts. *)

Lemma no_lf_app (a b : str) : no_lf (a ++ b) = no_lf a && no_lf b.
Proof. apply forallb_app. Qed.

Lemma no_lf_elem (s : str) : no_lf s = true -> LF ∉ s.
Proof.
  induction s as [|c s IH]; cbn; [intros _; apply not_elem_of_nil|].
  intros H. apply andb_true_iff in H as [Hc Hs]. apply not_elem_of_cons. split; [|auto].
  intros <-. rewrite chr_eqb_refl in Hc. discriminate.
Qed.

Lemma escape_chr_no_lf (c : ascii) : no_lf (escape_chr c) = true.
Proof. destruct c as [[] [] [] [] [] [] [] []]; reflexivity. Qed.

Lemma quote_no_lf (s : str) : no_lf (quote s) = true.
Proof.
  unfold quote. rewrite !no_lf_app. cbn [no_lf forallb]. 
  assert (no_lf (concat (map escape_chr s)) = true).
  { induction s as [|c s IH]; [reflexivity|]. cbn [map concat]. rewrite no_lf_app, escape_chr_no_lf, IH. reflexivity. }
  rewrite H. reflexivity.
Qed.

Lemma parse_chars_escape_chr (c : ascii) (rest : str) :
  parse_chars (escape_chr c ++ rest) =
  match parse_chars rest with
  | Some (t, r) => Some (c :: t, r)
  | None => None
  end.
Proof. destruct c as [[] [] [] [] [] [] [] []]; reflexivity. Qed.

Lemma parse_chars_escaped (s rest : str) :
  parse_chars (concat (map escape_chr s) ++ DQUOTE :: rest) = Some (s, rest).
Proof.
  induction s as [|c s IH]; [reflexivity|].
  cbn [map concat]. rewrite <- app_assoc, parse_chars_escape_chr, IH. reflexivity.
Qed.

Lemma parse_value_string (f : nat) (s rest : str) :
  parse_value (S f) (quote s ++ rest) = Some (JStr s, rest).
Proof.
  unfold quote. rewrite <- !app_assoc. cbn [app parse_value].
  change (chr_eqb DQUOTE DQUOTE) with true. cbv iota.
  rewrite parse_chars_escaped. reflexivity.
Qed.

Lemma skip_ws_quote (s rest : str) : skip_ws (quote s ++ rest) = quote s ++ rest.
Proof. reflexivity. Qed.

(** One member of an object followed by a comma and another member. *)
Lemma parse_members_more (f : nat) (acc : list (str * json)) (k v more : str) :
  parse_members (S (S f)) acc (quote k ++ lit ": " ++ quote v ++ lit ", " ++ more) =
  parse_members (S f) (dict_set k (JStr v) acc) (skip_ws more).
Proof.
  unfold quote at 1. rewrite <- !app_assoc. cbn [app].
  remember (S f) as f1. cbn [parse_members].
  change (chr_eqb DQUOTE DQUOTE) with true. cbv iota.
  rewrite parse_chars_escaped.
  change (skip_ws (lit ": " ++ quote v ++ lit ", " ++ more))
    with (":"%char :: " "%char :: quote v ++ lit ", " ++ more).
  cbv iota. change (chr_eqb ":" ":") with true. cbv iota.
  change (skip_ws (" "%char :: quote v ++ lit ", " ++ more))
    with (quote v ++ lit ", " ++ more).
  subst f1. rewrite parse_value_string.
  change (skip_ws (lit ", " ++ more)) with (","%char :: " "%char :: more).
  cbv iota. change (chr_eqb "," ",") with true. cbv iota.
  reflexivity.
Qed.

(** The last member of an object. *)
Lemma parse_members_last (f : nat) (acc : list (str * json)) (k v rest : str) :
  parse_members (S (S f)) acc (quote k ++ lit ": " ++ quote v ++ lit "}" ++ rest) =
  Some (JObj (dict_set k (JStr v) acc), rest).
Proof.
  unfold quote at 1. rewrite <- !app_assoc. cbn [app].
  remember (S f) as f1. cbn [parse_members].
  change (chr_eqb DQUOTE DQUOTE) with true. cbv iota.
  rewrite parse_chars_escaped.
  change (skip_ws (lit ": " ++ quote v ++ lit "}" ++ rest))
    with (":"%char :: " "%char :: quote v ++ lit "}" ++ rest).
  cbv iota. change (chr_eqb ":" ":") with true. cbv iota.
  change (skip_ws (" "%char :: quote v ++ lit "}" ++ rest))
    with (quote v ++ lit "}" ++ rest).
  subst f1. rewrite parse_value_string.
  change (skip_ws (lit "}" ++ rest)) with ("}"%char :: rest).
  cbv iota. change (chr_eqb "}" ",") with false. change (chr_eqb "}" "}") with true.
  cbv iota. reflexivity.
Qed.

Lemma ref_dumps_entry (r c t : str) :
  ref_dumps (history_entry r c t) =
  lit "{" ++ quote (lit "role") ++ lit ": " ++ quote r ++ lit ", " ++
  quote (lit "content") ++ lit ": " ++ quote c ++ lit ", " ++
  quote (lit "timestamp") ++ lit ": " ++ quote t ++ lit ", " ++
  quote (lit "source") ++ lit ": " ++ quote (lit "web") ++ lit "}".
Proof.
  unfold history_entry. cbn [ref_dumps map join fst snd].
  rewrite <- !app_assoc. reflexivity.
Qed.

Lemma entry_parses (f : nat) (r c t rest : str) :
  parse_value (6 + f) (ref_dumps (history_entry r c t) ++ rest) =
  Some (history_entry r c t, rest).
Proof.
  rewrite ref_dumps_entry. rewrite <- !app_assoc.
  change (6 + f)%nat with (S (S (S (S (S (S f)))))).
  remember (S (S (S (S (S f))))) as F.
  change (lit "{" ++ ?x) with ("{"%char :: x).
  cbn [parse_value].
  change (chr_eqb "{" DQUOTE) with false. change (chr_eqb "{" "{") with true. cbv iota.
  rewrite skip_ws_quote. unfold quote at 1. cbn [app].
  change (chr_eqb DQUOTE "}") with false. cbv iota.
  change (DQUOTE :: (concat (map escape_chr (lit "role")) ++ [DQUOTE]) ++ ?x)
    with (quote (lit "role") ++ x).
  subst F.
  rewrite parse_members_more, skip_ws_quote.
  rewrite parse_members_more, skip_ws_quote.
  rewrite parse_members_more, skip_ws_quote.
  rewrite parse_members_last. reflexivity.
Qed.

Lemma ref_loads_entry (r c t : str) :
  ref_loads (ref_dumps (history_entry r c t) ++ [LF]) = Ok (history_entry r c t).
Proof.
  unfold ref_loads.
  assert (Hlen : exists n, length (ref_dumps (history_entry r c t) ++ [LF]) = (5 + n)%nat).
  { rewrite ref_dumps_entry. unfold quote. rewrite !length_app. cbn [length lit list_ascii_of_string].
    eexists. rewrite <- !Nat.add_assoc. cbn [Nat.add]. reflexivity. }
  destruct Hlen as [n ->].
  assert (Hws : skip_ws (ref_dumps (history_entry r c t) ++ [LF]) =
                ref_dumps (history_entry r c t) ++ [LF]).
  { rewrite ref_dumps_entry. reflexivity. }
  rewrite Hws. change (S (5 + n)) with (6 + n)%nat. rewrite entry_parses. reflexivity.
Qed.

Lemma ref_dumps_entry_no_lf (r c t : str) : no_lf (ref_dumps (history_entry r c t)) = true.
Proof.
  rewrite ref_dumps_entry. rewrite !no_lf_app, !quote_no_lf. reflexivity.
Qed.

Lemma strip_nonblank (s : str) :
  existsb (fun c => negb (is_space c)) s = true -> nonempty (strip s) = true.
Proof.
  assert (Hl : forall l, existsb (fun c => negb (is_space c)) l = true ->
                    existsb (fun c => negb (is_space c)) (lstrip_with is_space l) = true).
  { induction l as [|c l IH]; [discriminate|]. cbn [existsb lstrip_with].
    destruct (is_space c) eqn:E; cbn [negb orb]; [exact IH|].
    intros _. cbn [existsb]. rewrite E. reflexivity. }
  assert (Hr : forall l, existsb (fun c => negb (is_space c)) l = true ->
                    nonempty (rstrip_with is_space l) = true).
  { induction l as [|c l IH]; [discriminate|]. cbn [existsb rstrip_with].
    destruct (rstrip_with is_space l) as [|d r]; [|reflexivity].
    destruct (is_space c); cbn [negb orb]; [|reflexivity].
    intros H. specialize (IH H). discriminate IH. }
  intros H. unfold strip, strip_with. apply Hr, Hl, H.
Qed.

Lemma ref_reads_back (r c t : str) :
  reads_back (RT := ref_runtime) (history_entry r c t).
Proof.
  split; [|split].
  - apply no_lf_elem, ref_dumps_entry_no_lf.
  - apply strip_nonblank. unfold log_line. cbn [json_dumps ref_runtime].
    rewrite ref_dumps_entry. reflexivity.
  - apply ref_loads_entry.
Qed.

(** With the reference runtime the entries appended to a fresh log are read
    back, the most recent [limit] of them in the order of the calls, for
    every positive limit. *)
Lemma ref_load_history_after_saves `{EV : Env} (user_id : str)
    (turns : list (str * str)) (w : world) (limit : Z) :
  files w !! get_history_path user_id = None ->
  0 < limit ->
  load_history (RT := ref_runtime)
    (files (snd (save_all (RT := ref_runtime) user_id turns w))) user_id limit =
  drop (length turns - Z.to_nat (Z.min limit (len turns)))
       (entries_of (tick w) turns).
Proof.
  intros Hnew Hpos. apply load_history_after_saves; [exact Hnew | | exact Hpos].
  generalize (tick w). induction turns as [|turn turns IH]; intros t; cbn [entries_of].
  - constructor.
  - constructor; [apply ref_reads_back | apply IH].
Qed.

(** ** A successful request, end to end

    The message "hello", no delta, a result event with the text
    "hi there" and the exit code 0: the client receives the response frame
    and the done frame, and the history gains the two turns. *)

Example hello_scenario :
  wire (handle_message_stream (RT := ref_runtime) (EV := greeting_deployment)
          (Ok (JObj hello_request)) empty_world) =
    [response_frame (RT := ref_runtime) (lit "hi there"); done_frame] /\
  load_history (RT := ref_runtime) (EV := greeting_deployment)
    (files (handle_message_stream (RT := ref_runtime) (EV := greeting_deployment)
              (Ok (JObj hello_request)) empty_world))
    WEB_USER_ID 100 =
    [history_entry (lit "user") (lit "hello") (ref_clock 0);
     history_entry (lit "assistant") (lit "hi there") (ref_clock 1)] /\
  spawned (handle_message_stream (RT := ref_runtime) (EV := greeting_deployment)
             (Ok (JObj hello_request)) empty_world) =
    [claude_cmd hello_prompt true].
Proof. repeat split; vm_compute; reflexivity. Qed.

(** ** History store: limits, appending, blank lines *)

Lemma slice_from_suffix {A} (k : Z) (l : list A) : slice_from k l `suffix_of` l.
Proof. unfold slice_from. apply suffix_drop. Qed.

Lemma slice_from_neg_length {A} (k : Z) (l : list A) :
  0 < k -> (length (slice_from (- k) l) <= Z.to_nat k)%nat.
Proof.
  intros Hk. rewrite slice_from_neg_last by exact Hk.
  rewrite length_drop. unfold len. lia.
Qed.

Lemma slice_from_neg_mono {A} (k k' : Z) (l : list A) :
  0 < k -> k <= k' -> slice_from (- k) l `suffix_of` slice_from (- k') l.
Proof.
  intros Hk Hk'. rewrite !slice_from_neg_last by lia. unfold len.
  set (n := length l).
  replace (n - Z.to_nat (Z.min k (Z.of_nat n)))%nat
    with ((n - Z.to_nat (Z.min k' (Z.of_nat n))) +
          (Z.to_nat (Z.min k' (Z.of_nat n)) - Z.to_nat (Z.min k (Z.of_nat n))))%nat
    by lia.
  rewrite <- drop_drop. apply suffix_drop.
Qed.

(** X1.  With a positive limit, [load_history] returns at most [limit]
    entries, whatever the log holds, and what it returns for a limit is
    the tail of what it returns for any greater limit. *)
Theorem load_history_within_limit `{RT : Runtime} `{EV : Env}
    (fs : gmap str str) (user_id : str) (limit : Z) :
  0 < limit ->
  (length (load_history fs user_id limit) <= Z.to_nat limit)%nat /\
  (forall greater, limit <= greater ->
     load_history fs user_id limit `suffix_of` load_history fs user_id greater).
Proof.
  intros Hpos. rewrite load_history_log_of. split.
  - destruct (read_messages _ _) as [ms|e]; [|cbn; lia].
    apply slice_from_neg_length, Hpos.
  - intros greater Hg. rewrite load_history_log_of.
    destruct (read_messages _ _) as [ms|e]; [|reflexivity].
    apply slice_from_neg_mono; assumption.
Qed.

Lemma load_history_within_limit_witness :
  (length (load_history (RT := ref_runtime) (EV := ref_deployment)
             (files (snd (save_all (RT := ref_runtime) (EV := ref_deployment)
                            WEB_USER_ID two_turns empty_world)))
             WEB_USER_ID 1) <= Z.to_nat 1)%nat.
Proof.
  apply (load_history_within_limit (RT := ref_runtime) (EV := ref_deployment)
           (files (snd (save_all (RT := ref_runtime) (EV := ref_deployment)
                          WEB_USER_ID two_turns empty_world)))
           WEB_USER_ID 1).
  reflexivity.
Defined.

Lemma readlines_nonempty (s : str) : s <> [] -> readlines s <> [].
Proof.
  destruct s as [|c s]; [congruence|]. intros _. cbn [readlines].
  destruct (chr_eqb c LF); [discriminate|].
  destruct (readlines s); discriminate.
Qed.

Lemma closed_log_tail (c : ascii) (s : str) :
  closed_log (c :: s) -> (s = [] /\ c = LF) \/ (s <> [] /\ closed_log s).
Proof.
  intros [H | [t H]]; [discriminate|].
  destruct t as [|d t]; cbn in H.
  - injection H as -> <-. left. auto.
  - injection H as -> ->. right. split.
    + destruct t; discriminate.
    + right. eauto.
Qed.

(** Reading a closed log and a text after it: the lines of the one, then
    the lines of the other. *)
Lemma readlines_app (a b : str) :
  closed_log a -> readlines (a ++ b) = readlines a ++ readlines b.
Proof.
  induction a as [|c a IH]; intros Ha; [reflexivity|].
  apply closed_log_tail in Ha as [[-> ->] | [Hne Ha]].
  - reflexivity.
  - cbn [app readlines]. rewrite (IH Ha).
    destruct (chr_eqb c LF); [reflexivity|].
    pose proof (readlines_nonempty a Hne) as Hr.
    destruct (readlines a) as [|l ls]; [congruence | reflexivity].
Qed.

Section HistoryMore.
Context `{RT : Runtime} `{EV : Env}.

Lemma read_messages_app (l1 l2 : list str) (acc : list json) :
  read_messages (l1 ++ l2) acc =
  rbind (read_messages l1 acc) (fun messages => read_messages l2 messages).
Proof.
  revert acc. induction l1 as [|l l1 IH]; intros acc; [reflexivity|].
  cbn [app read_messages]. destruct (nonempty (strip l)); [|apply IH].
  destruct (json_loads l) as [v|e]; [apply IH | reflexivity].
Qed.

Lemma log_of_save_message (user_id role content : str) (w : world) :
  log_of (files (snd (save_message user_id role content w))) user_id =
  log_of (files w) user_id ++
  log_line (history_entry role content (clock (tick w))).
Proof.
  unfold save_message, log_of, append_file. cbn [snd files].
  rewrite lookup_insert_eq. reflexivity.
Qed.

(** X2.  One more entry on a log.  When the log of an identity is empty
    or ends with a newline and reads as the entries [old], and the codec
    reads back the new entry, then after [save_message] the log reads as
    [old] followed by the new entry: [load_history] with a positive limit
    returns the last [limit] of these, the new entry last.  The log again
    ends with a newline. *)
Theorem save_message_then_load (user_id role content : str) (w : world)
    (old : list json) (limit : Z) :
  closed_log (log_of (files w) user_id) ->
  read_messages (readlines (log_of (files w) user_id)) [] = Ok old ->
  reads_back (history_entry role content (clock (tick w))) ->
  0 < limit ->
  let entry := history_entry role content (clock (tick w)) in
  let w' := snd (save_message user_id role content w) in
  load_history (files w') user_id limit = slice_from (- limit) (old ++ [entry]) /\
  last (load_history (files w') user_id limit) = Some entry /\
  closed_log (log_of (files w') user_id).
Proof.
  intros Hclosed Hold Hrb Hpos entry w'. fold entry in Hrb.
  destruct Hrb as (Hnl & Hnb & Hrt).
  assert (Hload : load_history (files w') user_id limit =
                  slice_from (- limit) (old ++ [entry])).
  { rewrite load_history_log_of. unfold w'. rewrite log_of_save_message.
    rewrite readlines_app by exact Hclosed. rewrite read_messages_app, Hold.
    cbn [rbind]. fold entry. unfold log_line.
    unfold log_line in Hnb, Hrt.
    rewrite <- (app_nil_r (json_dumps entry ++ [LF])), <- app_assoc.
    cbn [app]. rewrite readlines_line by exact Hnl. cbn [readlines read_messages].
    rewrite Hnb, Hrt. reflexivity. }
  split; [exact Hload|]. split.
  - rewrite Hload, slice_from_neg_last by exact Hpos.
    unfold len. rewrite length_app. cbn [length].
    rewrite drop_app_le by lia. apply last_snoc.
  - right. unfold w'. rewrite log_of_save_message. unfold log_line.
    exists (log_of (files w) user_id ++ json_dumps (history_entry role content (clock (tick w)))).
    rewrite app_assoc. reflexivity.
Qed.

(** What [load_history] reads depends on the lines of the log that are
    not blank only. *)
Lemma read_messages_nonblank (lines : list str) (acc : list json) :
  read_messages lines acc = read_messages (List.filter nonblank lines) acc.
Proof.
  revert acc. induction lines as [|l lines IH]; intros acc; [reflexivity|].
  cbn [read_messages List.filter]. unfold nonblank at 1.
  destruct (nonempty (strip l)) eqn:E.
  - cbn [read_messages]. rewrite E.
    destruct (json_loads l); cbn [rbind]; [apply IH | reflexivity].
  - apply IH.
Qed.

(** X3.  [load_history] passes over blank lines: two logs whose lines
    that are not blank are the same are read alike, whatever the limit. *)
Theorem load_history_ignores_blank_lines (fs fs' : gmap str str)
    (user_id : str) (limit : Z) :
  List.filter nonblank (readlines (log_of fs user_id)) =
  List.filter nonblank (readlines (log_of fs' user_id)) ->
  load_history fs user_id limit = load_history fs' user_id limit.
Proof.
  intros H. rewrite !load_history_log_of.
  rewrite (read_messages_nonblank (readlines (log_of fs user_id))), H.
  rewrite <- read_messages_nonblank. reflexivity.
Qed.

End HistoryMore.

(** ** Assistant process adapter: lines that are skipped, lines that
    end the run, forwarding *)

Section AdapterLines.
Context `{RT : Runtime} {St : Type}.
Variable on_event : option (json -> M St unit).

(** The adapter run seen on the whole output. *)
Lemma stream_events_whole (chunks : list bytes) (s : St) :
  Forall (fun c => c <> []) chunks ->
  stream_events on_event chunks s =
  let '(_, a) :=
    try_except
      (let* buffer := drain on_event (concat chunks) in
       process_residual on_event buffer)
      any_exception (fun _ => ret tt) {| result_text := JStr []; cb := s |} in
  (Ok (result_text a), cb a).
Proof.
  intros Hne. unfold stream_events, try_except, bind.
  rewrite read_loop_concat by (auto; reflexivity). reflexivity.
Qed.

Lemma drain_line (line rest : bytes) (a : adapter St) :
  x0a ∉ line ->
  drain on_event (line ++ x0a :: rest) a =
  (process_line on_event line ;; drain on_event rest) a.
Proof. intros H. rewrite drain_step, split_nl_line by exact H. reflexivity. Qed.

(** The inner loop over complete lines, whatever they hold. *)
Lemma drain_lines (ls : list bytes) (tail : bytes) (a : adapter St) :
  Forall (fun l => x0a ∉ l) ls ->
  drain on_event (terminated_lines ls ++ tail) a =
  (for_each ls (process_line on_event) ;; drain on_event tail) a.
Proof.
  intros H. revert a. induction H as [|l ls Hl _ IH]; intros a.
  - reflexivity.
  - unfold terminated_lines. cbn [map concat for_each].
    rewrite <- !app_assoc. cbn [app]. rewrite drain_line by exact Hl.
    unfold bind. destruct (process_line on_event l a) as [[[]|e] a1];
      [|reflexivity].
    rewrite IH. reflexivity.
Qed.

Lemma process_line_fatal (line : bytes) (a : adapter St) :
  fatal line -> exists e, process_line on_event line a = (Raise e, a).
Proof.
  intros (_ & Hnb & H). unfold process_line. rewrite Hnb. cbn [negb].
  unfold try_except. unfold bind at 1. unfold lift at 1.
  destruct H as [(e & Hdec & He) | (text & v & Hdec & Hload & Hv)].
  - rewrite Hdec, He. eauto.
  - rewrite Hdec. unfold bind at 1. unfold lift at 1. rewrite Hload.
    unfold extract_delta. unfold bind at 1 2. unfold lift at 1.
    destruct v; try discriminate; cbn [py_get is_json_decode_error]; eauto.
Qed.

End AdapterLines.

(** X4.  A complete line of the output that is blank, or that is not a
    JSON document, has no effect: the run goes as if the line were not in
    the output, for the text returned and for the callback. *)
Theorem junk_line_is_skipped `{RT : Runtime} {St : Type}
    (on_event : option (json -> M St unit)) (with_junk without : list bytes)
    (s : St) (before : list bytes) (junk after : bytes) :
  Forall (fun c => c <> []) with_junk ->
  Forall (fun c => c <> []) without ->
  Forall (fun l => x0a ∉ l) before ->
  skipped junk ->
  concat with_junk = terminated_lines before ++ junk ++ [x0a] ++ after ->
  concat without = terminated_lines before ++ after ->
  stream_events on_event with_junk s = stream_events on_event without s.
Proof.
  intros H1 H2 Hb (Hnl & Hj) E1 E2.
  rewrite !stream_events_whole by assumption. rewrite E1, E2.
  unfold try_except, bind. rewrite !drain_lines by exact Hb. unfold bind.
  destruct (for_each before (process_line on_event) _) as [[[]|e] a1];
    [|reflexivity].
  cbn [app]. rewrite drain_line by exact Hnl. unfold bind.
  rewrite (process_line_skipped on_event junk a1 Hj). reflexivity.
Qed.

(** X5.  A complete line that cannot be decoded as text, or that holds a
    JSON value other than an object, ends the run: the exception is caught
    around the whole loop, so the text returned and the state of the
    callback are those of the output cut before this line, whatever
    follows it. *)
Theorem fatal_line_ends_the_run `{RT : Runtime} {St : Type}
    (on_event : option (json -> M St unit)) (chunks cut : list bytes)
    (s : St) (before : list bytes) (bad after : bytes) :
  Forall (fun c => c <> []) chunks ->
  Forall (fun c => c <> []) cut ->
  Forall (fun l => x0a ∉ l) before ->
  fatal bad ->
  concat chunks = terminated_lines before ++ bad ++ [x0a] ++ after ->
  concat cut = terminated_lines before ->
  stream_events on_event chunks s = stream_events on_event cut s.
Proof.
  intros H1 H2 Hb Hbad E1 E2.
  rewrite !stream_events_whole by assumption. rewrite E1, E2.
  rewrite <- (app_nil_r (terminated_lines before)) at 2.
  unfold try_except, bind. rewrite !drain_lines by exact Hb. unfold bind.
  destruct (for_each before (process_line on_event) _) as [[[]|e] a1];
    [|reflexivity].
  cbn [app]. rewrite drain_line by (destruct Hbad as [H _]; exact H).
  unfold bind.
  destruct (process_line_fatal on_event bad a1 Hbad) as [e ->].
  rewrite drain_step. reflexivity.
Qed.

Section Forwarding.
Context `{RT : Runtime} {St : Type}.
Variable on_event : option (json -> M St unit).

(** The run over lines that carry well-typed events the callback
    accepts: the text and the state of the callback. *)
Lemma stream_events_carried (chunks : list bytes) (s : St)
    (lines : list bytes) (events : list json) (ks : list kind)
    (terminated : bool) :
  Forall (fun c => c <> []) chunks ->
  concat chunks = stream_of lines terminated ->
  Forall2 carries lines events ->
  map kind_of events = map Some ks ->
  Forall (accepts on_event) events ->
  snd (stream_events on_event chunks s) = pushed_all on_event events s.
Proof.
  intros Hne Hcat Hcar Hks Hacc.
  rewrite stream_events_whole by exact Hne. rewrite Hcat.
  unfold try_except, bind.
  destruct terminated.
  - rewrite stream_of_terminated, <- (app_nil_r (terminated_lines lines)).
    rewrite (drain_carried on_event lines events ks [] [] s Hcar Hks Hacc).
    rewrite drain_step. cbn [split_nl ret]. reflexivity.
  - destruct lines as [|l0 lines0] eqn:El.
    { inversion Hcar; subst. cbn [stream_of]. rewrite drain_step. reflexivity. }
    rewrite <- El in *.
    assert (Hlines : lines <> []) by (rewrite El; discriminate).
    clear El l0 lines0.
    destruct (exists_last Hlines) as (init & l & ->).
    apply Forall2_app_inv_l in Hcar as (ev & ev1 & Hcar & Hcar1 & ->).
    inversion Hcar1 as [|? e ? ? Hl Hnil]; subst. inversion Hnil; subst.
    rewrite map_app in Hks. cbn [map] in Hks.
    assert (Hsplit : exists ks0 k, ks = ks0 ++ [k] /\
                       map kind_of ev = map Some ks0 /\ kind_of e = Some k).
    { destruct (exists_last (l := ks)) as (ks0 & k & ->).
      - intros ->. destruct ev; discriminate Hks.
      - rewrite map_app in Hks. cbn [map] in Hks.
        apply app_inj_tail in Hks as [H1 H2]. eauto. }
    destruct Hsplit as (ks0 & k & -> & Hks0 & Hk).
    apply Forall_app in Hacc as [Hacc Hacc1].
    inversion Hacc1 as [|? ? Ha _]; subst.
    rewrite stream_of_unterminated.
    rewrite (drain_carried on_event init ev ks0 l [] s Hcar Hks0 Hacc).
    rewrite drain_step.
    assert (Hnl : split_nl l = None)
      by (apply split_nl_none; destruct Hl as [H _]; exact H).
    rewrite Hnl. cbn [ret].
    rewrite (process_residual_carried on_event l e k _ _ Hl Hk Ha).
    cbn [snd cb]. unfold pushed_all. rewrite fold_left_app. reflexivity.
Qed.

End Forwarding.

Lemma pushed_all_record (events seen : list json) :
  pushed_all (Some record_event) events seen = seen ++ events.
Proof.
  unfold pushed_all. revert seen. induction events as [|e es IH]; intros seen.
  - cbn. rewrite app_nil_r. reflexivity.
  - cbn [fold_left pushed record_event snd]. rewrite IH, <- app_assoc. reflexivity.
Qed.

(** X6.  When the lines of the output carry well-typed events that the
    callback accepts, every event reaches the callback, once and in the
    order of the output, the event of a last line without newline
    included. *)
Theorem events_are_forwarded_in_order `{RT : Runtime} {St : Type}
    (on_event : option (json -> M St unit)) (chunks : list bytes) (s : St)
    (lines : list bytes) (events : list json) (ks : list kind)
    (terminated : bool) :
  Forall (fun c => c <> []) chunks ->
  concat chunks = stream_of lines terminated ->
  Forall2 carries lines events ->
  map kind_of events = map Some ks ->
  Forall (accepts on_event) events ->
  snd (stream_events on_event chunks s) = pushed_all on_event events s /\
  decoded_events chunks = events.
Proof.
  intros Hne Hcat Hcar Hks Hacc. split.
  - eapply stream_events_carried; eassumption.
  - unfold decoded_events.
    rewrite (stream_events_carried (Some record_event) chunks [] lines events ks
               terminated Hne Hcat Hcar Hks).
    + apply pushed_all_record.
    + apply Forall_forall. intros e _ seen. reflexivity.
Qed.

Section CallbackFailure.
Context `{RT : Runtime} {St : Type}.
Variable f : json -> M St unit.

(** Text extraction on a well-typed event. *)
Lemma extraction_body (event : json) (k : kind) (x : str) (s : St) :
  kind_of event = Some k ->
  (extract_delta event ;; extract_result event)
    {| result_text := JStr x; cb := s |} =
  (Ok tt, {| result_text := JStr (advance k x); cb := s |}).
Proof.
  intros Hk.
  pose proof (event_body (St := St) None event k x s Hk I) as H.
  unfold bind in *. cbn [forward pushed ret] in H.
  destruct (extract_delta event _) as [[[]|e1] a1]; [|discriminate H].
  destruct (extract_result event a1) as [[[]|e2] a2]; [|discriminate H].
  exact H.
Qed.

Lemma process_line_callback_fails (line : bytes) (event : json) (k : kind)
    (x : str) (s : St) (ex : exn) :
  carries line event -> kind_of event = Some k ->
  fst (f event s) = Raise ex -> is_json_decode_error ex = false ->
  process_line (Some f) line {| result_text := JStr x; cb := s |} =
  (Raise ex, {| result_text := JStr (advance k x); cb := snd (f event s) |}).
Proof.
  intros (_ & Hnb & text & Hdec & Hload) Hk Hf Hex.
  unfold process_line. rewrite Hnb. cbn [negb]. unfold try_except.
  unfold bind at 1. unfold lift at 1. rewrite Hdec.
  unfold bind at 1. unfold lift at 1. rewrite Hload.
  pose proof (extraction_body event k x s Hk) as Hb. unfold bind in *.
  destruct (extract_delta event _) as [[[]|e1] a1]; [|discriminate Hb].
  rewrite Hb. cbn [forward result_text cb].
  destruct (f event s) as [r s']. cbn [fst snd] in *. subst r.
  rewrite Hex. reflexivity.
Qed.

End CallbackFailure.

(** X7.  When the callback raises on an event (anything but a JSON
    decoding error), the run ends there without raising: the text of that
    event has been taken already, no later line is read, and the function
    returns the text collected so far. *)
Theorem callback_failure_ends_the_run `{RT : Runtime} {St : Type}
    (f : json -> M St unit) (chunks : list bytes) (s : St)
    (lines : list bytes) (events : list json) (ks : list kind)
    (line : bytes) (event : json) (k : kind) (ex : exn) (after : bytes) :
  Forall (fun c => c <> []) chunks ->
  concat chunks = terminated_lines lines ++ line ++ [x0a] ++ after ->
  Forall2 carries lines events ->
  map kind_of events = map Some ks ->
  Forall (accepts (Some f)) events ->
  carries line event ->
  kind_of event = Some k ->
  (forall s, fst (f event s) = Raise ex) ->
  is_json_decode_error ex = false ->
  stream_events (Some f) chunks s =
  (Ok (JStr (advance_all (ks ++ [k]) [])),
   snd (f event (pushed_all (Some f) events s))).
Proof.
  intros Hne Hcat Hcar Hks Hacc Hl Hk Hf Hex.
  rewrite stream_events_whole by exact Hne. rewrite Hcat.
  unfold try_except, bind.
  rewrite (drain_carried (Some f) lines events ks _ [] s Hcar Hks Hacc).
  cbn [app]. rewrite drain_line by (destruct Hl as [H _]; exact H).
  unfold bind.
  rewrite (process_line_callback_fails f line event k _ _ ex Hl Hk (Hf _) Hex).
  cbn [any_exception ret result_text cb]. unfold advance_all, pushed_all.
  rewrite fold_left_app. reflexivity.
Qed.

(** ** What the handlers leave unchanged *)

Lemma extends_wire_refl (w : world) : extends_wire w w.
Proof. exists []. symmetry. apply set_wire_nil. Qed.

Lemma extends_wire_write (w0 w : world) (frame : str) :
  extends_wire w0 w -> extends_wire w0 (set_wire (fun l => l ++ [frame]) w).
Proof. intros [frames ->]. exists (frames ++ [frame]). apply set_wire_app. Qed.

Lemma writes_only_run {A} (m : M world A) (w : world) :
  writes_only m -> extends_wire w (snd (m w)).
Proof. intros H. apply H, extends_wire_refl. Qed.

Lemma writes_only_keeps {A} (m : M world A) (P : world -> Prop) :
  writes_only m ->
  (forall w frames, P w -> P (set_wire (fun l => l ++ frames) w)) ->
  preserves P m.
Proof.
  intros Hm HP w Hw. destruct (writes_only_run m w Hm) as [frames ->].
  apply HP, Hw.
Qed.

Lemma write_extends_wire (w0 : world) (frame : str) :
  preserves (extends_wire w0) (write frame).
Proof. intros w H. apply extends_wire_write, H. Qed.

Lemma writes_only_write (frame : str) : writes_only (write frame).
Proof. intros w0. apply write_extends_wire. Qed.

Section Footprint.
Context `{RT : Runtime} `{EV : Env}.

Lemma send_sse_data_extends_wire (w0 : world) (data_dict : list (str * json)) :
  preserves (extends_wire w0) (send_sse_data data_dict).
Proof.
  unfold send_sse_data. auto 10 using write_extends_wire with preserves.
Qed.

Lemma for_blocks_extends_wire (w0 : world) (event : json)
    (body : json -> M world unit) :
  (forall block, preserves (extends_wire w0) (body block)) ->
  preserves (extends_wire w0) (for_blocks event body).
Proof. intros Hb. unfold for_blocks. auto 10 with preserves. Qed.

Lemma writes_only_send_event (event : json) : writes_only (send_event event).
Proof.
  intros w0. unfold send_event.
  repeat (apply preserves_bind; [solve [auto with preserves] | intros ?]).
  auto 12 using send_sse_data_extends_wire, for_blocks_extends_wire with preserves.
Qed.

Lemma writes_only_draw_bot_send_event (event : json) :
  writes_only (draw_bot_send_event event).
Proof.
  intros w0. unfold draw_bot_send_event.
  repeat (apply preserves_bind; [solve [auto with preserves] | intros ?]).
  auto 12 using send_sse_data_extends_wire, for_blocks_extends_wire with preserves.
Qed.

Lemma writes_only_stream_events (f : json -> M world unit) (chunks : list bytes) :
  (forall event, writes_only (f event)) ->
  writes_only (stream_events (Some f) chunks).
Proof.
  intros Hf w0. apply preserves_stream_events.
  intros g [= <-] event. apply Hf.
Qed.

Lemma writes_only_send_final (result : str) : writes_only (send_final result).
Proof.
  intros w0. unfold send_final.
  auto 10 using write_extends_wire with preserves.
Qed.

Lemma writes_only_sender (v : variant) (event : json) :
  v = chat \/ v = draw_bot -> writes_only (event_sender v event).
Proof.
  intros [-> | ->]; [apply writes_only_send_event | apply writes_only_draw_bot_send_event].
Qed.

(** The except clauses write at most one frame. *)
Lemma with_handlers_keeps (P : world -> Prop) (body : M world unit) :
  (forall w frames, P w -> P (set_wire (fun l => l ++ frames) w)) ->
  preserves P body -> preserves P (with_handlers body).
Proof.
  intros HP Hb. unfold with_handlers.
  apply preserves_try_except.
  - apply preserves_try_except; [exact Hb | intros e; apply preserves_ret].
  - intros e. apply preserves_if; [apply preserves_ret|].
    apply preserves_try_except; [|intros e'; apply preserves_ret].
    apply writes_only_keeps; [apply writes_only_write | exact HP].
Qed.

Lemma save_message_files_but (F : gmap str str) (user_id role content : str) :
  preserves (files_but F (get_history_path user_id))
            (save_message user_id role content).
Proof.
  intros w H p Hp. unfold save_message, append_file. cbn [snd files].
  rewrite lookup_insert_ne by congruence. apply H, Hp.
Qed.

(** What a streaming handler does to a property of the world that the
    frames written do not bear on. *)
Lemma stream_body_keeps (P : world -> Prop) (v : variant) (request_json : res json) :
  v = chat \/ v = draw_bot ->
  (forall w frames, P w -> P (set_wire (fun l => l ++ frames) w)) ->
  (forall cmd, preserves P (spawn cmd)) ->
  (forall role content, preserves P (save_message (history_id v) role content)) ->
  preserves P (stream_body v request_json).
Proof.
  intros Hv HP Hspawn Hsave. unfold stream_body.
  apply preserves_bind; [apply preserves_lift | intros data].
  apply preserves_bind; [apply preserves_lift | intros user_message].
  apply preserves_if.
  { apply writes_only_keeps; [apply writes_only_write | exact HP]. }
  apply preserves_bind; [intros w H; exact H | intros full_prompt].
  apply preserves_bind.
  { unfold call_claude_streaming.
    apply preserves_bind; [apply Hspawn | intros proc].
    apply preserves_bind.
    - apply writes_only_keeps; [|exact HP].
      apply writes_only_stream_events. intros event.
      apply writes_only_sender, Hv.
    - intros result_text.
      apply preserves_bind; [apply preserves_lift | intros err; apply preserves_ret]. }
  intros [[result rc] err]. unfold complete.
  apply preserves_if.
  { apply writes_only_keeps; [apply writes_only_write | exact HP]. }
  apply preserves_bind; [apply preserves_lift | intros cleaned_result].
  apply preserves_bind; [apply Hsave | intros _].
  apply preserves_bind; [apply Hsave | intros _].
  apply preserves_bind.
  { apply writes_only_keeps; [apply writes_only_send_final | exact HP]. }
  intros _. apply preserves_when.
  apply writes_only_keeps; [apply writes_only_write | exact HP].
Qed.

Lemma history_paths_differ :
  get_history_path WEB_USER_ID <> get_history_path (WEB_USER_ID ++ lit "_draw_bot").
Proof.
  unfold get_history_path, path_join.
  change (startswith (WEB_USER_ID ++ lit ".jsonl") (lit "/")) with false.
  change (startswith ((WEB_USER_ID ++ lit "_draw_bot") ++ lit ".jsonl") (lit "/"))
    with false.
  cbv iota. intros H. apply app_inv_head in H. discriminate H.
Qed.

(** X8.  The chat handler changes no file but the chat log, the Draw Bot
    handler no file but the Draw Bot log, and the two logs are different
    files: neither handler touches the history of the other, whatever the
    request, the output of the assistant and the outcome. *)
Theorem handlers_keep_to_their_log (request_json : res json) (w : world) :
  files_but (files w) (get_history_path WEB_USER_ID)
    (handle_message_stream request_json w) /\
  files_but (files w) (get_history_path (WEB_USER_ID ++ lit "_draw_bot"))
    (handle_draw_bot_stream request_json w) /\
  log_of (files (handle_message_stream request_json w))
         (WEB_USER_ID ++ lit "_draw_bot") =
    log_of (files w) (WEB_USER_ID ++ lit "_draw_bot") /\
  log_of (files (handle_draw_bot_stream request_json w)) WEB_USER_ID =
    log_of (files w) WEB_USER_ID.
Proof.
  assert (H : forall v, v = chat \/ v = draw_bot ->
            files_but (files w) (get_history_path (history_id v))
              (snd (with_handlers (stream_body v request_json) w))).
  { intros v Hv.
    apply (with_handlers_keeps (files_but (files w) (get_history_path (history_id v)))).
    - intros w1 frames H1. exact H1.
    - apply stream_body_keeps; try exact Hv.
      + intros w1 frames H1. exact H1.
      + intros cmd w1 H1. exact H1.
      + intros role content. apply save_message_files_but.
    - intros p _. reflexivity. }
  pose proof (H chat (or_introl eq_refl)) as Hc.
  pose proof (H draw_bot (or_intror eq_refl)) as Hd.
  cbn [history_id chat draw_bot] in Hc, Hd.
  split; [exact Hc|]. split; [exact Hd|]. unfold log_of. split.
  - rewrite Hc; [reflexivity|]. intros E. symmetry in E. revert E.
    apply history_paths_differ.
  - rewrite Hd; [reflexivity|]. apply history_paths_differ.
Qed.

(** X9.  A request with a message, for which a prompt is built, starts
    one assistant process and one only, whatever happens next: its command
    line has the prompt after [-p] and skips the permissions. *)
Theorem one_assistant_process_per_request (v : variant) (d : list (str * json))
    (m prompt : str) (w : world) :
  v = chat \/ v = draw_bot ->
  assoc (lit "message") d = Some (JStr m) ->
  strip m <> [] ->
  prompt_builder v (files w) WEB_USER_ID (strip m) = Ok prompt ->
  spawned (snd (with_handlers (stream_body v (Ok (JObj d))) w)) =
  spawned w ++
  [[lit "claude"; lit "--output-format"; lit "stream-json"; lit "--verbose";
    lit "-p"; prompt; lit "--dangerously-skip-permissions"]].
Proof.
  intros Hv Hm Hnb Hprompt.
  set (X := spawned w ++ [claude_cmd prompt true]).
  change (spawned (snd (with_handlers (stream_body v (Ok (JObj d))) w)) = X).
  set (P := fun w1 : world => spawned w1 = X).
  assert (HP : forall w1 frames, P w1 -> P (set_wire (fun l => l ++ frames) w1))
    by (intros w1 frames H1; exact H1).
  unfold with_handlers.
  set (body := stream_body v (Ok (JObj d))).
  assert (Hbody : P (snd (body w))).
  { unfold body, stream_body. unfold bind at 1. unfold lift at 1.
    unfold bind at 1. unfold lift at 1. cbn [py_get rbind]. rewrite Hm.
    cbn [py_strip]. destruct (strip m) as [|c um] eqn:Hs; [congruence|].
    cbn [nonempty negb]. unfold bind at 1. rewrite Hprompt.
    unfold bind at 1. unfold call_claude_streaming at 1.
    unfold bind at 1. unfold spawn at 1.
    set (w1 := {| files := files w; wire := wire w;
                  spawned := spawned w ++ [claude_cmd prompt true];
                  tick := tick w |}).
    set (proc := assistant (length (spawned w)) (claude_cmd prompt true)).
    assert (H1 : P w1) by reflexivity.
    assert (Hrest : preserves P
              (let* result_text :=
                 stream_events (Some (event_sender v)) (stdout_chunks proc) in
               let* err := lift (decode_stderr (stderr proc)) in
               ret (result_text, returncode proc, err))).
    { apply preserves_bind.
      - apply writes_only_keeps; [|exact HP].
        apply writes_only_stream_events. intros event.
        apply writes_only_sender, Hv.
      - intros result_text.
        apply preserves_bind; [apply preserves_lift | intros err; apply preserves_ret]. }
    specialize (Hrest w1 H1).
    destruct ((let* result_text :=
                 stream_events (Some (event_sender v)) (stdout_chunks proc) in
               let* err := lift (decode_stderr (stderr proc)) in
               ret (result_text, returncode proc, err)) w1)
      as [[[[result rc] err]|e] w2]; [|exact Hrest].
    cbn [snd] in Hrest.
    assert (Hc : preserves P (complete v (c :: um) result rc err)).
    { unfold complete. apply preserves_if.
      { apply writes_only_keeps; [apply writes_only_write | exact HP]. }
      apply preserves_bind; [apply preserves_lift | intros cleaned_result].
      apply preserves_bind; [intros w3 H3; exact H3 | intros _].
      apply preserves_bind; [intros w3 H3; exact H3 | intros _].
      apply preserves_bind.
      { apply writes_only_keeps; [apply writes_only_send_final | exact HP]. }
      intros _. apply preserves_when.
      apply writes_only_keeps; [apply writes_only_write | exact HP]. }
    apply Hc, Hrest. }
  unfold try_except.
  destruct (body w) as [[[]|e] w2]; cbn [snd] in *; [exact Hbody|].
  destruct (is_disconnect e); cbn [ret snd]; [exact Hbody|].
  cbn [any_exception].
  destruct (_ || _); cbn [ret snd write]; exact Hbody.
Qed.

End Footprint.

(** ** Outcomes of a request *)

Section Outcomes.
Context `{RT : Runtime} `{EV : Env}.



Lemma render_turn_ok (msg : json) :
  has_turn_fields msg = true -> exists t, render_turn msg = Ok t.
Proof.
  destruct msg as [| | | | |d]; try discriminate.
  unfold render_turn. cbn [has_turn_fields py_index].
  destruct (assoc (lit "role") d); [|discriminate].
  destruct (assoc (lit "content") d); [|discriminate]. cbn [rbind]. eauto.
Qed.

Lemma render_turn_raises (msg : json) :
  has_turn_fields msg = false ->
  render_turn msg = Raise KeyError \/ render_turn msg = Raise TypeError.
Proof.
  destruct msg as [| | | | |d]; try (right; reflexivity).
  unfold render_turn. cbn [has_turn_fields py_index].
  destruct (assoc (lit "role") d); [|left; reflexivity].
  destruct (assoc (lit "content") d); [discriminate | left; reflexivity].
Qed.

Lemma map_res_render (turns : list json) :
  if forallb has_turn_fields turns
  then exists ts, map_res render_turn turns = Ok ts
  else map_res render_turn turns = Raise KeyError \/
       map_res render_turn turns = Raise TypeError.
Proof.
  induction turns as [|msg turns IH]; cbn [forallb map_res]; [eauto|].
  destruct (has_turn_fields msg) eqn:E; cbn [andb].
  - destruct (render_turn_ok msg E) as [t ->]. cbn [rbind].
    destruct (forallb has_turn_fields turns).
    + destruct IH as [ts ->]. cbn. eauto.
    + destruct IH as [-> | ->]; cbn; auto.
  - destruct (render_turn_raises msg E) as [-> | ->]; cbn; auto.
Qed.

Lemma history_block_outcome (history : list json) (window : Z) :
  if forallb has_turn_fields (slice_from (- window) history)
  then exists block, history_block history window = Ok block
  else history_block history window = Raise KeyError \/
       history_block history window = Raise TypeError.
Proof.
  unfold history_block. destruct history as [|msg history].
  - unfold slice_from. rewrite drop_nil. cbn. eauto.
  - cbn [nonempty]. pose proof (map_res_render (slice_from (- window) (msg :: history))) as H.
    destruct (forallb _ _).
    + destruct H as [ts ->]. cbn. eauto.
    + destruct H as [-> | ->]; cbn; auto.
Qed.

(** X11.  [build_prompt] returns a prompt exactly when each of the last
    10 entries it has loaded is an object with a role and a content;
    otherwise the subscript raises, [KeyError] for a missing field and
    [TypeError] for an entry that is not an object. *)
Theorem build_prompt_needs_role_and_content (fs : gmap str str)
    (user_id message : str) :
  if forallb has_turn_fields (slice_from (- 10) (load_history fs user_id 20))
  then exists prompt, build_prompt fs user_id message = Ok prompt
  else build_prompt fs user_id message = Raise KeyError \/
       build_prompt fs user_id message = Raise TypeError.
Proof.
  unfold build_prompt.
  pose proof (history_block_outcome (load_history fs user_id 20) 10) as H.
  destruct (forallb _ _).
  - destruct H as [block ->]. cbn. eauto.
  - destruct H as [-> | ->]; cbn; auto.
Qed.


(** A successful run: the two turns are saved, then the answer is
    sent. *)
Lemma complete_success (v : variant) (user_message raw err : str) (w : world) :
  raw <> [] ->
  complete v user_message (JStr raw) 0 err w =
  (send_final (cleaned raw) ;; when (sends_done v) (write done_frame))
    (snd (save_message (history_id v) (lit "assistant") (cleaned raw)
            (snd (save_message (history_id v) (lit "user") user_message w)))).
Proof. destruct raw as [|c raw]; [congruence | reflexivity]. Qed.

Lemma writes_only_answer (v : variant) (answer : str) :
  writes_only (send_final answer ;; when (sends_done v) (write done_frame)).
Proof.
  intros w0. apply preserves_bind; [apply writes_only_send_final | intros _].
  apply preserves_when, write_extends_wire.
Qed.

(** The log of the handler after a successful run. *)
Lemma complete_success_log (v : variant) (user_message raw err : str) (w : world) :
  raw <> [] ->
  log_of (files (snd (complete v user_message (JStr raw) 0 err w))) (history_id v) =
    log_of (files w) (history_id v) ++
    log_line (history_entry (lit "user") user_message (clock (tick w))) ++
    log_line (history_entry (lit "assistant") (cleaned raw) (clock (S (tick w)))).
Proof.
  intros Hraw. rewrite complete_success by exact Hraw.
  set (w2 := snd (save_message _ _ _ _)).
  destruct (writes_only_run _ w2 (writes_only_answer v (cleaned raw))) as [frames ->].
  cbn [set_wire files]. unfold w2. rewrite !log_of_save_message.
  cbn [save_message snd tick]. rewrite <- app_assoc. reflexivity.
Qed.

(** X13.  What a successful run leaves behind, for either handler: the
    message of the user, then the cleaned answer, each on a line of the
    handler's own log, stamped by two successive readings of the clock; no
    other file is changed and no process is started. *)
Theorem successful_run_is_recorded (v : variant) (user_message raw err : str)
    (w : world) :
  raw <> [] ->
  let w' := snd (complete v user_message (JStr raw) 0 err w) in
  log_of (files w') (history_id v) =
    log_of (files w) (history_id v) ++
    log_line (history_entry (lit "user") user_message (clock (tick w))) ++
    log_line (history_entry (lit "assistant") (cleaned raw) (clock (S (tick w)))) /\
  files_but (files w) (get_history_path (history_id v)) w' /\
  spawned w' = spawned w /\
  tick w' = S (S (tick w)).
Proof.
  intros Hraw w'. split; [apply complete_success_log, Hraw|].
  unfold w'. rewrite complete_success by exact Hraw.
  set (w2 := snd (save_message _ _ _ _)).
  destruct (writes_only_run _ w2 (writes_only_answer v (cleaned raw))) as [frames ->].
  cbn [set_wire files spawned tick]. unfold w2. cbn [save_message snd files spawned tick].
  split; [|split; reflexivity].
  intros p Hp. unfold append_file. cbn [set_wire files].
  rewrite !(lookup_insert_ne _ _ p) by congruence.
  reflexivity.
Qed.


End Outcomes.

Lemma replace_chr_length (c d : ascii) (s : str) :
  length (replace_chr c [d] s) = length s.
Proof.
  induction s as [|x s IH]; [reflexivity|]. cbn [replace_chr].
  rewrite length_app, IH. destruct (chr_eqb x c); reflexivity.
Qed.

Lemma replace_chr_removes (c d : ascii) (s : str) :
  c <> d -> c ∉ replace_chr c [d] s.
Proof.
  intros Hcd. induction s as [|x s IH]; [apply not_elem_of_nil|].
  cbn [replace_chr]. destruct (chr_eqb x c) eqn:E; cbn [app];
    apply not_elem_of_cons; split; try exact IH.
  - exact Hcd.
  - intros <-. rewrite chr_eqb_refl in E. discriminate E.
Qed.

(** X15.  The preview sent for a tool result has at most 103
    characters and holds no newline, whatever the result; so the cut at
    150 characters that follows removes nothing. *)
Theorem tool_result_preview_is_short (result_content : json) :
  (length (brief_of result_content) <= 103)%nat /\
  (LF ∉ brief_of result_content) /\
  take 150 (brief_of result_content) = brief_of result_content.
Proof.
  assert (H : (length (brief_of result_content) <= 103)%nat /\
              (LF ∉ brief_of result_content)).
  { destruct result_content as [| | |t| |]; cbn [brief_of];
      try (split; [apply Nat.leb_le; reflexivity | apply no_lf_elem; reflexivity]).
    destruct (Z.ltb_spec 100 (len t)) as [Hlong|Hshort].
    - split.
      + rewrite length_app, (replace_chr_length LF " "), length_take.
        change (length (lit "...")) with 3%nat. lia.
      + rewrite elem_of_app. intros [H|H].
        * revert H. apply replace_chr_removes. discriminate.
        * revert H. apply no_lf_elem. reflexivity.
    - split.
      + rewrite (replace_chr_length LF " "). unfold len in Hshort. lia.
      + apply replace_chr_removes. discriminate. }
  destruct H as [Hlen Hnl]. split; [exact Hlen|]. split; [exact Hnl|].
  apply take_ge. lia.
Qed.

(** ** Prompt assembler *)

Lemma join_cons (sep p : str) (ps : list str) :
  ps <> [] -> join sep (p :: ps) = p ++ sep ++ join sep ps.
Proof. destruct ps; [congruence | reflexivity]. Qed.

Lemma join_snoc (sep : str) (ps : list str) (p : str) :
  ps <> [] -> join sep (ps ++ [p]) = join sep ps ++ sep ++ p.
Proof.
  induction ps as [|q ps IH]; [congruence|]. intros _.
  destruct ps as [|r ps]; [reflexivity|].
  change ((q :: r :: ps) ++ [p]) with (q :: ((r :: ps) ++ [p])).
  rewrite join_cons by (destruct ps; discriminate).
  rewrite IH by discriminate.
  rewrite (join_cons sep q (r :: ps)) by discriminate.
  rewrite <- !app_assoc. reflexivity.
Qed.

(** A prompt put together from a first part, parts in between and the
    message of the user. *)
Lemma join_frame (first : str) (between : list str) (final : str) :
  exists mid, join [LF; LF] ([first] ++ between ++ [final]) =
              first ++ mid ++ [LF; LF] ++ final.
Proof.
  rewrite app_assoc, join_snoc by discriminate.
  destruct between as [|b bs].
  - exists []. reflexivity.
  - exists ([LF; LF] ++ join [LF; LF] (b :: bs)).
    cbn [app]. rewrite join_cons by discriminate.
    rewrite <- !app_assoc. reflexivity.
Qed.

Section PromptFacts.
Context `{RT : Runtime} `{EV : Env}.

(** X16.  Whatever the memory, the profile and the history hold, a
    prompt that is built begins with the system instructions of its
    handler and ends with the message of the user, as given, after a
    blank line. *)
Theorem prompt_begins_and_ends (fs : gmap str str) (user_id message : str)
    (prompt : str) :
  (build_prompt fs user_id message = Ok prompt ->
   exists mid,
     prompt = chat_system_instructions ++ mid ++ [LF; LF] ++
              lit "User message: " ++ message) /\
  (build_draw_bot_prompt fs user_id message = Ok prompt ->
   exists mid,
     prompt = draw_bot_system_instructions ++ mid ++ [LF; LF] ++
              lit "User message: " ++ message).
Proof.
  split.
  - unfold build_prompt.
    destruct (history_block (load_history fs user_id 20) 10) as [block|e];
      [|discriminate].
    cbn [rbind]. intros [= <-].
    destruct (fs !! MEMORY_PATH) as [memory_content|].
    + rewrite <- app_assoc. apply (join_frame _ (_ :: block)).
    + apply (join_frame _ block).
  - unfold build_draw_bot_prompt.
    destruct (history_block (load_history fs (user_id ++ lit "_draw_bot") 10) 6)
      as [block|e]; [|discriminate].
    cbn [rbind]. intros [= <-].
    destruct (fs !! DRAW_BOT_PROFILE) as [profile_content|].
    + rewrite <- !app_assoc. apply (join_frame _ (_ :: _ :: block)).
    + rewrite <- !app_assoc. apply (join_frame _ (_ :: block)).
Qed.

Lemma drop_entries_of (k t : nat) (turns : list (str * str)) :
  drop k (entries_of t turns) = entries_of (t + k) (drop k turns).
Proof.
  revert t turns. induction k as [|k IH]; intros t turns.
  - rewrite Nat.add_0_r. reflexivity.
  - destruct turns as [|turn turns]; [reflexivity|].
    cbn [drop entries_of]. rewrite IH. f_equal. lia.
Qed.

Lemma map_res_entries (t : nat) (turns : list (str * str)) :
  map_res render_turn (entries_of t turns) =
  Ok (map (fun turn => fst turn ++ lit ": " ++ snd turn) turns).
Proof.
  revert t. induction turns as [|turn turns IH]; intros t; [reflexivity|].
  cbn [entries_of map_res map]. rewrite IH. reflexivity.
Qed.

(** The transcript of the turns saved on a fresh log: the last [window]
    of the last [limit] loaded. *)
Lemma history_block_after_saves (user_id : str) (turns : list (str * str))
    (w : world) (limit window : Z) :
  files w !! get_history_path user_id = None ->
  Forall reads_back (entries_of (tick w) turns) ->
  turns <> [] ->
  0 < window <= limit ->
  history_block
    (load_history (files (snd (save_all user_id turns w))) user_id limit) window =
  Ok [transcript (last_n (Z.to_nat window) turns)].
Proof.
  intros Hnew Hrb Hne Hwin.
  rewrite load_history_after_saves by (auto; lia).
  unfold history_block.
  set (n := length turns).
  assert (Hn : (0 < n)%nat) by (destruct turns; [congruence | cbn; lia]).
  set (k := (n - Z.to_nat (Z.min limit (len turns)))%nat).
  assert (Hk : (k < n)%nat) by (unfold k, len; fold n; lia).
  assert (Hnonempty : nonempty (drop k (entries_of (tick w) turns)) = true).
  { destruct (drop k (entries_of (tick w) turns)) eqn:E; [|reflexivity].
    apply (f_equal length) in E. rewrite length_drop, length_entries_of in E.
    fold n in E. cbn in E. lia. }
  rewrite Hnonempty.
  rewrite slice_from_neg_last by lia.
  rewrite drop_drop. unfold len. rewrite length_drop, length_entries_of. fold n.
  replace (k + (n - k - Z.to_nat (Z.min window (Z.of_nat (n - k)))))%nat
    with (n - Z.to_nat window)%nat by (unfold k, len; fold n; lia).
  rewrite drop_entries_of, map_res_entries. reflexivity.
Qed.

(** X17.  The turns saved on a fresh log come back in the chat prompt:
    the last 10 of them, one per line as role and content, in the order in
    which they were saved, between the memory and the message. *)
Theorem prompt_shows_last_ten_turns (user_id message : str)
    (turns : list (str * str)) (w : world) :
  files w !! get_history_path user_id = None ->
  Forall reads_back (entries_of (tick w) turns) ->
  turns <> [] ->
  let fs := files (snd (save_all user_id turns w)) in
  build_prompt fs user_id message =
  Ok (join [LF; LF]
        ([chat_system_instructions] ++ memory_block fs ++
         [transcript (last_n 10 turns)] ++
         [lit "User message: " ++ message])).
Proof.
  intros Hnew Hrb Hne fs. subst fs. unfold build_prompt.
  rewrite (history_block_after_saves user_id turns w 20 10) by (auto; lia).
  cbn [rbind]. unfold memory_block.
  destruct (_ !! MEMORY_PATH); reflexivity.
Qed.

(** X18.  The same for the Draw Bot, whose log is that of the identity
    with the suffix "_draw_bot": the last 6 turns, after the profile and
    the instructions on diagrams. *)
Theorem draw_bot_prompt_shows_last_six_turns (user_id message : str)
    (turns : list (str * str)) (w : world) :
  files w !! get_history_path (user_id ++ lit "_draw_bot") = None ->
  Forall reads_back (entries_of (tick w) turns) ->
  turns <> [] ->
  let fs := files (snd (save_all (user_id ++ lit "_draw_bot") turns w)) in
  build_draw_bot_prompt fs user_id message =
  Ok (join [LF; LF]
        ([draw_bot_system_instructions] ++ profile_block fs ++
         [diagram_instructions] ++
         [transcript (last_n 6 turns)] ++
         [lit "User message: " ++ message])).
Proof.
  intros Hnew Hrb Hne fs. subst fs. unfold build_draw_bot_prompt.
  rewrite (history_block_after_saves (user_id ++ lit "_draw_bot") turns w 10 6)
    by (auto; lia).
  cbn [rbind]. unfold profile_block.
  destruct (_ !! DRAW_BOT_PROFILE); rewrite <- ?app_assoc; reflexivity.
Qed.

End PromptFacts.

(** ** Cleaning of the answer *)

Lemma startswith_app (s p q : str) :
  startswith s (p ++ q) = true -> startswith s p = true.
Proof.
  revert s. induction p as [|c p IH]; intros s; [destruct s; reflexivity|].
  destruct s as [|d s]; cbn [app startswith]; [discriminate|].
  intros H. apply andb_true_iff in H as [-> H]. apply IH, H.
Qed.

Lemma startswith_prefix (p s : str) : startswith (p ++ s) p = true.
Proof.
  induction p as [|c p IH]; [destruct s; reflexivity|].
  cbn [app startswith]. rewrite chr_eqb_refl. exact IH.
Qed.

Lemma match_check_inbox_head (s : str) (k : nat) :
  match_check_inbox s = Some k -> startswith s (lit "[ACTION:") = true.
Proof.
  unfold match_check_inbox.
  destruct (startswith s (lit "[ACTION:check_inbox")) eqn:E; [|discriminate].
  intros _. apply (startswith_app s (lit "[ACTION:") (lit "check_inbox")), E.
Qed.

Lemma match_send_email_head (s : str) (k : nat) :
  match_send_email s = Some k -> startswith s (lit "[ACTION:") = true.
Proof.
  unfold match_send_email.
  destruct (startswith s (lit "[ACTION:send_email|")) eqn:E; [|discriminate].
  intros _. apply (startswith_app s (lit "[ACTION:") (lit "send_email|")), E.
Qed.

(** A substitution whose pattern matches nowhere leaves the text as it
    is. *)
Lemma re_sub_no_match (match_len : str -> option nat) (head s : str) :
  (forall t k, match_len t = Some k -> startswith t head = true) ->
  contains s head = false -> re_sub match_len s = s.
Proof.
  intros Hm. unfold re_sub. induction s as [|c s IH]; [reflexivity|].
  cbn [contains]. intros H. apply orb_false_iff in H as [Hs Hc].
  cbn [re_sub_go]. destruct (match_len (c :: s)) as [k|] eqn:E.
  - apply Hm in E. congruence.
  - rewrite IH by exact Hc. reflexivity.
Qed.

(** X19.  An answer in which the text "[ACTION:" does not occur is
    only stripped of the whitespace around it. *)
Theorem answer_without_tag_is_kept (result : str) :
  contains result (lit "[ACTION:") = false ->
  cleaned result = strip result.
Proof.
  intros H. unfold cleaned.
  rewrite (re_sub_no_match match_check_inbox (lit "[ACTION:") result
             match_check_inbox_head H).
  rewrite (re_sub_no_match match_send_email (lit "[ACTION:") result
             match_send_email_head H).
  reflexivity.
Qed.

Section Substitution.
Variable match_len : str -> option nat.
Hypothesis match_at_bracket :
  forall c s k, match_len (c :: s) = Some k -> c = OPEN.

Lemma re_sub_go_skip (k : nat) (s : str) :
  re_sub_go match_len k s = re_sub_go match_len 0 (drop k s).
Proof.
  revert k. induction s as [|c s IH]; intros k.
  - rewrite drop_nil. reflexivity.
  - destruct k as [|k]; [reflexivity|]. cbn [re_sub_go drop]. apply IH.
Qed.

(** Before the first bracket nothing is removed. *)
Lemma re_sub_before_bracket (pre rest : str) :
  OPEN ∉ pre -> re_sub match_len (pre ++ rest) = pre ++ re_sub match_len rest.
Proof.
  unfold re_sub. induction pre as [|c pre IH]; intros H; [reflexivity|].
  apply not_elem_of_cons in H as [Hc Hpre].
  cbn [app re_sub_go].
  destruct (match_len (c :: pre ++ rest)) as [k|] eqn:E.
  - apply match_at_bracket in E. congruence.
  - rewrite IH by exact Hpre. reflexivity.
Qed.

Lemma re_sub_no_bracket (s : str) : OPEN ∉ s -> re_sub match_len s = s.
Proof.
  intros H. rewrite <- (app_nil_r s) at 1.
  rewrite re_sub_before_bracket by exact H. unfold re_sub. cbn.
  apply app_nil_r.
Qed.

(** A match at the head is removed. *)
Lemma re_sub_match (s : str) (k : nat) :
  match_len s = Some (S k) -> re_sub match_len s = re_sub match_len (drop (S k) s).
Proof.
  unfold re_sub. destruct s as [|c s]; cbn [re_sub_go drop].
  - intros _. reflexivity.
  - intros ->. apply re_sub_go_skip.
Qed.

(** No match at the head: the first character stays. *)
Lemma re_sub_keep (c : ascii) (s : str) :
  match_len (c :: s) = None ->
  re_sub match_len (c :: s) = c :: re_sub match_len s.
Proof. unfold re_sub. cbn [re_sub_go]. intros ->. reflexivity. Qed.

End Substitution.

Lemma match_check_inbox_bracket (c : ascii) (s : str) (k : nat) :
  match_check_inbox (c :: s) = Some k -> c = OPEN.
Proof.
  intros H. apply match_check_inbox_head in H. cbn [lit list_ascii_of_string startswith] in H.
  apply andb_true_iff in H as [H _]. unfold chr_eqb in H.
  apply Ascii.eqb_eq in H. unfold OPEN. congruence.
Qed.

Lemma match_send_email_bracket (c : ascii) (s : str) (k : nat) :
  match_send_email (c :: s) = Some k -> c = OPEN.
Proof.
  intros H. apply match_send_email_head in H. cbn [lit list_ascii_of_string startswith] in H.
  apply andb_true_iff in H as [H _]. unfold chr_eqb in H.
  apply Ascii.eqb_eq in H. unfold OPEN. congruence.
Qed.

Lemma digits_len_all (digits rest : str) :
  forallb is_digit digits = true ->
  digits_len (digits ++ lit "]" ++ rest) = length digits.
Proof.
  induction digits as [|c ds IH]; intros H; [reflexivity|].
  cbn [forallb] in H. apply andb_true_iff in H as [Hc Hds].
  cbn [app digits_len length]. rewrite Hc, IH by exact Hds. reflexivity.
Qed.

Lemma not_bracket_len_all (args rest : str) :
  "]"%char ∉ args ->
  not_bracket_len (args ++ lit "]" ++ rest) = length args.
Proof.
  induction args as [|c args IH]; intros H; [reflexivity|].
  apply not_elem_of_cons in H as [Hc Hargs].
  cbn [app not_bracket_len length]. rewrite chr_eqb_neq by congruence.
  rewrite IH by exact Hargs. reflexivity.
Qed.

Lemma close_len_bracket (post : str) :
  close_len (lit "]" ++ post) =
  Some (length (lit "]" ++ post) - length (past_newline post))%nat.
Proof.
  destruct post as [|c post]; [reflexivity|].
  cbn [lit list_ascii_of_string app close_len past_newline length].
  rewrite chr_eqb_refl. destruct (chr_eqb c LF); cbn [length]; f_equal; lia.
Qed.

Lemma past_newline_length (post : str) :
  (length (past_newline post) <= length post)%nat.
Proof.
  destruct post as [|c post]; [reflexivity|]. cbn [past_newline].
  destruct (chr_eqb c LF); cbn [length]; lia.
Qed.

Lemma past_newline_drop (post : str) :
  drop (length post - length (past_newline post)) post = past_newline post.
Proof.
  destruct post as [|c post]; [reflexivity|]. cbn [past_newline].
  destruct (chr_eqb c LF); cbn [length].
  - replace (S (length post) - length post)%nat with 1%nat by lia. reflexivity.
  - rewrite Nat.sub_diag. reflexivity.
Qed.

Lemma match_check_inbox_at (r : str) :
  match_check_inbox (lit "[ACTION:check_inbox" ++ r) =
  let group :=
    match r with
    | c :: r' =>
        if chr_eqb c ":" && (0 <? digits_len r')%nat
        then S (digits_len r') else O
    | [] => O
    end in
  match close_len (drop group r) with
  | Some k => Some (length (lit "[ACTION:check_inbox") + group + k)%nat
  | None => None
  end.
Proof.
  unfold match_check_inbox. rewrite startswith_prefix, drop_app_length.
  reflexivity.
Qed.

(** The first pattern on its tag. *)
Lemma match_check_inbox_tag (count : option str) (post : str) :
  match count with
  | Some digits => digits <> [] /\ forallb is_digit digits = true
  | None => True
  end ->
  match_check_inbox (check_inbox_tag count ++ post) =
  Some (length (check_inbox_tag count ++ post) - length (past_newline post))%nat.
Proof.
  intros Hc. unfold check_inbox_tag. rewrite <- !app_assoc.
  rewrite match_check_inbox_at.
  pose proof (past_newline_length post) as Hp.
  destruct count as [digits|].
  - destruct Hc as [Hne Hd].
    change ((lit ":" ++ digits) ++ lit "]" ++ post)
      with (":"%char :: digits ++ lit "]" ++ post).
    cbv beta iota zeta. rewrite chr_eqb_refl, (digits_len_all digits post Hd).
    assert (Hpos : (0 <? length digits)%nat = true)
      by (destruct digits; [congruence | reflexivity]).
    rewrite Hpos. cbn [andb drop].
    rewrite drop_app_length, close_len_bracket.
    f_equal. rewrite ?length_app. cbn [length app]. rewrite ?length_app.
    cbn [length]. lia.
  - change ([] ++ lit "]" ++ post) with ("]"%char :: post).
    cbv beta iota zeta. change (chr_eqb "]" ":") with false. cbn [andb drop].
    change ("]"%char :: post) with (lit "]" ++ post).
    rewrite close_len_bracket.
    f_equal. rewrite !length_app. cbn [length app]. lia.
Qed.

Lemma match_send_email_at (r : str) :
  match_send_email (lit "[ACTION:send_email|" ++ r) =
  let body := not_bracket_len r in
  if (0 <? body)%nat then
    match close_len (drop body r) with
    | Some k => Some (length (lit "[ACTION:send_email|") + body + k)%nat
    | None => None
    end
  else None.
Proof.
  unfold match_send_email. rewrite startswith_prefix, drop_app_length.
  reflexivity.
Qed.

(** The second pattern on its tag. *)
Lemma match_send_email_tag (args post : str) :
  args <> [] -> "]"%char ∉ args ->
  match_send_email (send_email_tag args ++ post) =
  Some (length (send_email_tag args ++ post) - length (past_newline post))%nat.
Proof.
  intros Hne Hargs. unfold send_email_tag. rewrite <- !app_assoc.
  rewrite match_send_email_at. cbv zeta.
  pose proof (past_newline_length post) as Hp.
  rewrite (not_bracket_len_all args post Hargs).
  assert (Hpos : (0 <? length args)%nat = true)
    by (destruct args; [congruence | reflexivity]).
  rewrite Hpos, drop_app_length, close_len_bracket.
  f_equal. rewrite ?length_app. cbn [length app]. rewrite ?length_app.
  cbn [length]. lia.
Qed.

(** A substitution on a text that holds one tag of its pattern, and no
    other bracket. *)
Lemma re_sub_one_tag (match_len : str -> option nat) (pre tag post : str) :
  (forall c s k, match_len (c :: s) = Some k -> c = OPEN) ->
  OPEN ∉ pre -> OPEN ∉ post -> tag <> [] ->
  match_len (tag ++ post) =
    Some (length (tag ++ post) - length (past_newline post))%nat ->
  re_sub match_len (pre ++ tag ++ post) = pre ++ past_newline post.
Proof.
  intros Hm Hpre Hpost Htag Hmatch.
  pose proof (past_newline_length post) as Hp.
  rewrite re_sub_before_bracket by assumption.
  assert (Hk : exists k, (length (tag ++ post) - length (past_newline post) = S k)%nat).
  { rewrite length_app. destruct tag as [|c tag]; [congruence|].
    cbn [length]. exists (length tag + length post - length (past_newline post))%nat.
    lia. }
  destruct Hk as [k Hk]. rewrite Hk in Hmatch.
  rewrite (re_sub_match match_len (tag ++ post) k Hmatch), <- Hk.
  rewrite length_app.
  replace (length tag + length post - length (past_newline post))%nat
    with (length tag + (length post - length (past_newline post)))%nat by lia.
  rewrite <- drop_drop, drop_app_length, past_newline_drop. f_equal.
  apply re_sub_no_bracket; [exact Hm|].
  destruct post as [|c post]; [exact Hpost|]. cbn [past_newline].
  destruct (chr_eqb c LF); [|exact Hpost].
  apply not_elem_of_cons in Hpost as [_ H]. exact H.
Qed.

Lemma not_elem_forallb (c : ascii) (s : str) :
  forallb (fun d => negb (chr_eqb d c)) s = true -> c ∉ s.
Proof.
  induction s as [|d s IH]; cbn [forallb]; [intros _; apply not_elem_of_nil|].
  intros H. apply andb_true_iff in H as [Hd Hs].
  apply not_elem_of_cons. split; [|auto].
  intros <-. rewrite chr_eqb_refl in Hd. discriminate Hd.
Qed.

(** The characters of the second tag, after its bracket, start no match
    of the first pattern. *)
Lemma re_sub_check_inbox_email_tag (args post : str) :
  OPEN ∉ args -> OPEN ∉ post ->
  re_sub match_check_inbox (send_email_tag args ++ post) =
  send_email_tag args ++ post.
Proof.
  intros Hargs Hpost. unfold send_email_tag.
  change (lit "[ACTION:send_email|") with (OPEN :: lit "ACTION:send_email|").
  cbn [app]. rewrite re_sub_keep by reflexivity. f_equal.
  apply (re_sub_no_bracket _ match_check_inbox_bracket).
  rewrite !not_elem_of_app. repeat split; try assumption;
    apply not_elem_forallb; reflexivity.
Qed.

Lemma past_newline_no_bracket (post : str) : OPEN ∉ post -> OPEN ∉ past_newline post.
Proof.
  intros Hpost. destruct post as [|c post]; [exact Hpost|]. cbn [past_newline].
  destruct (chr_eqb c LF); [|exact Hpost].
  apply not_elem_of_cons in Hpost as [_ H]. exact H.
Qed.

Lemma cleaned_check_inbox_tag (pre post : str) (count : option str) :
  OPEN ∉ pre -> OPEN ∉ post ->
  match count with
  | Some digits => digits <> [] /\ forallb is_digit digits = true
  | None => True
  end ->
  cleaned (pre ++ check_inbox_tag count ++ post) = strip (pre ++ past_newline post).
Proof.
  intros Hpre Hpost Hcount. unfold cleaned.
  rewrite (re_sub_one_tag match_check_inbox pre (check_inbox_tag count) post
             match_check_inbox_bracket Hpre Hpost).
  - rewrite (re_sub_no_bracket _ match_send_email_bracket); [reflexivity|].
    apply not_elem_of_app. split; [exact Hpre|].
    apply past_newline_no_bracket, Hpost.
  - unfold check_inbox_tag. discriminate.
  - apply match_check_inbox_tag, Hcount.
Qed.

Lemma cleaned_send_email_tag (pre post args : str) :
  OPEN ∉ pre -> OPEN ∉ post ->
  args <> [] -> "]"%char ∉ args -> OPEN ∉ args ->
  cleaned (pre ++ send_email_tag args ++ post) = strip (pre ++ past_newline post).
Proof.
  intros Hpre Hpost Hne Hclose Hopen. unfold cleaned.
  rewrite (re_sub_before_bracket _ match_check_inbox_bracket) by exact Hpre.
  rewrite re_sub_check_inbox_email_tag by assumption.
  rewrite (re_sub_one_tag match_send_email pre (send_email_tag args) post
             match_send_email_bracket Hpre Hpost).
  - reflexivity.
  - unfold send_email_tag. discriminate.
  - apply match_send_email_tag; assumption.
Qed.

(** X20.  A tag of either kind (check_inbox with an optional count,
    send_email with its arguments) and the newline that follows it are
    removed from an answer that holds no other bracket; what stands around
    the tag stays, stripped. *)
Theorem action_tag_is_removed (pre post : str) :
  OPEN ∉ pre -> OPEN ∉ post ->
  (forall count,
     match count with
     | Some digits => digits <> [] /\ forallb is_digit digits = true
     | None => True
     end ->
     cleaned (pre ++ check_inbox_tag count ++ post) =
     strip (pre ++ past_newline post)) /\
  (forall args,
     args <> [] -> "]"%char ∉ args -> OPEN ∉ args ->
     cleaned (pre ++ send_email_tag args ++ post) =
     strip (pre ++ past_newline post)).
Proof.
  intros Hpre Hpost. split.
  - intros count. apply cleaned_check_inbox_tag; assumption.
  - intros args. apply cleaned_send_email_tag; assumption.
Qed.

(** ** Image serving: files under the roots *)

Lemma parts_prefix_app (a b : list str) :
  parts_prefix a b = true -> exists rest, b = a ++ rest.
Proof.
  revert b. induction a as [|x a IH]; intros b; [eauto|].
  destruct b as [|y b]; cbn [parts_prefix]; [discriminate|].
  intros H. apply andb_true_iff in H as [Hx Ha].
  apply str_eqb_eq in Hx. subst y.
  destruct (IH b Ha) as [rest ->]. eauto.
Qed.

Lemma join_app_prefix (sep : str) (a rest : list str) :
  exists tail, join sep (a ++ rest) = join sep a ++ tail.
Proof.
  induction a as [|x a IH]; [cbn; eauto|].
  destruct a as [|y a].
  - destruct rest as [|r rest]; cbn; [exists []; symmetry; apply app_nil_r | eauto].
  - destruct IH as [tail IH].
    change ((x :: y :: a) ++ rest) with (x :: ((y :: a) ++ rest)).
    rewrite join_cons by discriminate. rewrite IH.
    rewrite (join_cons sep x (y :: a)) by discriminate.
    exists tail. rewrite <- !app_assoc. reflexivity.
Qed.

(** For resolved paths, a path under a root begins with the string of
    the root. *)
Lemma is_relative_to_startswith (path root : str) :
  resolved path -> resolved root ->
  is_relative_to path root = true -> startswith path root = true.
Proof.
  unfold resolved, is_relative_to. intros Hp Hr H.
  destruct (parts_prefix_app _ _ H) as [rest Hrest].
  rewrite Hp, Hr, Hrest.
  destruct (join_app_prefix (lit "/") (path_parts root) rest) as [tail ->].
  rewrite app_assoc. apply startswith_prefix.
Qed.

Section ImageMore.
Context `{EV : Env}.

(** X22.  [handle_image] serves every file that exists under one of
    the two roots, so the comparison of strings turns away no file it
    should serve; and without a path the answer is 400, whatever the
    files. *)
Theorem handle_image_serves_under_roots (fs : gmap str str) (path : str) :
  path <> [] ->
  resolved (resolve path) ->
  resolved (resolve DOWNLOADS_DIR) ->
  resolved (resolve REPO_ROOT) ->
  is_relative_to (resolve path) (resolve DOWNLOADS_DIR) = true \/
  is_relative_to (resolve path) (resolve REPO_ROOT) = true ->
  path_exists fs (resolve path) = true ->
  handle_image fs (Some path) = FileResponse (resolve path) /\
  handle_image fs None = Response 400 (lit "No path specified") /\
  handle_image fs (Some []) = Response 400 (lit "No path specified").
Proof.
  intros Hne Hp Hd Hr Hunder Hex. split; [|split; reflexivity].
  unfold handle_image. change (default [] (Some path)) with path.
  assert (Hn : negb (nonempty path) = false)
    by (destruct path; [congruence | reflexivity]).
  rewrite Hn, Hex. cbn [existsb negb].
  destruct Hunder as [H | H].
  - rewrite (is_relative_to_startswith _ _ Hp Hd H). reflexivity.
  - rewrite (is_relative_to_startswith _ _ Hp Hr H), orb_true_r. reflexivity.
Qed.

End ImageMore.

(** ** File upload and history endpoint *)

Section StripFacts.
Context {A : Type} (sp : A -> bool).

Lemma lstrip_with_Forall (P : A -> Prop) (l : list A) :
  Forall P l -> Forall P (lstrip_with sp l).
Proof.
  induction 1 as [|c l Hc Hl IH]; cbn [lstrip_with]; [constructor|].
  destruct (sp c); [exact IH | constructor; assumption].
Qed.

Lemma rstrip_with_Forall (P : A -> Prop) (l : list A) :
  Forall P l -> Forall P (rstrip_with sp l).
Proof.
  induction 1 as [|c l Hc Hl IH]; cbn [rstrip_with]; [constructor|].
  destruct (rstrip_with sp l) as [|d r].
  - destruct (sp c); constructor; [exact Hc | constructor].
  - constructor; assumption.
Qed.

Lemma strip_with_Forall (P : A -> Prop) (l : list A) :
  Forall P l -> Forall P (strip_with sp l).
Proof. intros H. apply rstrip_with_Forall, lstrip_with_Forall, H. Qed.

Lemma lstrip_with_head (l : list A) :
  match lstrip_with sp l with c :: _ => sp c = false | [] => True end.
Proof.
  induction l as [|c l IH]; cbn [lstrip_with]; [exact I|].
  destruct (sp c) eqn:E; [exact IH | exact E].
Qed.

Lemma rstrip_with_head (l : list A) :
  match l with c :: _ => sp c = false | [] => True end ->
  match rstrip_with sp l with c :: _ => sp c = false | [] => True end.
Proof.
  destruct l as [|c l]; [intros _; exact I|]. intros Hc. cbn [rstrip_with].
  destruct (rstrip_with sp l); [rewrite Hc|]; exact Hc.
Qed.

Lemma rstrip_with_last (l : list A) :
  match last (rstrip_with sp l) with Some c => sp c = false | None => True end.
Proof.
  induction l as [|c l IH]; cbn [rstrip_with]; [exact I|].
  destruct (rstrip_with sp l) as [|d r].
  - destruct (sp c) eqn:E; [exact I | exact E].
  - rewrite last_cons. destruct (last (d :: r)) eqn:E; [exact IH|].
    apply last_None in E. discriminate E.
Qed.

End StripFacts.

Lemma kept_not_slash (c : ascii) : kept c = true -> c <> SLASH.
Proof. intros H ->. vm_compute in H. discriminate H. Qed.

Lemma safe_filename_kept (filename : str) :
  Forall (fun c => kept c = true /\ (nat_of_ascii c < 128)%nat)
         (safe_filename filename).
Proof.
  unfold safe_filename. destruct (nonempty _) eqn:E.
  - apply strip_with_Forall. apply Forall_forall. intros c Hc.
    apply list_elem_of_In, filter_In in Hc as [Hc Hk]. split; [exact Hk|].
    unfold ascii_ignore in Hc. apply filter_In in Hc as [_ Hc].
    apply Nat.ltb_lt, Hc.
  - repeat constructor.
Qed.

Lemma safe_filename_no_slash (filename : str) : SLASH ∉ safe_filename filename.
Proof.
  intros H. pose proof (safe_filename_kept filename) as Hall.
  rewrite Forall_forall in Hall. apply Hall in H as [H _].
  exact (kept_not_slash SLASH H eq_refl).
Qed.

(** X23.  The name under which an upload is stored is never empty, is
    made of ASCII letters, digits, underscores, dashes, dots and
    whitespace only, so it holds no slash, and neither begins nor ends
    with whitespace, whatever file name the client has sent. *)
Theorem safe_filename_is_plain (filename : str) :
  safe_filename filename <> [] /\
  Forall (fun c => kept c = true /\ (nat_of_ascii c < 128)%nat)
         (safe_filename filename) /\
  (SLASH ∉ safe_filename filename) /\
  match safe_filename filename with c :: _ => is_space c = false | [] => True end /\
  match last (safe_filename filename) with
  | Some c => is_space c = false
  | None => True
  end.
Proof.
  split; [|split; [apply safe_filename_kept|split; [apply safe_filename_no_slash|split]]].
  - unfold safe_filename. destruct (strip _) eqn:E; cbn [nonempty]; discriminate.
  - unfold safe_filename. destruct (nonempty _) eqn:E; [|reflexivity].
    unfold strip, strip_with. apply rstrip_with_head, lstrip_with_head.
  - unfold safe_filename. destruct (nonempty _) eqn:E; [|reflexivity].
    unfold strip, strip_with. apply rstrip_with_last.
Qed.

Section UploadFacts.
Context `{RT : Runtime} `{EV : Env}.

(** The loop changes no file but the one it writes. *)
Lemma receive_footprint (file_path : str) (chunks : list (res bytes)) (size : Z)
    (blobs : gmap str bytes) (p : str) :
  p <> file_path ->
  snd (receive file_path chunks size blobs) !! p = blobs !! p.
Proof.
  intros Hp. revert size blobs.
  induction chunks as [|[chunk|e] rest IH]; intros size blobs;
    cbn [receive]; try reflexivity.
  destruct (negb (nonempty chunk)); [reflexivity|].
  destruct (MAX_UPLOAD_SIZE <? size + len chunk).
  - cbn [snd]. apply lookup_delete_ne. congruence.
  - rewrite IH. apply lookup_insert_ne. congruence.
Qed.

(** The loop over chunks that are all received. *)
Lemma receive_all (file_path : str) (chunks : list bytes) (size : Z)
    (data : bytes) (blobs : gmap str bytes) :
  Forall (fun c => c <> []) chunks ->
  size <= MAX_UPLOAD_SIZE ->
  receive file_path (map Ok chunks) size (<[file_path := data]> blobs) =
  if size + len (concat chunks) <=? MAX_UPLOAD_SIZE
  then (Stored (size + len (concat chunks)),
        <[file_path := data ++ concat chunks]> blobs)
  else (TooLarge, delete file_path blobs).
Proof.
  intros H. revert size data.
  induction H as [|chunk chunks Hc _ IH]; intros size data Hsize.
  - cbn [map concat receive]. unfold len. cbn [length].
    rewrite Z.add_0_r, app_nil_r.
    destruct (Z.leb_spec size MAX_UPLOAD_SIZE); [reflexivity | lia].
  - cbn [map receive]. destruct chunk as [|b chunk]; [congruence|].
    cbn [nonempty negb].
    assert (Hlen : len (concat ((b :: chunk) :: chunks)) =
                   len (b :: chunk) + len (concat chunks)).
    { unfold len. cbn [concat]. rewrite length_app. lia. }
    assert (Hnn : 0 <= len (concat chunks)) by (unfold len; lia).
    rewrite Hlen, Z.add_assoc.
    change (concat ((b :: chunk) :: chunks)) with ((b :: chunk) ++ concat chunks).
    destruct (Z.ltb_spec MAX_UPLOAD_SIZE (size + len (b :: chunk))) as [Hbig|Hok].
    + destruct (Z.leb_spec (size + len (b :: chunk) + len (concat chunks))
                  MAX_UPLOAD_SIZE); [lia|].
      rewrite delete_insert_eq. reflexivity.
    + rewrite lookup_insert_eq. cbn [default]. rewrite insert_insert_eq.
      rewrite IH by exact Hok. rewrite <- app_assoc. reflexivity.
Qed.

(** X24.  An upload whose reads all succeed is stored whole when it is
    no larger than 20 MB, and the response tells its name, its path and
    its size; when it is larger the response is 413 and no file is left
    under the name, whatever was there before. *)
Theorem upload_size_limit (timestamp filename : str) (chunks : list bytes)
    (blobs : gmap str bytes) :
  Forall (fun c => c <> []) chunks ->
  let final_filename := timestamp ++ lit "_" ++ safe_filename filename in
  let file_path := path_join DOWNLOADS_DIR final_filename in
  handle_upload timestamp (Ok (Some (file_part filename chunks))) blobs =
  if len (concat chunks) <=? 20 * 1024 * 1024
  then (json_response
          (JObj [(lit "success", JBool true);
                 (lit "filename", JStr final_filename);
                 (lit "path", JStr file_path);
                 (lit "size", JInt (len (concat chunks)))]) 200,
        <[file_path := concat chunks]> blobs)
  else (json_response
          (JObj [(lit "error", JStr (lit "File too large (max 20MB)"))]) 413,
        delete file_path blobs).
Proof.
  intros Hne final_filename file_path. unfold handle_upload, file_part.
  cbn [field_name field_filename field_chunks]. rewrite str_eqb_refl.
  cbn [negb]. fold final_filename. fold file_path.
  rewrite receive_all by (auto; discriminate).
  change (20 * 1024 * 1024) with MAX_UPLOAD_SIZE. rewrite Z.add_0_l.
  destruct (len (concat chunks) <=? MAX_UPLOAD_SIZE); reflexivity.
Qed.

(** X25.  An upload writes in the downloads directory only: a file
    that is not as before the request lies directly in that directory,
    under a name that begins with the time stamp and holds no slash,
    whatever the request. *)
Theorem upload_stays_in_downloads (timestamp : str)
    (request : res (option upload_field)) (blobs : gmap str bytes) (p : str) :
  timestamp <> [] ->
  SLASH ∉ timestamp ->
  snd (handle_upload timestamp request blobs) !! p <> blobs !! p ->
  exists name,
    p = DOWNLOADS_DIR ++ lit "/" ++ timestamp ++ lit "_" ++ name /\
    (SLASH ∉ timestamp ++ lit "_" ++ name).
Proof.
  intros Hts Hslash Hchanged. unfold handle_upload in Hchanged.
  destruct request as [[field|]|e]; [|contradiction|contradiction].
  destruct (negb _); [contradiction|].
  destruct (field_filename field) as [filename|]; [|contradiction].
  set (final_filename := timestamp ++ lit "_" ++ safe_filename filename) in *.
  set (file_path := path_join DOWNLOADS_DIR final_filename) in *.
  assert (Hp : p = file_path).
  { destruct (decide (p = file_path)) as [E|E]; [exact E|]. exfalso.
    apply Hchanged.
    pose proof (receive_footprint file_path (field_chunks field) 0
                  (<[file_path := []]> blobs) p E) as H.
    rewrite lookup_insert_ne in H by congruence.
    destruct (receive _ _ _ _) as [[size| |e] blobs']; exact H. }
  exists (safe_filename filename). split.
  - rewrite Hp. unfold file_path, path_join, final_filename.
    destruct timestamp as [|c ts]; [congruence|].
    apply not_elem_of_cons in Hslash as [Hc _].
    cbn [app lit list_ascii_of_string startswith].
    rewrite chr_eqb_neq by (unfold SLASH in Hc; congruence). reflexivity.
  - rewrite !not_elem_of_app. split; [exact Hslash|]. split.
    + apply not_elem_forallb. reflexivity.
    + apply safe_filename_no_slash.
Qed.

(** A log that reads as [old], with entries appended to it. *)
Lemma load_history_appended (fs : gmap str str) (user_id : str) (limit : Z)
    (text : str) (old entries : list json) :
  log_of fs user_id = text ++ log_text entries ->
  closed_log text ->
  read_messages (readlines text) [] = Ok old ->
  Forall reads_back entries ->
  load_history fs user_id limit = slice_from (- limit) (old ++ entries).
Proof.
  intros Hlog Hclosed Hold Hrb.
  rewrite load_history_log_of, Hlog, readlines_app by exact Hclosed.
  rewrite read_messages_app, Hold. cbn [rbind].
  rewrite readlines_log_text by exact Hrb.
  rewrite read_messages_log by exact Hrb. reflexivity.
Qed.

(** X26.  The history endpoint after a successful chat run on a log
    that reads as the entries [old]: status 200 and the last 100 of [old]
    followed by the message of the user and the cleaned answer. *)
Theorem history_shows_the_run (user_message raw err : str) (w : world)
    (old : list json) :
  raw <> [] ->
  closed_log (log_of (files w) WEB_USER_ID) ->
  read_messages (readlines (log_of (files w) WEB_USER_ID)) [] = Ok old ->
  let asked := history_entry (lit "user") user_message (clock (tick w)) in
  let answered :=
    history_entry (lit "assistant") (cleaned raw) (clock (S (tick w))) in
  reads_back asked ->
  reads_back answered ->
  handle_history (files (snd (complete chat user_message (JStr raw) 0 err w))) =
  json_response (JArr (slice_from (- 100) (old ++ [asked; answered]))) 200.
Proof.
  intros Hraw Hclosed Hold asked answered Ha Hb. unfold handle_history.
  pose proof (complete_success_log chat user_message raw err w Hraw) as Hlog.
  cbn [history_id chat] in Hlog.
  rewrite (load_history_appended _ WEB_USER_ID 100
             (log_of (files w) WEB_USER_ID) old [asked; answered]).
  - reflexivity.
  - rewrite Hlog. unfold log_text. cbn [map concat]. rewrite app_nil_r. reflexivity.
  - exact Hclosed.
  - exact Hold.
  - constructor; [exact Ha|]. constructor; [exact Hb|]. constructor.
Qed.

End UploadFacts.

(** ** Status frames *)

Lemma escape_chr_length (c : ascii) : (length (escape_chr c) <= 6)%nat.
Proof. destruct c as [[] [] [] [] [] [] [] []]; vm_compute; lia. Qed.

Lemma quote_length (s : str) : (length (quote s) <= 2 + 6 * length s)%nat.
Proof.
  unfold quote. rewrite !length_app. cbn [length].
  assert (length (concat (map escape_chr s)) <= 6 * length s)%nat.
  { induction s as [|c s IH]; [reflexivity|]. cbn [map concat length].
    rewrite length_app. pose proof (escape_chr_length c). lia. }
  lia.
Qed.

Lemma sse_length (payload : str) : len (sse payload) = len payload + 8.
Proof. unfold sse, len. rewrite !length_app. cbn [length lit list_ascii_of_string]. lia. Qed.

(** The summary of a payload whose type is one of the three the relay
    uses. *)
Lemma summary_length (t m : str) :
  (length t <= 11)%nat ->
  len (ref_dumps (JObj [(lit "type", JStr t);
                        (lit "message", JStr (take 500 m ++ lit "..."));
                        (lit "truncated", JBool true)])) <= MAX_SSE_EVENT_SIZE.
Proof.
  intros Ht. unfold len. cbn [ref_dumps map join fst snd].
  rewrite !length_app.
  pose proof (quote_length t) as H1.
  pose proof (quote_length (take 500 m ++ lit "...")) as H2.
  rewrite length_app, length_take in H2.
  change (length (lit "...")) with 3%nat in H2.
  change (length (quote (lit "type"))) with 6%nat.
  change (length (quote (lit "message"))) with 9%nat.
  change (length (quote (lit "truncated"))) with 11%nat.
  change (length (lit "{")) with 1%nat. change (length (lit "}")) with 1%nat.
  change (length (lit ": ")) with 2%nat. change (length (lit ", ")) with 2%nat.
  change (length (lit "true")) with 4%nat.
  change MAX_SSE_EVENT_SIZE with 16384. lia.
Qed.

Lemma write_frames_within (n : Z) (frame : str) :
  len frame <= n -> preserves (frames_within n) (write frame).
Proof.
  intros H w Hw. unfold frames_within, write, set_wire in *. cbn [snd wire].
  apply Forall_app. split; [exact Hw|]. constructor; [exact H | constructor].
Qed.

Lemma send_sse_data_within (data_dict : list (str * json)) (t : str) :
  assoc (lit "type") data_dict = Some (JStr t) ->
  (length t <= 11)%nat ->
  preserves (frames_within MAX_STATUS_FRAME)
            (send_sse_data (RT := ref_runtime) data_dict).
Proof.
  intros Hty Ht. unfold send_sse_data. cbn [json_dumps ref_runtime].
  destruct (Z.leb_spec (len (ref_dumps (JObj data_dict))) MAX_SSE_EVENT_SIZE) as [H|H].
  - apply write_frames_within. rewrite sse_length. unfold MAX_STATUS_FRAME. lia.
  - rewrite !py_get_field. unfold field at 1. rewrite Hty.
    intros w Hw. unfold bind, lift. cbn [rbind].
    destruct (field data_dict (lit "message") (JStr (lit "Processing...")))
      as [| | |m| |]; cbn [py_prefix py_add rbind as_int snd]; try exact Hw.
    + apply write_frames_within; [|exact Hw]. rewrite sse_length.
      pose proof (summary_length t m Ht). unfold MAX_STATUS_FRAME. lia.
Qed.

Lemma for_blocks_within (n : Z) (event : json) (body : json -> M world unit) :
  (forall block, preserves (frames_within n) (body block)) ->
  preserves (frames_within n) (for_blocks event body).
Proof. intros Hb. unfold for_blocks. auto 10 with preserves. Qed.

(** X27.  With the reference codec, no status frame that the two
    relays write for an event of the assistant is longer than the ceiling
    on the payload plus the eight characters of the frame around it: a
    payload over the ceiling is replaced by a summary that is under it. *)
Theorem status_frames_are_bounded (event : json) (w : world) :
  frames_within MAX_STATUS_FRAME w ->
  frames_within MAX_STATUS_FRAME (snd (send_event (RT := ref_runtime) event w)) /\
  frames_within MAX_STATUS_FRAME
    (snd (draw_bot_send_event (RT := ref_runtime) event w)).
Proof.
  intros Hw.
  assert (Hs : forall d t, assoc (lit "type") d = Some (JStr t) ->
                 (length t <= 11)%nat ->
                 preserves (frames_within MAX_STATUS_FRAME)
                   (send_sse_data (RT := ref_runtime) d))
    by (intros d t; apply send_sse_data_within).
  split.
  - revert w Hw. fold (preserves (frames_within MAX_STATUS_FRAME)
                         (send_event (RT := ref_runtime) event)).
    unfold send_event.
    apply preserves_bind; [apply preserves_lift | intros event_type].
    apply preserves_bind; [solve [auto with preserves] | intros is_init].
    apply preserves_if; [|apply preserves_if; [|apply preserves_if]].
    + apply (Hs _ (lit "status")); [reflexivity | cbn; lia].
    + apply for_blocks_within. intros block.
      apply preserves_bind; [apply preserves_lift | intros ty].
      apply preserves_when.
      apply preserves_bind; [apply preserves_lift | intros tool_name].
      apply (Hs _ (lit "tool")); [reflexivity | cbn; lia].
    + apply for_blocks_within. intros block.
      apply preserves_bind; [apply preserves_lift | intros ty].
      apply preserves_when.
      apply preserves_bind; [apply preserves_lift | intros result_content].
      apply (Hs _ (lit "tool_result")); [reflexivity | cbn; lia].
    + apply preserves_ret.
  - revert w Hw. fold (preserves (frames_within MAX_STATUS_FRAME)
                         (draw_bot_send_event (RT := ref_runtime) event)).
    unfold draw_bot_send_event.
    apply preserves_bind; [apply preserves_lift | intros event_type].
    apply preserves_bind; [solve [auto with preserves] | intros is_init].
    apply preserves_if; [|apply preserves_if; [|apply preserves_if]].
    + apply (Hs _ (lit "status")); [reflexivity | cbn; lia].
    + apply for_blocks_within. intros block.
      apply preserves_bind; [apply preserves_lift | intros ty].
      apply preserves_when.
      apply preserves_bind; [apply preserves_lift | intros tool_name].
      apply (Hs _ (lit "tool")); [reflexivity | cbn; lia].
    + apply for_blocks_within. intros block.
      apply preserves_bind; [apply preserves_lift | intros ty].
      apply preserves_when.
      apply (Hs _ (lit "tool_result")); [reflexivity | cbn; lia].
    + apply preserves_ret.
Qed.

(** ** An answer made of a tag, and the ticker on a busy stream *)

Section TagsOnly.
Context `{RT : Runtime} `{EV : Env}.


End TagsOnly.

Section QuietTicker.
Local Open Scope Q_scope.

Lemma frames_sent (frames : list Q) (s : session) :
  fold_left (fun s t => send_frame t s) frames s =
  {| last_event_time := default (last_event_time s) (last frames);
     writes := rev frames ++ writes s |}.
Proof.
  revert s. induction frames as [|t frames IH]; intros s.
  - destruct s; reflexivity.
  - cbn [fold_left]. rewrite IH. cbn [send_frame last_event_time writes rev].
    rewrite <- app_assoc. f_equal. rewrite last_cons.
    destruct (last frames); reflexivity.
Qed.

(** X28.  While the relay sends a frame less than 4 units before each
    wake of the ticker, the ticker writes nothing: the writes on the
    stream are the frames of the relay. *)
Theorem ticker_is_quiet_on_a_busy_stream (wake : Q) (periods : list (list Q))
    (s : session) :
  busy wake periods ->
  writes (keep_alive_run wake periods s) = rev (concat periods) ++ writes s.
Proof.
  revert wake s. induction periods as [|frames rest IH]; intros wake s Hb.
  - reflexivity.
  - destruct Hb as [(t & Hlast & Ht) Hrest]. cbn [keep_alive_run concat].
    rewrite frames_sent, Hlast.
    change (default (last_event_time s) (Some t)) with t.
    unfold keep_alive_wake. cbn [last_event_time].
    destruct (Qle_bool 4 (wake - t)) eqn:E.
    + apply Qle_bool_iff in E. lra.
    + rewrite (IH _ _ Hrest). cbn [writes].
      rewrite rev_app_distr, <- app_assoc. reflexivity.
Qed.

Lemma ticker_is_quiet_on_a_busy_stream_witness :
  writes (keep_alive_run (0 + 5) steady_frames (new_session 0)) =
  rev (concat steady_frames) ++ writes (new_session 0).
Proof.
  apply (ticker_is_quiet_on_a_busy_stream (0 + 5) steady_frames (new_session 0)).
  cbn [busy steady_frames]. split; [|split; [|exact I]].
  - exists 4. split; [reflexivity | lra].
  - exists 9. split; [reflexivity | lra].
Defined.

End QuietTicker.

(** ** The properties above on sample inputs *)

Lemma save_message_then_load_witness :
  load_history (RT := ref_runtime) (EV := ref_deployment)
    (files (snd (save_message (RT := ref_runtime) (EV := ref_deployment)
                   WEB_USER_ID (lit "assistant") (lit "hi there") one_turn_world)))
    WEB_USER_ID 50 =
  slice_from (- 50) ([sample_user_entry] ++ [sample_assistant_entry]).
Proof.
  refine (proj1 (save_message_then_load (RT := ref_runtime) (EV := ref_deployment)
                   WEB_USER_ID (lit "assistant") (lit "hi there") one_turn_world
                   [sample_user_entry] 50 _ _ _ _)).
  - right. exists (ref_dumps sample_user_entry). vm_compute. reflexivity.
  - vm_compute. reflexivity.
  - apply ref_reads_back.
  - reflexivity.
Defined.

Lemma load_history_ignores_blank_lines_witness :
  load_history (RT := ref_runtime) (EV := ref_deployment) padded_store WEB_USER_ID 50 =
  load_history (RT := ref_runtime) (EV := ref_deployment) plain_store WEB_USER_ID 50.
Proof.
  apply (load_history_ignores_blank_lines (RT := ref_runtime) (EV := ref_deployment)
           padded_store plain_store WEB_USER_ID 50).
  vm_compute. reflexivity.
Defined.

Lemma junk_line_is_skipped_witness :
  stream_events (RT := ref_runtime) (Some record_event) [stream_with junk_line] [] =
  stream_events (RT := ref_runtime) (Some record_event) [sample_stream] [].
Proof.
  apply (junk_line_is_skipped (RT := ref_runtime) (Some record_event)
           [stream_with junk_line] [sample_stream] []
           [event_line (delta_event (lit "Hello"))] junk_line
           (event_line (result_event (lit "R")) ++ [x0a])).
  - repeat constructor. vm_compute. discriminate.
  - repeat constructor. vm_compute. discriminate.
  - repeat constructor. apply split_nl_none. vm_compute. reflexivity.
  - split; [apply split_nl_none; vm_compute; reflexivity|].
    right. exists (lit "not json"). split; vm_compute; reflexivity.
  - vm_compute. reflexivity.
  - vm_compute. reflexivity.
Defined.

Lemma fatal_line_ends_the_run_witness :
  stream_events (RT := ref_runtime) (Some record_event) [stream_with number_line] [] =
  stream_events (RT := ref_runtime) (Some record_event)
    [event_line (delta_event (lit "Hello")) ++ [x0a]] [].
Proof.
  apply (fatal_line_ends_the_run (RT := ref_runtime) (Some record_event)
           [stream_with number_line]
           [event_line (delta_event (lit "Hello")) ++ [x0a]] []
           [event_line (delta_event (lit "Hello"))] number_line
           (event_line (result_event (lit "R")) ++ [x0a])).
  - repeat constructor. vm_compute. discriminate.
  - repeat constructor. vm_compute. discriminate.
  - repeat constructor. apply split_nl_none. vm_compute. reflexivity.
  - split; [apply split_nl_none; vm_compute; reflexivity|].
    split; [vm_compute; reflexivity|].
    right. exists (lit "42"), (JInt 42). repeat split; vm_compute; reflexivity.
  - vm_compute. reflexivity.
  - vm_compute. reflexivity.
Defined.

Lemma events_are_forwarded_in_order_witness :
  decoded_events (RT := ref_runtime) sample_chunks =
  [delta_event (lit "Hello"); result_event (lit "R")].
Proof.
  refine (proj2 (events_are_forwarded_in_order (RT := ref_runtime)
                   (Some record_event) sample_chunks []
                   [event_line (delta_event (lit "Hello"));
                    event_line (result_event (lit "R"))]
                   [delta_event (lit "Hello"); result_event (lit "R")]
                   [Delta (lit "Hello"); Result (lit "R")] true _ _ _ _ _)).
  - repeat constructor; vm_compute; discriminate.
  - vm_compute. reflexivity.
  - repeat constructor.
    + apply split_nl_none. vm_compute. reflexivity.
    + exists (ref_dumps (delta_event (lit "Hello"))).
      split; vm_compute; reflexivity.
    + apply split_nl_none. vm_compute. reflexivity.
    + exists (ref_dumps (result_event (lit "R"))).
      split; vm_compute; reflexivity.
  - vm_compute. reflexivity.
  - repeat constructor.
Defined.

Lemma callback_failure_ends_the_run_witness :
  stream_events (RT := ref_runtime) (Some refuse) [sample_stream] [] =
  (Ok (JStr (advance_all ([] ++ [Delta (lit "Hello")]) [])),
   snd (refuse (delta_event (lit "Hello")) (pushed_all (Some refuse) [] []))).
Proof.
  apply (callback_failure_ends_the_run (RT := ref_runtime) refuse [sample_stream] []
           [] [] [] (event_line (delta_event (lit "Hello")))
           (delta_event (lit "Hello")) (Delta (lit "Hello")) BrokenPipeError
           (event_line (result_event (lit "R")) ++ [x0a])).
  - repeat constructor. vm_compute. discriminate.
  - vm_compute. reflexivity.
  - constructor.
  - reflexivity.
  - constructor.
  - split; [apply split_nl_none; vm_compute; reflexivity|].
    split; [vm_compute; reflexivity|].
    exists (ref_dumps (delta_event (lit "Hello"))). split; vm_compute; reflexivity.
  - vm_compute. reflexivity.
  - reflexivity.
  - reflexivity.
Defined.

Lemma one_assistant_process_per_request_witness :
  spawned (snd (with_handlers (RT := ref_runtime)
                  (stream_body (RT := ref_runtime) (EV := greeting_deployment)
                     (chat (RT := ref_runtime) (EV := greeting_deployment))
                     (Ok (JObj hello_request))) empty_world)) =
  spawned empty_world ++
  [[lit "claude"; lit "--output-format"; lit "stream-json"; lit "--verbose";
    lit "-p"; hello_prompt; lit "--dangerously-skip-permissions"]].
Proof.
  apply (one_assistant_process_per_request (RT := ref_runtime)
           (EV := greeting_deployment)
           (chat (RT := ref_runtime) (EV := greeting_deployment))
           hello_request (lit "hello") hello_prompt empty_world).
  - left. reflexivity.
  - reflexivity.
  - vm_compute. discriminate.
  - vm_compute. reflexivity.
Defined.



Lemma successful_run_is_recorded_witness :
  log_of (EV := ref_deployment)
    (files (snd (complete (RT := ref_runtime) (EV := ref_deployment) ref_chat
                   (lit "hello") (JStr (lit "hi there")) 0 [] empty_world)))
    WEB_USER_ID =
  log_of (EV := ref_deployment) (files empty_world) WEB_USER_ID ++
  log_line (RT := ref_runtime) sample_user_entry ++
  log_line (RT := ref_runtime)
    (history_entry (lit "assistant") (cleaned (lit "hi there")) (ref_clock 1)).
Proof.
  refine (proj1 (successful_run_is_recorded (RT := ref_runtime) (EV := ref_deployment)
                   ref_chat (lit "hello") (lit "hi there") [] empty_world _)).
  discriminate.
Defined.


Lemma prompt_begins_and_ends_witness :
  exists mid,
    hello_prompt = chat_system_instructions ++ mid ++ [LF; LF] ++
                   lit "User message: " ++ lit "hello".
Proof.
  apply (proj1 (prompt_begins_and_ends (RT := ref_runtime) (EV := ref_deployment)
                  ∅ WEB_USER_ID (lit "hello") hello_prompt)).
  vm_compute. reflexivity.
Defined.

Lemma prompt_shows_last_ten_turns_witness :
  build_prompt (RT := ref_runtime) (EV := ref_deployment)
    (files (snd (save_all (RT := ref_runtime) (EV := ref_deployment)
                   WEB_USER_ID two_turns empty_world)))
    WEB_USER_ID (lit "again") =
  Ok (join [LF; LF]
        ([chat_system_instructions] ++
         memory_block (EV := ref_deployment)
           (files (snd (save_all (RT := ref_runtime) (EV := ref_deployment)
                          WEB_USER_ID two_turns empty_world))) ++
         [transcript (last_n 10 two_turns)] ++
         [lit "User message: " ++ lit "again"])).
Proof.
  apply (prompt_shows_last_ten_turns (RT := ref_runtime) (EV := ref_deployment)
           WEB_USER_ID (lit "again") two_turns empty_world).
  - reflexivity.
  - repeat constructor; apply ref_reads_back.
  - discriminate.
Defined.

Lemma draw_bot_prompt_shows_last_six_turns_witness :
  build_draw_bot_prompt (RT := ref_runtime) (EV := ref_deployment)
    (files (snd (save_all (RT := ref_runtime) (EV := ref_deployment)
                   (WEB_USER_ID ++ lit "_draw_bot") two_turns empty_world)))
    WEB_USER_ID (lit "again") =
  Ok (join [LF; LF]
        ([draw_bot_system_instructions] ++
         profile_block (EV := ref_deployment)
           (files (snd (save_all (RT := ref_runtime) (EV := ref_deployment)
                          (WEB_USER_ID ++ lit "_draw_bot") two_turns empty_world))) ++
         [diagram_instructions] ++
         [transcript (last_n 6 two_turns)] ++
         [lit "User message: " ++ lit "again"])).
Proof.
  apply (draw_bot_prompt_shows_last_six_turns (RT := ref_runtime)
           (EV := ref_deployment) WEB_USER_ID (lit "again") two_turns empty_world).
  - reflexivity.
  - repeat constructor; apply ref_reads_back.
  - discriminate.
Defined.

Lemma answer_without_tag_is_kept_witness :
  cleaned (lit " [x] hi there ") = strip (lit " [x] hi there ").
Proof.
  apply (answer_without_tag_is_kept (lit " [x] hi there ")). reflexivity.
Defined.

Lemma action_tag_is_removed_witness :
  cleaned (lit "Done. " ++ check_inbox_tag (Some (lit "5")) ++ LF :: lit "Bye") =
  strip (lit "Done. " ++ past_newline (LF :: lit "Bye")).
Proof.
  refine (proj1 (action_tag_is_removed (lit "Done. ") (LF :: lit "Bye") _ _)
            (Some (lit "5")) _).
  - apply not_elem_forallb. reflexivity.
  - apply not_elem_forallb. reflexivity.
  - split; [discriminate | reflexivity].
Defined.

Lemma handle_image_serves_under_roots_witness :
  handle_image (EV := ref_deployment) image_files (Some image_path) =
  FileResponse image_path.
Proof.
  refine (proj1 (handle_image_serves_under_roots (EV := ref_deployment)
                   image_files image_path _ _ _ _ _ _)).
  - discriminate.
  - vm_compute. reflexivity.
  - vm_compute. reflexivity.
  - vm_compute. reflexivity.
  - left. vm_compute. reflexivity.
  - vm_compute. reflexivity.
Defined.

Lemma upload_size_limit_witness :
  handle_upload (RT := ref_runtime) (EV := ref_deployment) upload_stamp
    (Ok (Some (file_part upload_name [to_bytes (lit "da"); to_bytes (lit "ta")]))) ∅ =
  (json_response
     (JObj [(lit "success", JBool true);
            (lit "filename", JStr (upload_stamp ++ lit "_" ++ safe_filename upload_name));
            (lit "path",
             JStr (path_join (DOWNLOADS_DIR (Env := ref_deployment))
                     (upload_stamp ++ lit "_" ++ safe_filename upload_name)));
            (lit "size", JInt (len (concat [to_bytes (lit "da"); to_bytes (lit "ta")])))])
     200,
   <[path_join (DOWNLOADS_DIR (Env := ref_deployment))
       (upload_stamp ++ lit "_" ++ safe_filename upload_name) :=
       concat [to_bytes (lit "da"); to_bytes (lit "ta")]]> ∅).
Proof.
  apply (upload_size_limit (RT := ref_runtime) (EV := ref_deployment)
           upload_stamp upload_name [to_bytes (lit "da"); to_bytes (lit "ta")] ∅).
  repeat constructor; vm_compute; discriminate.
Defined.

(** The name sent by the client loses its slashes: the file is stored
    under "20250101_000000_..etcpass wd.txt" in the downloads directory. *)
Example safe_filename_sample :
  safe_filename upload_name = lit "..etcpass wd.txt" /\
  path_join (DOWNLOADS_DIR (Env := ref_deployment))
    (upload_stamp ++ lit "_" ++ safe_filename upload_name) =
  lit "/srv/thinx/thinxai-web/downloads/20250101_000000_..etcpass wd.txt".
Proof. split; vm_compute; reflexivity. Qed.

Lemma upload_stays_in_downloads_witness :
  exists name,
    lit "/srv/thinx/thinxai-web/downloads/20250101_000000_..etcpass wd.txt" =
    DOWNLOADS_DIR (Env := ref_deployment) ++ lit "/" ++ upload_stamp ++ lit "_" ++ name /\
    (SLASH ∉ upload_stamp ++ lit "_" ++ name).
Proof.
  apply (upload_stays_in_downloads (RT := ref_runtime) (EV := ref_deployment)
           upload_stamp
           (Ok (Some (file_part upload_name [to_bytes (lit "data")]))) ∅).
  - discriminate.
  - apply not_elem_forallb. reflexivity.
  - vm_compute. discriminate.
Defined.

Lemma history_shows_the_run_witness :
  handle_history (RT := ref_runtime) (EV := ref_deployment)
    (files (snd (complete (RT := ref_runtime) (EV := ref_deployment) ref_chat
                   (lit "hello") (JStr (lit "hi there")) 0 [] empty_world))) =
  json_response
    (JArr (slice_from (- 100)
             ([] ++ [sample_user_entry;
                     history_entry (lit "assistant") (cleaned (lit "hi there"))
                       (ref_clock 1)]))) 200.
Proof.
  apply (history_shows_the_run (RT := ref_runtime) (EV := ref_deployment)
           (lit "hello") (lit "hi there") [] empty_world []).
  - discriminate.
  - left. reflexivity.
  - reflexivity.
  - apply ref_reads_back.
  - apply ref_reads_back.
Defined.

Lemma status_frames_are_bounded_witness :
  frames_within MAX_STATUS_FRAME
    (snd (send_event (RT := ref_runtime) long_tool_event empty_world)) /\
  frames_within MAX_STATUS_FRAME
    (snd (draw_bot_send_event (RT := ref_runtime) long_tool_event empty_world)).
Proof.
  apply (status_frames_are_bounded long_tool_event empty_world).
  constructor.
Defined.

